(** * Flocking kernel of [bird.js] / [main.js]: embedding and properties

    The kernel is the class [Boid] of [bird.js] together with the per-frame
    loop of [animate] in [main.js].  It is written against three.js'
    [THREE.Vector3]; the handful of [Vector3] methods that [Boid] calls are
    transcribed below from three.js ([src/math/Vector3.js]), and so is what
    [mesh.lookAt] runs ([Object3D.lookAt], [Matrix4.lookAt],
    [Matrix4.extractRotation], [Quaternion.setFromRotationMatrix],
    [Quaternion.premultiply], [Quaternion.invert]).

    Numbers.  A JavaScript number is modelled by [JS.number]: a finite value
    carried as an exact real, or one of the three special values [+Infinity],
    [-Infinity] and [NaN], with the arithmetic and comparison tables of
    IEEE 754 on the special values.  Rounding, overflow and the sign of zero
    are not modelled: finite arithmetic is exact.  Every bound proved below is
    therefore a bound of the real-valued computation (what the specification
    calls "within floating-point tolerance"). *)

From Stdlib Require Import Reals Lra Lia List Bool.
Import ListNotations.

(** ** JavaScript numbers *)

Module JS.

Inductive number : Type :=
| Fin (r : R)
| PInf
| NInf
| NaN.

Definition Rltb (a b : R) : bool := if Rlt_dec a b then true else false.
Definition Rleb (a b : R) : bool := if Rle_dec a b then true else false.
Definition Reqb (a b : R) : bool := if Req_dec_T a b then true else false.

(** [Number.isFinite]. *)
Definition isFinite (a : number) : bool :=
  match a with Fin _ => true | _ => false end.

Definition isNaN (a : number) : bool :=
  match a with NaN => true | _ => false end.

(** Unary minus. *)
Definition neg (a : number) : number :=
  match a with
  | Fin r => Fin (- r)
  | PInf => NInf
  | NInf => PInf
  | NaN => NaN
  end.

(** [a + b]. *)
Definition add (a b : number) : number :=
  match a, b with
  | Fin p, Fin q => Fin (p + q)
  | NaN, _ | _, NaN => NaN
  | PInf, NInf | NInf, PInf => NaN
  | PInf, _ | _, PInf => PInf
  | NInf, _ | _, NInf => NInf
  end.

(** [a - b]. *)
Definition sub (a b : number) : number := add a (neg b).

(** The infinity whose sign is the sign of the non-zero real [p]
    ([flip] negates it). *)
Definition signedInf (flip : bool) (p : R) : number :=
  if xorb flip (Rltb 0 p) then PInf else NInf.

(** [a * b]. *)
Definition mul (a b : number) : number :=
  match a, b with
  | Fin p, Fin q => Fin (p * q)
  | NaN, _ | _, NaN => NaN
  | Fin p, PInf | PInf, Fin p => if Reqb p 0 then NaN else signedInf false p
  | Fin p, NInf | NInf, Fin p => if Reqb p 0 then NaN else signedInf true p
  | PInf, PInf | NInf, NInf => PInf
  | PInf, NInf | NInf, PInf => NInf
  end.

(** [a / b]; a zero divisor counts as [+0]. *)
Definition div (a b : number) : number :=
  match a, b with
  | NaN, _ | _, NaN => NaN
  | Fin p, Fin q =>
      if Reqb q 0 then (if Reqb p 0 then NaN else signedInf false p)
      else Fin (p / q)
  | Fin _, PInf | Fin _, NInf => Fin 0
  | PInf, Fin q => if Rltb q 0 then NInf else PInf
  | NInf, Fin q => if Rltb q 0 then PInf else NInf
  | _, _ => NaN
  end.

(** [Math.sqrt]. *)
Definition sqrt (a : number) : number :=
  match a with
  | Fin p => if Rltb p 0 then NaN else Fin (R_sqrt.sqrt p)
  | PInf => PInf
  | NInf => NaN
  | NaN => NaN
  end.

(** [a < b]: false as soon as one side is [NaN]. *)
Definition lt (a b : number) : bool :=
  match a, b with
  | Fin p, Fin q => Rltb p q
  | NaN, _ | _, NaN => false
  | _, NInf => false
  | NInf, _ => true
  | PInf, _ => false
  | _, PInf => true
  end.

(** [a > b]. *)
Definition gt (a b : number) : bool := lt b a.

(** [a <= b]. *)
Definition le (a b : number) : bool :=
  match a, b with
  | Fin p, Fin q => Rleb p q
  | NaN, _ | _, NaN => false
  | NInf, _ => true
  | _, PInf => true
  | _, _ => false
  end.

(** Truthiness of a number: [0] and [NaN] are falsy. *)
Definition truthy (a : number) : bool :=
  match a with
  | Fin p => negb (Reqb p 0)
  | NaN => false
  | _ => true
  end.

(** [a || b]. *)
Definition or (a b : number) : number := if truthy a then a else b.

(** [Math.max(a, b)] and [Math.min(a, b)]. *)
Definition max (a b : number) : number :=
  match a, b with
  | NaN, _ | _, NaN => NaN
  | _, _ => if lt a b then b else a
  end.

Definition min (a b : number) : number :=
  match a, b with
  | NaN, _ | _, NaN => NaN
  | _, _ => if lt b a then b else a
  end.

(** A loop counter used as a number. *)
Definition of_nat (n : nat) : number := Fin (INR n).

(** [a === b] on numbers: [NaN] equals nothing. *)
Definition eq (a b : number) : bool :=
  match a, b with
  | Fin p, Fin q => Reqb p q
  | PInf, PInf | NInf, NInf => true
  | _, _ => false
  end.

(** [Math.abs]. *)
Definition abs (a : number) : number :=
  match a with
  | Fin p => Fin (Rabs p)
  | PInf | NInf => PInf
  | NaN => NaN
  end.

End JS.

Declare Scope js_scope.
Delimit Scope js_scope with js.
Bind Scope js_scope with JS.number.
Notation "a + b" := (JS.add a b) : js_scope.
Notation "a - b" := (JS.sub a b) : js_scope.
Notation "a * b" := (JS.mul a b) : js_scope.
Notation "a / b" := (JS.div a b) : js_scope.
Notation "a <? b" := (JS.lt a b) : js_scope.
Notation "a >? b" := (JS.gt a b) : js_scope.
Notation "a || b" := (JS.or a b) : js_scope.
Notation "# r" := (JS.Fin r%R) (at level 1, r at level 0, format "# r") : js_scope.

(** ** [THREE.Vector3] *)

Module Vector3.
Import JS.
Local Open Scope js_scope.

Record t : Type := mk { x : number; y : number; z : number }.

(** [new THREE.Vector3()]. *)
Definition zero : t := mk #0 #0 #0.

Definition clone (v : t) : t := v.

Definition add (v w : t) : t := mk (x v + x w) (y v + y w) (z v + z w).

Definition sub (v w : t) : t := mk (x v - x w) (y v - y w) (z v - z w).

(** [new THREE.Vector3().subVectors(a, b)]. *)
Definition subVectors (a b : t) : t := mk (x a - x b) (y a - y b) (z a - z b).

Definition multiplyScalar (v : t) (s : number) : t :=
  mk (x v * s) (y v * s) (z v * s).

Definition divideScalar (v : t) (s : number) : t := multiplyScalar v (#1 / s).

Definition lengthSq (v : t) : number := x v * x v + y v * y v + z v * z v.

Definition length (v : t) : number :=
  JS.sqrt (x v * x v + y v * y v + z v * z v).

Definition normalize (v : t) : t := divideScalar v (length v || #1).

Definition setLength (v : t) (l : number) : t := multiplyScalar (normalize v) l.

Definition clampLength (v : t) (min max : number) : t :=
  let length := length v in
  multiplyScalar (divideScalar v (length || #1))
                 (JS.max min (JS.min max length)).

Definition distanceToSquared (v w : t) : number :=
  let dx := x v - x w in
  let dy := y v - y w in
  let dz := z v - z w in
  dx * dx + dy * dy + dz * dz.

Definition distanceTo (v w : t) : number := JS.sqrt (distanceToSquared v w).

Definition set_x (v : t) (a : number) : t := mk a (y v) (z v).
Definition set_y (v : t) (a : number) : t := mk (x v) a (z v).
Definition set_z (v : t) (a : number) : t := mk (x v) (y v) a.

(** [new THREE.Vector3().crossVectors(a, b)]. *)
Definition crossVectors (a b : t) : t :=
  let ax := x a in let ay := y a in let az := z a in
  let bx := x b in let by_ := y b in let bz := z b in
  mk (ay * bz - az * by_) (az * bx - ax * bz) (ax * by_ - ay * bx).

(** [v.lerp(w, alpha)]. *)
Definition lerp (v w : t) (alpha : number) : t :=
  mk (x v + (x w - x v) * alpha) (y v + (y w - y v) * alpha)
     (z v + (z w - z v) * alpha).

End Vector3.

(** ** [THREE.Matrix4]

    The first three rows of a 4 x 4 matrix, [nij] being the entry of row [i]
    and column [j] (three.js keeps it in [elements[4 * (j - 1) + (i - 1)]]).
    The methods below neither read nor need the fourth row. *)

Module Matrix4.
Import JS.
Local Open Scope js_scope.

Record t : Type := mk {
  n11 : number; n12 : number; n13 : number; n14 : number;
  n21 : number; n22 : number; n23 : number; n24 : number;
  n31 : number; n32 : number; n33 : number; n34 : number
}.

(** [new THREE.Matrix4()]. *)
Definition identity : t :=
  mk #1 #0 #0 #0
     #0 #1 #0 #0
     #0 #0 #1 #0.

(** [m.lookAt(eye, target, up)]: the rotation part of [m] becomes the basis
    [(x, y, z)] with [z] along [eye - target]. *)
Definition lookAt (this : t) (eye target up : Vector3.t) : t :=
  let _z := Vector3.subVectors eye target in
  let _z :=
    if JS.eq (Vector3.lengthSq _z) #0
    then Vector3.set_z _z #1 (* eye and target are in the same position *)
    else _z in
  let _z := Vector3.normalize _z in
  let _x := Vector3.crossVectors up _z in
  let xz :=
    if JS.eq (Vector3.lengthSq _x) #0 then
      (* up and z are parallel *)
      let _z :=
        if JS.eq (JS.abs (Vector3.z up)) #1
        then Vector3.set_x _z (Vector3.x _z + #0.0001)
        else Vector3.set_z _z (Vector3.z _z + #0.0001) in
      let _z := Vector3.normalize _z in
      (Vector3.crossVectors up _z, _z)
    else (_x, _z) in
  let _x := Vector3.normalize (fst xz) in
  let _z := snd xz in
  let _y := Vector3.crossVectors _z _x in
  mk (Vector3.x _x) (Vector3.x _y) (Vector3.x _z) (n14 this)
     (Vector3.y _x) (Vector3.y _y) (Vector3.y _z) (n24 this)
     (Vector3.z _x) (Vector3.z _y) (Vector3.z _z) (n34 this).

(** [new THREE.Matrix4().extractRotation(m)].  A release of three.js that
    guards this method against a matrix of determinant zero differs from the
    transcription on such matrices only. *)
Definition extractRotation (m : t) : t :=
  let scaleX := #1 / Vector3.length (Vector3.mk (n11 m) (n21 m) (n31 m)) in
  let scaleY := #1 / Vector3.length (Vector3.mk (n12 m) (n22 m) (n32 m)) in
  let scaleZ := #1 / Vector3.length (Vector3.mk (n13 m) (n23 m) (n33 m)) in
  mk (n11 m * scaleX) (n12 m * scaleY) (n13 m * scaleZ) #0
     (n21 m * scaleX) (n22 m * scaleY) (n23 m * scaleZ) #0
     (n31 m * scaleX) (n32 m * scaleY) (n33 m * scaleZ) #0.

End Matrix4.

(** ** [THREE.Quaternion] *)

Module Quaternion.
Import JS.
Local Open Scope js_scope.

Record t : Type := mk { x : number; y : number; z : number; w : number }.

(** [new THREE.Quaternion()]. *)
Definition identity : t := mk #0 #0 #0 #1.

(** [q.setFromRotationMatrix(m)]. *)
Definition setFromRotationMatrix (m : Matrix4.t) : t :=
  let m11 := Matrix4.n11 m in
  let m12 := Matrix4.n12 m in
  let m13 := Matrix4.n13 m in
  let m21 := Matrix4.n21 m in
  let m22 := Matrix4.n22 m in
  let m23 := Matrix4.n23 m in
  let m31 := Matrix4.n31 m in
  let m32 := Matrix4.n32 m in
  let m33 := Matrix4.n33 m in
  let trace := m11 + m22 + m33 in
  if trace >? #0 then
    let s := #0.5 / JS.sqrt (trace + #1) in
    mk ((m32 - m23) * s) ((m13 - m31) * s) ((m21 - m12) * s) (#0.25 / s)
  else if (m11 >? m22) && (m11 >? m33) then
    let s := #2 * JS.sqrt (#1 + m11 - m22 - m33) in
    mk (#0.25 * s) ((m12 + m21) / s) ((m13 + m31) / s) ((m32 - m23) / s)
  else if m22 >? m33 then
    let s := #2 * JS.sqrt (#1 + m22 - m11 - m33) in
    mk ((m12 + m21) / s) (#0.25 * s) ((m23 + m32) / s) ((m13 - m31) / s)
  else
    let s := #2 * JS.sqrt (#1 + m33 - m11 - m22) in
    mk ((m13 + m31) / s) ((m23 + m32) / s) (#0.25 * s) ((m21 - m12) / s).

(** [q.conjugate()], which is what [q.invert()] calls. *)
Definition conjugate (q : t) : t :=
  mk (x q * JS.neg #1) (y q * JS.neg #1) (z q * JS.neg #1) (w q).

Definition invert (q : t) : t := conjugate q.

(** [new THREE.Quaternion().multiplyQuaternions(a, b)]. *)
Definition multiplyQuaternions (a b : t) : t :=
  let qax := x a in let qay := y a in let qaz := z a in let qaw := w a in
  let qbx := x b in let qby := y b in let qbz := z b in let qbw := w b in
  mk (qax * qbw + qaw * qbx + qay * qbz - qaz * qby)
     (qay * qbw + qaw * qby + qaz * qbx - qax * qbz)
     (qaz * qbw + qaw * qbz + qax * qby - qay * qbx)
     (qaw * qbw - qax * qbx - qay * qby - qaz * qbz).

(** [this.premultiply(q)]. *)
Definition premultiply (this q : t) : t := multiplyQuaternions q this.

End Quaternion.

(** ** The mesh of a boid

    [THREE.Object3D] as far as [Boid] touches it: its position, its
    orientation [quaternion], its [up] vector and its parent, given by the
    parent's world matrix ([None] for an object without parent).  [target]
    keeps the point last handed to [lookAt]; three.js has no such field, it
    is a record of the call. *)

Module Object3D.
Import JS.
Local Open Scope js_scope.

Record t : Type := mk {
  position : Vector3.t;
  quaternion : Quaternion.t;
  up : Vector3.t;
  parent : option Matrix4.t;
  target : Vector3.t
}.

(** [Object3D.DEFAULT_UP]. *)
Definition DEFAULT_UP : Vector3.t := Vector3.mk #0 #1 #0.

(** [mesh.position.copy(p)]. *)
Definition position_copy (m : t) (p : Vector3.t) : t :=
  mk p (quaternion m) (up m) (parent m) (target m).

(** What [lookAt] reads after [this.updateWorldMatrix(true, false)] with
    [_position.setFromMatrixPosition(this.matrixWorld)]: the fourth column of
    the product of the parent's world matrix and the local matrix, whose
    fourth column is [(position, 1)]; the position itself without parent. *)
Definition worldPosition (m : t) : Vector3.t :=
  match parent m with
  | None => position m
  | Some a =>
      let b14 := Vector3.x (position m) in
      let b24 := Vector3.y (position m) in
      let b34 := Vector3.z (position m) in
      let b44 := #1 in
      Vector3.mk
        (Matrix4.n11 a * b14 + Matrix4.n12 a * b24 + Matrix4.n13 a * b34
         + Matrix4.n14 a * b44)
        (Matrix4.n21 a * b14 + Matrix4.n22 a * b24 + Matrix4.n23 a * b34
         + Matrix4.n24 a * b44)
        (Matrix4.n31 a * b14 + Matrix4.n32 a * b24 + Matrix4.n33 a * b34
         + Matrix4.n34 a * b44)
  end.

(** [mesh.lookAt(p)], for an object that is neither a camera nor a light. *)
Definition lookAt (m : t) (p : Vector3.t) : t :=
  let _target := p in
  let _position := worldPosition m in
  let _m1 := Matrix4.lookAt Matrix4.identity _target _position (up m) in
  let q := Quaternion.setFromRotationMatrix _m1 in
  let q :=
    match parent m with
    | Some a =>
        let _m1 := Matrix4.extractRotation a in
        let _q1 := Quaternion.setFromRotationMatrix _m1 in
        Quaternion.premultiply q (Quaternion.invert _q1)
    | None => q
    end in
  mk (position m) q (up m) (parent m) p.

End Object3D.

(** ** The simulation parameters of [main.js] *)

Module Params.

Record t : Type := mk {
  separation : JS.number;
  alignment : JS.number;
  cohesion : JS.number;
  separationRadius : JS.number;
  alignmentRadius : JS.number;
  cohesionRadius : JS.number
}.

(** The object [params] as [main.js] initialises it. *)
Definition initial : t :=
  mk (JS.Fin 2) (JS.Fin 1) (JS.Fin 1) (JS.Fin 30) (JS.Fin 50) (JS.Fin 50).

End Params.

(** ** [class Boid] *)

Module Boid.
Import JS.
Local Open Scope js_scope.

Record t : Type := mk {
  position : Vector3.t;
  velocity : Vector3.t;
  acceleration : Vector3.t;
  mesh : Object3D.t;
  maxForce : number;
  maxSpeed : number
}.

(** The seven results of [Math.random()] that one construction consumes, in
    the order the constructor draws them. *)
Record draws : Type := mkDraws {
  px : number; py : number; pz : number;
  vx : number; vy : number; vz : number;
  speed : number
}.

Definition constructor (mesh0 : Object3D.t) (r : draws) : t :=
  let position :=
    Vector3.mk (px r * #400 - #200) (py r * #50 + #50) (pz r * #400 - #200) in
  let velocity :=
    Vector3.mk (vx r * #2 - #1) (vy r * #2 - #1) (vz r * #2 - #1) in
  let velocity := Vector3.setLength velocity (speed r * #4 + #2) in
  mk position velocity Vector3.zero
     (Object3D.position_copy mesh0 position)
     #0.05 #4.

(** The test [d > 0 && d < radius] shared by the three rules. *)
Definition neighbour (d radius : number) : bool := (d >? #0) && (d <? radius).

(** Body of the loop of [separate]; the state is [(steer, count)]. *)
Definition separate_body (this : t) (radius : number)
    (st : Vector3.t * nat) (other : t) : Vector3.t * nat :=
  let '(steer, count) := st in
  let d := Vector3.distanceTo (position this) (position other) in
  if neighbour d radius then
    let diff := Vector3.subVectors (position this) (position other) in
    let diff := Vector3.normalize diff in
    let diff := Vector3.divideScalar diff d in
    (Vector3.add steer diff, S count)
  else (steer, count).

Definition separate (this : t) (boids : list t) (radius : number) : Vector3.t :=
  let '(steer, count) :=
    fold_left (separate_body this radius) boids (Vector3.zero, O) in
  let steer :=
    if (0 <? count)%nat then Vector3.divideScalar steer (of_nat count)
    else steer in
  if Vector3.lengthSq steer >? #0 then
    let steer := Vector3.setLength steer (maxSpeed this) in
    let steer := Vector3.sub steer (velocity this) in
    Vector3.clampLength steer #0 (maxForce this)
  else steer.

(** Body of the loop of [align]; the state is [(sum, count)]. *)
Definition align_body (this : t) (radius : number)
    (st : Vector3.t * nat) (other : t) : Vector3.t * nat :=
  let '(sum, count) := st in
  let d := Vector3.distanceTo (position this) (position other) in
  if neighbour d radius then (Vector3.add sum (velocity other), S count)
  else (sum, count).

Definition align (this : t) (boids : list t) (radius : number) : Vector3.t :=
  let '(sum, count) :=
    fold_left (align_body this radius) boids (Vector3.zero, O) in
  if (0 <? count)%nat then
    let sum := Vector3.divideScalar sum (of_nat count) in
    let sum := Vector3.setLength sum (maxSpeed this) in
    let steer := Vector3.sub sum (velocity this) in
    Vector3.clampLength steer #0 (maxForce this)
  else Vector3.zero.

Definition seek (this : t) (target : Vector3.t) : Vector3.t :=
  let desired := Vector3.subVectors target (position this) in
  let desired := Vector3.setLength desired (maxSpeed this) in
  let steer := Vector3.subVectors desired (velocity this) in
  Vector3.clampLength steer #0 (maxForce this).

(** Body of the loop of [cohere]; the state is [(sum, count)]. *)
Definition cohere_body (this : t) (radius : number)
    (st : Vector3.t * nat) (other : t) : Vector3.t * nat :=
  let '(sum, count) := st in
  let d := Vector3.distanceTo (position this) (position other) in
  if neighbour d radius then (Vector3.add sum (position other), S count)
  else (sum, count).

Definition cohere (this : t) (boids : list t) (radius : number) : Vector3.t :=
  let '(sum, count) :=
    fold_left (cohere_body this radius) boids (Vector3.zero, O) in
  if (0 <? count)%nat then
    let sum := Vector3.divideScalar sum (of_nat count) in
    seek this sum
  else Vector3.zero.

Definition set_acceleration (this : t) (a : Vector3.t) : t :=
  mk (position this) (velocity this) a (mesh this)
     (maxForce this) (maxSpeed this).

Definition set_mesh (this : t) (m : Object3D.t) : t :=
  mk (position this) (velocity this) (acceleration this) m
     (maxForce this) (maxSpeed this).

Definition flock (this : t) (boids : list t) (params : Params.t) : t :=
  let sep := separate this boids (Params.separationRadius params) in
  let ali := align this boids (Params.alignmentRadius params) in
  let coh := cohere this boids (Params.cohesionRadius params) in
  let sep := Vector3.multiplyScalar sep (Params.separation params) in
  let ali := Vector3.multiplyScalar ali (Params.alignment params) in
  let coh := Vector3.multiplyScalar coh (Params.cohesion params) in
  let acc := Vector3.add (acceleration this) sep in
  let acc := Vector3.add acc ali in
  let acc := Vector3.add acc coh in
  set_acceleration this acc.

Definition update (this : t) (delta : number) : t :=
  let v := Vector3.add (velocity this) (acceleration this) in
  let v := Vector3.clampLength v #0 (maxSpeed this) in
  let p :=
    Vector3.add (position this)
      (Vector3.multiplyScalar (Vector3.clone v) (delta * #10)) in
  let a := Vector3.multiplyScalar (acceleration this) #0 in
  mk p v a (mesh this) (maxForce this) (maxSpeed this).

(** [getGroundHeight] is the height oracle the caller passes in. *)
Definition wrapBounds (this : t) (bounds : number)
    (getGroundHeight : number -> number -> number) : t :=
  let minY :=
    getGroundHeight (Vector3.x (position this)) (Vector3.z (position this))
    + #10 in
  let a :=
    if Vector3.y (position this) <? minY
    then Vector3.set_y (acceleration this)
           (Vector3.y (acceleration this) + #0.8)
    else acceleration this in
  let p := position this in
  let p := if Vector3.x p >? bounds then Vector3.set_x p (neg bounds) else p in
  let p := if Vector3.x p <? neg bounds then Vector3.set_x p bounds else p in
  let p := if Vector3.y p >? bounds + #50 then Vector3.set_y p minY else p in
  let p := if Vector3.z p >? bounds then Vector3.set_z p (neg bounds) else p in
  let p := if Vector3.z p <? neg bounds then Vector3.set_z p bounds else p in
  mk p (velocity this) a (mesh this) (maxForce this) (maxSpeed this).

Definition updateMesh (this : t) : t :=
  let m := Object3D.position_copy (mesh this) (position this) in
  let m :=
    Object3D.lookAt m
      (Vector3.add (Vector3.clone (position this)) (velocity this)) in
  set_mesh this m.

End Boid.

(** ** The frame loop of [animate] in [main.js] *)

Module Main.
Import JS.

(** [const worldBounds = 300]. *)
Definition worldBounds : number := Fin 300.

(** What [animate] does to one boid; [boids] is the array as it stands when
    the boid's turn comes. *)
Definition step (boid : Boid.t) (boids : list Boid.t) (params : Params.t)
    (delta bounds : number) (getGroundHeight : number -> number -> number)
    : Boid.t :=
  let boid := Boid.flock boid boids params in
  let boid := Boid.update boid delta in
  let boid := Boid.wrapBounds boid bounds getGroundHeight in
  Boid.updateMesh boid.

(** [for (let boid of boids) { ... }]: the boids are objects mutated in
    place, so a boid's rules read the boids before it as already moved and
    itself and the boids after it as not yet moved.  [done] holds the boids
    already processed in this frame, [todo] the others. *)
Fixpoint animate_loop (done todo : list Boid.t) (params : Params.t)
    (delta bounds : number) (getGroundHeight : number -> number -> number)
    : list Boid.t :=
  match todo with
  | [] => done
  | boid :: rest =>
      let boid' :=
        step boid (done ++ boid :: rest) params delta bounds getGroundHeight in
      animate_loop (done ++ [boid']) rest params delta bounds getGroundHeight
  end.

Definition animate (boids : list Boid.t) (params : Params.t)
    (delta bounds : number) (getGroundHeight : number -> number -> number)
    : list Boid.t :=
  animate_loop [] boids params delta bounds getGroundHeight.

(** [requestAnimationFrame(animate)]: frame after frame, each with the
    parameters the GUI holds and the time the clock reports at that frame. *)
Definition run (frames : list (Params.t * number)) (bounds : number)
    (getGroundHeight : number -> number -> number) (boids : list Boid.t)
    : list Boid.t :=
  fold_left
    (fun boids frame =>
       animate boids (fst frame) (snd frame) bounds getGroundHeight)
    frames boids.

(** [downVector = new THREE.Vector3(0, -1, 0)]. *)
Definition downVector : Vector3.t := Vector3.mk (Fin 0) (Fin (-1)) (Fin 0).

(** [getGroundHeight(x, z)].  [terrainMesh] is [None] as long as [init] has
    not built the terrain.  [intersectObject origin direction terrain] stands
    for [raycaster.set(origin, direction)] followed by
    [raycaster.intersectObject(terrain, false)], and lists the [point] of each
    intersection, nearest first, as three.js does. *)
Definition getGroundHeight (T : Type) (terrainMesh : option T)
    (intersectObject : Vector3.t -> Vector3.t -> T -> list Vector3.t)
    (x z : number) : number :=
  match terrainMesh with
  | None => Fin 0
  | Some terrain =>
      let origin := Vector3.mk x (Fin 500) z in
      match intersectObject origin downVector terrain with
      | point :: _ => Vector3.y point
      | [] => Fin 0
      end
  end.

(** The height the loop of [createTerrain] gives the vertex at [(x, z)];
    [noise3D] is the noise function of [simplex-noise]. *)
Definition terrainHeight (noise3D : number -> number -> number -> number)
    (x z : number) : number :=
  let height := Fin 0 in
  let height :=
    add height (mul (noise3D (mul x (Fin 0.005)) (mul z (Fin 0.005)) (Fin 0))
                    (Fin 40)) in
  let height :=
    add height (mul (noise3D (mul x (Fin 0.015)) (mul z (Fin 0.015)) (Fin 0))
                    (Fin 10)) in
  let height :=
    add height (mul (noise3D (mul x (Fin 0.03)) (mul z (Fin 0.03)) (Fin 0))
                    (Fin 3)) in
  height.

(** The bird camera as [updateBirdCamera] uses it: its position, the point
    kept in [userData.lookAtTarget] ([None] while that field is undefined)
    and the point last handed to [lookAt]. *)
Record camera : Type := mkCamera {
  camera_position : Vector3.t;
  lookAtTarget : option Vector3.t;
  camera_target : Vector3.t
}.

(** The point behind and above the bird the camera heads for;
    [applyQuaternion] stands for [v.applyQuaternion(targetBoid.mesh.quaternion)]. *)
Definition desiredCamPos (applyQuaternion : Vector3.t -> Vector3.t)
    (targetBoid : Boid.t) : Vector3.t :=
  let offset := Vector3.mk (Fin 0) (Fin 3) (Fin (-10)) in
  let offset := applyQuaternion offset in
  Vector3.add (Vector3.clone (Boid.position targetBoid)) offset.

(** The point in front of the bird the camera looks at. *)
Definition lookAtPos (targetBoid : Boid.t) : Vector3.t :=
  Vector3.add (Vector3.clone (Boid.position targetBoid))
    (Vector3.multiplyScalar
       (Vector3.normalize (Vector3.clone (Boid.velocity targetBoid)))
       (Fin 10)).

Definition updateBirdCamera (applyQuaternion : Vector3.t -> Vector3.t)
    (targetBoid : Boid.t) (birdCamera : camera) (delta : number) : camera :=
  let desiredCamPos := desiredCamPos applyQuaternion targetBoid in
  let lookAtPos := lookAtPos targetBoid in
  let lerpFactor := mul delta (Fin 2) in
  let position :=
    Vector3.lerp (camera_position birdCamera) desiredCamPos lerpFactor in
  let tempLookAt :=
    match lookAtTarget birdCamera with
    | Some target => target
    | None => Vector3.clone lookAtPos
    end in
  let tempLookAt := Vector3.lerp tempLookAt lookAtPos lerpFactor in
  mkCamera position (Some tempLookAt) tempLookAt.

(** A tree of [createVegetation]: where its trunk and its leaves are put, and
    its scale. *)
Record tree : Type := mkTree {
  trunk : Vector3.t;
  leaves : Vector3.t;
  tree_scale : number
}.

(** The body of the loop of [createVegetation], for the three results of
    [Math.random()] it draws. *)
Definition plantTree (getGroundHeight : number -> number -> number)
    (r1 r2 r3 : number) : tree :=
  let x := sub (mul (mul r1 worldBounds) (Fin 2)) worldBounds in
  let z := sub (mul (mul r2 worldBounds) (Fin 2)) worldBounds in
  let scale := add (mul r3 (Fin 0.5)) (Fin 0.75) in
  let groundY := getGroundHeight x z in
  mkTree (Vector3.mk x (add groundY (mul (Fin 4) scale)) z)
         (Vector3.mk x (add groundY (mul (Fin 12) scale)) z)
         scale.

End Main.

(** ** Finite numbers and finite vectors *)

Module Finite.
Import JS.

Definition vector (v : Vector3.t) : bool :=
  isFinite (Vector3.x v) && isFinite (Vector3.y v) && isFinite (Vector3.z v).

(** The kinematic state and the two limits of a boid hold finite numbers. *)
Definition boid (b : Boid.t) : bool :=
  vector (Boid.position b) && vector (Boid.velocity b)
  && vector (Boid.acceleration b)
  && isFinite (Boid.maxForce b) && isFinite (Boid.maxSpeed b).

Definition mesh (m : Object3D.t) : bool :=
  vector (Object3D.position m) && vector (Object3D.target m).

Definition params (p : Params.t) : bool :=
  isFinite (Params.separation p) && isFinite (Params.alignment p)
  && isFinite (Params.cohesion p) && isFinite (Params.separationRadius p)
  && isFinite (Params.alignmentRadius p) && isFinite (Params.cohesionRadius p).

(** A height oracle that answers every finite query with a finite height. *)
Definition oracle (g : number -> number -> number) : Prop :=
  forall a b : R, isFinite (g (Fin a) (Fin b)) = true.

End Finite.

(** Euclidean norm of a triple of reals. *)
Definition norm3 (a b c : R) : R := sqrt (a * a + b * b + c * c).

(** The real that [l || 1] yields on a finite [l]. *)
Definition guard (l : R) : R := if Req_dec_T l 0 then 1 else l.

(** Every boid of a flock holds finite numbers. *)
Definition all_finite (boids : list Boid.t) : Prop :=
  Forall (fun b => Finite.boid b = true) boids.

(** ** The integrator as the specification words it

    Section 4.3: (1) [velocity += acceleration]; (2) clamp the magnitude of
    [velocity] to [maxSpeed]; (3) [position += velocity * deltaSeconds * 10];
    (4) reset [acceleration] to zero. *)

Module Spec.
Import JS.
Local Open Scope js_scope.

(** Clamping a magnitude: a vector no longer than [m] is kept, a longer one is
    rescaled to length [m]. *)
Definition clampMagnitude (v : Vector3.t) (m : number) : Vector3.t :=
  if JS.le (Vector3.length v) m then v
  else Vector3.multiplyScalar v (m / Vector3.length v).

Definition integrate (b : Boid.t) (deltaSeconds : number) : Boid.t :=
  let velocity := Vector3.add (Boid.velocity b) (Boid.acceleration b) in
  let velocity := clampMagnitude velocity (Boid.maxSpeed b) in
  let position :=
    Vector3.add (Boid.position b)
      (Vector3.multiplyScalar (Vector3.multiplyScalar velocity deltaSeconds)
         #10) in
  Boid.mk position velocity Vector3.zero (Boid.mesh b)
          (Boid.maxForce b) (Boid.maxSpeed b).

End Spec.

(** ** Sample data

    A flat terrain, and agents as the constructor leaves them apart from the
    random position and velocity, which are given. *)

Definition flat : JS.number -> JS.number -> JS.number :=
  fun _ _ => JS.Fin 0.

(** A mesh as [main.js] hands it to the constructor and then adds it to the
    scene, whose world matrix is the identity. *)
Definition blank_mesh : Object3D.t :=
  Object3D.mk Vector3.zero Quaternion.identity Object3D.DEFAULT_UP
              (Some Matrix4.identity) Vector3.zero.

(** A mesh with the default [up] vector that is a child of the scene. *)
Definition in_scene (m : Object3D.t) : Prop :=
  Object3D.up m = Object3D.DEFAULT_UP
  /\ Object3D.parent m = Some Matrix4.identity.

(** The four numbers of the quaternion are finite. *)
Definition finite_quaternion (q : Quaternion.t) : bool :=
  JS.isFinite (Quaternion.x q) && JS.isFinite (Quaternion.y q)
  && JS.isFinite (Quaternion.z q) && JS.isFinite (Quaternion.w q).

Definition agent (p v : Vector3.t) : Boid.t :=
  Boid.mk p v Vector3.zero blank_mesh (JS.Fin 0.05) (JS.Fin 4).

(** ** Random draws

    [Math.random()] returns a number of the half-open interval [0, 1). *)

Definition unit_interval (a : JS.number) : bool :=
  JS.le (JS.Fin 0) a && JS.lt a (JS.Fin 1).

Definition random (r : Boid.draws) : bool :=
  unit_interval (Boid.px r) && unit_interval (Boid.py r)
  && unit_interval (Boid.pz r) && unit_interval (Boid.vx r)
  && unit_interval (Boid.vy r) && unit_interval (Boid.vz r)
  && unit_interval (Boid.speed r).

(** The vector the constructor draws before it sets the length. *)
Definition direction (r : Boid.draws) : Vector3.t :=
  Vector3.mk (JS.sub (JS.mul (Boid.vx r) (JS.Fin 2)) (JS.Fin 1))
             (JS.sub (JS.mul (Boid.vy r) (JS.Fin 2)) (JS.Fin 1))
             (JS.sub (JS.mul (Boid.vz r) (JS.Fin 2)) (JS.Fin 1)).

(** The length the constructor asks [setLength] for. *)
Definition drawn_speed (r : Boid.draws) : JS.number :=
  JS.add (JS.mul (Boid.speed r) (JS.Fin 4)) (JS.Fin 2).

(** Draws for which the direction is the zero vector, and draws for which
    the speed is 5. *)
Definition draws_centre : Boid.draws :=
  Boid.mkDraws (JS.Fin 0.5) (JS.Fin 0.5) (JS.Fin 0.5)
               (JS.Fin 0.5) (JS.Fin 0.5) (JS.Fin 0.5) (JS.Fin 0.5).

Definition draws_fast : Boid.draws :=
  Boid.mkDraws (JS.Fin 0.5) (JS.Fin 0.5) (JS.Fin 0.5)
               (JS.Fin 0.75) (JS.Fin 0.5) (JS.Fin 0.5) (JS.Fin 0.75).

(** A boid is apart from another when the test of the rules rejects it. *)
Definition apart (this : Boid.t) (radius : JS.number) (other : Boid.t) : bool :=
  negb (Boid.neighbour
          (Vector3.distanceTo (Boid.position this) (Boid.position other))
          radius).

(** No component of the vector is [NaN]. *)
Definition no_NaN (v : Vector3.t) : bool :=
  negb (JS.isNaN (Vector3.x v)) && negb (JS.isNaN (Vector3.y v))
  && negb (JS.isNaN (Vector3.z v)).

(** A frame whose parameters and time are finite numbers. *)
Definition frame_finite (frame : Params.t * JS.number) : Prop :=
  Finite.params (fst frame) = true /\ JS.isFinite (snd frame) = true.

(** A vector of three finite numbers. *)
Abbreviation vec a b c := (Vector3.mk (JS.Fin a) (JS.Fin b) (JS.Fin c)).

(** Case analysis on a test that is not itself built from a conditional. *)
Ltac case_if :=
  match goal with
  | |- context [if ?c then _ else _] =>
      lazymatch c with
      | context [if _ then _ else _] => fail
      | _ => destruct c
      end
  end.

(** * Properties *)

Local Open Scope R_scope.

(** *** Reals *)

Lemma sumsq_nonneg (a b c : R) : 0 <= a * a + b * b + c * c.
Proof. nra. Qed.

Lemma norm3_nonneg (a b c : R) : 0 <= norm3 a b c.
Proof. apply sqrt_pos. Qed.

Lemma norm3_sq (a b c : R) : norm3 a b c * norm3 a b c = a * a + b * b + c * c.
Proof. apply sqrt_sqrt, sumsq_nonneg. Qed.

Lemma norm3_zero_inv (a b c : R) :
  norm3 a b c = 0 -> a = 0 /\ b = 0 /\ c = 0.
Proof.
  intros H. pose proof (norm3_sq a b c) as Hs. rewrite H in Hs.
  repeat split; nra.
Qed.

Lemma norm3_zero : norm3 0 0 0 = 0.
Proof.
  unfold norm3. replace (0 * 0 + 0 * 0 + 0 * 0) with 0 by ring. apply sqrt_0.
Qed.

Lemma norm3_scale (a b c k : R) :
  norm3 (a * k) (b * k) (c * k) = Rabs k * norm3 a b c.
Proof.
  unfold norm3.
  replace (a * k * (a * k) + b * k * (b * k) + c * k * (c * k))
    with (k * k * (a * a + b * b + c * c)) by ring.
  rewrite sqrt_mult_alt by nra.
  f_equal. replace (k * k) with (Rsqr k) by reflexivity. apply sqrt_Rsqr_abs.
Qed.

Lemma norm3_axis (d : R) : norm3 d 0 0 = Rabs d.
Proof.
  unfold norm3. replace (d * d + 0 * 0 + 0 * 0) with (Rsqr d).
  - apply sqrt_Rsqr_abs.
  - unfold Rsqr. ring.
Qed.

Lemma guard_nonzero (l : R) : guard l <> 0.
Proof. unfold guard. destruct (Req_dec_T l 0); lra. Qed.

Lemma guard_of_pos (l : R) : 0 < l -> guard l = l.
Proof. unfold guard. intros H. destruct (Req_dec_T l 0); lra. Qed.

Lemma Rltb_true (a b : R) : a < b -> JS.Rltb a b = true.
Proof. unfold JS.Rltb. intros H. destruct (Rlt_dec a b); [reflexivity | lra]. Qed.

Lemma Rltb_false (a b : R) : b <= a -> JS.Rltb a b = false.
Proof. unfold JS.Rltb. intros H. destruct (Rlt_dec a b); [lra | reflexivity]. Qed.

Lemma Rltb_true_inv (a b : R) : JS.Rltb a b = true -> a < b.
Proof. unfold JS.Rltb. destruct (Rlt_dec a b); [trivial | discriminate]. Qed.

Lemma Rltb_false_inv (a b : R) : JS.Rltb a b = false -> b <= a.
Proof. unfold JS.Rltb. destruct (Rlt_dec a b); [discriminate | lra]. Qed.

Lemma Rleb_true (a b : R) : a <= b -> JS.Rleb a b = true.
Proof. unfold JS.Rleb. intros H. destruct (Rle_dec a b); [reflexivity | lra]. Qed.

Lemma Rleb_true_inv (a b : R) : JS.Rleb a b = true -> a <= b.
Proof. unfold JS.Rleb. destruct (Rle_dec a b); [trivial | discriminate]. Qed.

Lemma Reqb_false (a b : R) : a <> b -> JS.Reqb a b = false.
Proof.
  unfold JS.Reqb. intros H. destruct (Req_dec_T a b); [contradiction | reflexivity].
Qed.

(** *** Numbers *)

Lemma isFinite_inv (a : JS.number) :
  JS.isFinite a = true -> exists r, a = JS.Fin r.
Proof. destruct a; try discriminate. intros _. eexists; reflexivity. Qed.

Lemma div_fin (p q : R) : q <> 0 -> JS.div (JS.Fin p) (JS.Fin q) = JS.Fin (p / q).
Proof. intros H. simpl. rewrite Reqb_false by assumption. reflexivity. Qed.

Lemma sqrt_fin (p : R) : 0 <= p -> JS.sqrt (JS.Fin p) = JS.Fin (sqrt p).
Proof. intros H. simpl. rewrite Rltb_false by assumption. reflexivity. Qed.

Lemma or_fin (l : R) : JS.or (JS.Fin l) (JS.Fin 1) = JS.Fin (guard l).
Proof.
  unfold JS.or, guard, JS.truthy, JS.Reqb.
  destruct (Req_dec_T l 0); reflexivity.
Qed.

Lemma max_fin (a b : R) : JS.max (JS.Fin a) (JS.Fin b) = JS.Fin (Rmax a b).
Proof.
  unfold JS.max, JS.lt, JS.Rltb, Rmax.
  destruct (Rlt_dec a b), (Rle_dec a b); try reflexivity; try lra; f_equal; lra.
Qed.

Lemma min_fin (a b : R) : JS.min (JS.Fin a) (JS.Fin b) = JS.Fin (Rmin a b).
Proof.
  unfold JS.min, JS.lt, JS.Rltb, Rmin.
  destruct (Rlt_dec b a), (Rle_dec a b); try reflexivity; try lra; f_equal; lra.
Qed.

Lemma INR_pos_nonzero (n : nat) : (0 < n)%nat -> INR n <> 0.
Proof. intros H. apply not_0_INR. lia. Qed.

(** *** Vectors *)

Lemma finite_vector_inv (v : Vector3.t) :
  Finite.vector v = true -> exists a b c, v = vec a b c.
Proof.
  destruct v as [[a| | |] [b| | |] [c| | |]]; try discriminate.
  intros _. exists a, b, c. reflexivity.
Qed.

Lemma finite_vec (a b c : R) : Finite.vector (vec a b c) = true.
Proof. reflexivity. Qed.

Lemma length_fin (a b c : R) :
  Vector3.length (vec a b c) = JS.Fin (norm3 a b c).
Proof. unfold Vector3.length. cbn [Vector3.x Vector3.y Vector3.z JS.mul JS.add].
  apply sqrt_fin, sumsq_nonneg. Qed.

Lemma lengthSq_fin (a b c : R) :
  Vector3.lengthSq (vec a b c) = JS.Fin (a * a + b * b + c * c).
Proof. reflexivity. Qed.

Lemma distanceTo_fin (a b c a' b' c' : R) :
  Vector3.distanceTo (vec a b c) (vec a' b' c')
  = JS.Fin (norm3 (a - a') (b - b') (c - c')).
Proof.
  unfold Vector3.distanceTo, Vector3.distanceToSquared.
  cbn [Vector3.x Vector3.y Vector3.z JS.mul JS.add JS.sub JS.neg].
  apply sqrt_fin, sumsq_nonneg.
Qed.

Lemma subVectors_fin (a b c a' b' c' : R) :
  Vector3.subVectors (vec a b c) (vec a' b' c')
  = vec (a - a') (b - b') (c - c').
Proof. reflexivity. Qed.

Lemma sub_fin (a b c a' b' c' : R) :
  Vector3.sub (vec a b c) (vec a' b' c') = vec (a - a') (b - b') (c - c').
Proof. reflexivity. Qed.

Lemma add_fin (a b c a' b' c' : R) :
  Vector3.add (vec a b c) (vec a' b' c') = vec (a + a') (b + b') (c + c').
Proof. reflexivity. Qed.

Lemma multiplyScalar_fin (a b c s : R) :
  Vector3.multiplyScalar (vec a b c) (JS.Fin s) = vec (a * s) (b * s) (c * s).
Proof. reflexivity. Qed.

Lemma divideScalar_fin (a b c s : R) :
  s <> 0 ->
  Vector3.divideScalar (vec a b c) (JS.Fin s)
  = vec (a * (1 / s)) (b * (1 / s)) (c * (1 / s)).
Proof.
  intros H. unfold Vector3.divideScalar. rewrite div_fin by assumption.
  reflexivity.
Qed.

Lemma normalize_fin (a b c : R) :
  Vector3.normalize (vec a b c)
  = vec (a * (1 / guard (norm3 a b c))) (b * (1 / guard (norm3 a b c)))
        (c * (1 / guard (norm3 a b c))).
Proof.
  unfold Vector3.normalize. rewrite length_fin, or_fin.
  apply divideScalar_fin, guard_nonzero.
Qed.

Lemma setLength_fin (a b c l : R) :
  Vector3.setLength (vec a b c) (JS.Fin l)
  = vec (a * (1 / guard (norm3 a b c)) * l) (b * (1 / guard (norm3 a b c)) * l)
        (c * (1 / guard (norm3 a b c)) * l).
Proof. unfold Vector3.setLength. rewrite normalize_fin. reflexivity. Qed.

Lemma clampLength_fin (a b c m : R) :
  Vector3.clampLength (vec a b c) (JS.Fin 0) (JS.Fin m)
  = vec (a * (1 / guard (norm3 a b c)) * Rmax 0 (Rmin m (norm3 a b c)))
        (b * (1 / guard (norm3 a b c)) * Rmax 0 (Rmin m (norm3 a b c)))
        (c * (1 / guard (norm3 a b c)) * Rmax 0 (Rmin m (norm3 a b c))).
Proof.
  unfold Vector3.clampLength. rewrite length_fin, or_fin, min_fin, max_fin.
  rewrite divideScalar_fin by apply guard_nonzero. reflexivity.
Qed.

(** The norm of [v / (|v| || 1) * f] is [f] unless [v] is the zero vector. *)
Lemma norm3_rescaled (a b c f : R) :
  0 <= f ->
  norm3 (a * (1 / guard (norm3 a b c)) * f) (b * (1 / guard (norm3 a b c)) * f)
        (c * (1 / guard (norm3 a b c)) * f)
  = if Req_dec_T (norm3 a b c) 0 then 0 else f.
Proof.
  intros Hf. rewrite 2!norm3_scale.
  pose proof (norm3_nonneg a b c) as Hn.
  destruct (Req_dec_T (norm3 a b c) 0) as [E | E].
  - rewrite E. ring.
  - rewrite guard_of_pos by lra.
    rewrite (Rabs_pos_eq f) by assumption.
    rewrite Rabs_pos_eq.
    + field. assumption.
    + apply Rlt_le. unfold Rdiv. rewrite Rmult_1_l. apply Rinv_0_lt_compat. lra.
Qed.

Lemma clampLength_length (a b c m : R) :
  Vector3.length (Vector3.clampLength (vec a b c) (JS.Fin 0) (JS.Fin m))
  = JS.Fin (Rmax 0 (Rmin m (norm3 a b c))).
Proof.
  rewrite clampLength_fin, length_fin. f_equal.
  rewrite norm3_rescaled by apply Rmax_l.
  pose proof (norm3_nonneg a b c) as Hn.
  destruct (Req_dec_T (norm3 a b c) 0) as [E | E]; [| reflexivity].
  rewrite E. unfold Rmax, Rmin.
  destruct (Rle_dec m 0); destruct (Rle_dec 0 _); lra.
Qed.

Lemma setLength_length (a b c l : R) :
  0 <= l ->
  Vector3.length (Vector3.setLength (vec a b c) (JS.Fin l))
  = JS.Fin (if Req_dec_T (norm3 a b c) 0 then 0 else l).
Proof.
  intros Hl. rewrite setLength_fin, length_fin. f_equal.
  apply norm3_rescaled. assumption.
Qed.

(** A finite vector of norm zero is [new THREE.Vector3()]. *)
Lemma norm3_zero_vec (a b c : R) : norm3 a b c = 0 -> vec a b c = Vector3.zero.
Proof.
  intros H. apply norm3_zero_inv in H. destruct H as (-> & -> & ->).
  reflexivity.
Qed.

(** *** Closure of the finite vectors under the [Vector3] methods *)

Lemma add_finite (v w : Vector3.t) :
  Finite.vector v = true -> Finite.vector w = true ->
  Finite.vector (Vector3.add v w) = true.
Proof.
  intros Hv Hw. apply finite_vector_inv in Hv, Hw.
  destruct Hv as (a & b & c & ->), Hw as (a' & b' & c' & ->). reflexivity.
Qed.

Lemma sub_finite (v w : Vector3.t) :
  Finite.vector v = true -> Finite.vector w = true ->
  Finite.vector (Vector3.sub v w) = true.
Proof.
  intros Hv Hw. apply finite_vector_inv in Hv, Hw.
  destruct Hv as (a & b & c & ->), Hw as (a' & b' & c' & ->). reflexivity.
Qed.

Lemma subVectors_finite (v w : Vector3.t) :
  Finite.vector v = true -> Finite.vector w = true ->
  Finite.vector (Vector3.subVectors v w) = true.
Proof. exact (sub_finite v w). Qed.

Lemma multiplyScalar_finite (v : Vector3.t) (s : JS.number) :
  Finite.vector v = true -> JS.isFinite s = true ->
  Finite.vector (Vector3.multiplyScalar v s) = true.
Proof.
  intros Hv Hs. apply finite_vector_inv in Hv. apply isFinite_inv in Hs.
  destruct Hv as (a & b & c & ->), Hs as (r & ->). reflexivity.
Qed.

Lemma divideScalar_finite (v : Vector3.t) (s : R) :
  Finite.vector v = true -> s <> 0 ->
  Finite.vector (Vector3.divideScalar v (JS.Fin s)) = true.
Proof.
  intros Hv Hs. apply finite_vector_inv in Hv. destruct Hv as (a & b & c & ->).
  rewrite divideScalar_fin by assumption. reflexivity.
Qed.

Lemma normalize_finite (v : Vector3.t) :
  Finite.vector v = true -> Finite.vector (Vector3.normalize v) = true.
Proof.
  intros Hv. apply finite_vector_inv in Hv. destruct Hv as (a & b & c & ->).
  rewrite normalize_fin. reflexivity.
Qed.

Lemma setLength_finite (v : Vector3.t) (l : JS.number) :
  Finite.vector v = true -> JS.isFinite l = true ->
  Finite.vector (Vector3.setLength v l) = true.
Proof.
  intros Hv Hl. unfold Vector3.setLength.
  apply multiplyScalar_finite; [apply normalize_finite |]; assumption.
Qed.

Lemma clampLength_finite (v : Vector3.t) (m : JS.number) :
  Finite.vector v = true -> JS.isFinite m = true ->
  Finite.vector (Vector3.clampLength v (JS.Fin 0) m) = true.
Proof.
  intros Hv Hm. apply finite_vector_inv in Hv. apply isFinite_inv in Hm.
  destruct Hv as (a & b & c & ->), Hm as (r & ->).
  rewrite clampLength_fin. reflexivity.
Qed.

Lemma distanceTo_finite (v w : Vector3.t) :
  Finite.vector v = true -> Finite.vector w = true ->
  exists d, Vector3.distanceTo v w = JS.Fin d /\ 0 <= d.
Proof.
  intros Hv Hw. apply finite_vector_inv in Hv, Hw.
  destruct Hv as (a & b & c & ->), Hw as (a' & b' & c' & ->).
  rewrite distanceTo_fin. eexists; split; [reflexivity | apply norm3_nonneg].
Qed.

(** *** Boids *)

Lemma finite_boid_inv (b : Boid.t) :
  Finite.boid b = true ->
  Finite.vector (Boid.position b) = true
  /\ Finite.vector (Boid.velocity b) = true
  /\ Finite.vector (Boid.acceleration b) = true
  /\ JS.isFinite (Boid.maxForce b) = true
  /\ JS.isFinite (Boid.maxSpeed b) = true.
Proof.
  unfold Finite.boid. intros H.
  apply andb_prop in H. destruct H as [H H5].
  apply andb_prop in H. destruct H as [H H4].
  apply andb_prop in H. destruct H as [H H3].
  apply andb_prop in H. destruct H as [H1 H2].
  repeat split; assumption.
Qed.

Lemma finite_boid_intro (b : Boid.t) :
  Finite.vector (Boid.position b) = true ->
  Finite.vector (Boid.velocity b) = true ->
  Finite.vector (Boid.acceleration b) = true ->
  JS.isFinite (Boid.maxForce b) = true ->
  JS.isFinite (Boid.maxSpeed b) = true ->
  Finite.boid b = true.
Proof.
  unfold Finite.boid. intros -> -> -> -> ->. reflexivity.
Qed.

(** A [for ... of] loop keeps an invariant of its state. *)
Lemma fold_left_invariant (A B : Type) (P : A -> Prop) (Q : B -> Prop)
    (f : A -> B -> A) (l : list B) (a : A) :
  (forall s o, P s -> Q o -> P (f s o)) ->
  Forall Q l -> P a -> P (fold_left f l a).
Proof.
  intros Hf Hl. revert a. induction Hl as [| o l Ho Hl IH]; intros a Ha.
  - exact Ha.
  - simpl. apply IH, Hf; assumption.
Qed.

(** A loop whose body leaves the state alone on every element returns its
    initial state. *)
Lemma fold_left_skip (A B : Type) (f : A -> B -> A) (l : list B) (a : A) :
  Forall (fun o => forall s, f s o = s) l -> fold_left f l a = a.
Proof.
  intros Hl. revert a. induction Hl as [| o l Ho Hl IH]; intros a.
  - reflexivity.
  - simpl. rewrite Ho. apply IH.
Qed.

Lemma neighbour_pos (d : R) (radius : JS.number) :
  Boid.neighbour (JS.Fin d) radius = true -> 0 < d.
Proof.
  unfold Boid.neighbour. intros H. apply andb_prop in H. destruct H as [H _].
  apply Rltb_true_inv. exact H.
Qed.

Lemma separate_body_finite (this : Boid.t) (radius : JS.number)
    (st : Vector3.t * nat) (other : Boid.t) :
  Finite.vector (Boid.position this) = true ->
  Finite.vector (fst st) = true ->
  Finite.boid other = true ->
  Finite.vector (fst (Boid.separate_body this radius st other)) = true.
Proof.
  intros Hp Hs Ho. destruct st as [steer count].
  apply finite_boid_inv in Ho. destruct Ho as (Hq & _).
  unfold Boid.separate_body.
  destruct (distanceTo_finite _ _ Hp Hq) as (d & -> & Hd).
  destruct (Boid.neighbour (JS.Fin d) radius) eqn:E; [| exact Hs].
  apply neighbour_pos in E. simpl fst.
  apply add_finite; [exact Hs |].
  apply divideScalar_finite; [| lra].
  apply normalize_finite, subVectors_finite; assumption.
Qed.

Lemma align_body_finite (this : Boid.t) (radius : JS.number)
    (st : Vector3.t * nat) (other : Boid.t) :
  Finite.vector (fst st) = true ->
  Finite.boid other = true ->
  Finite.vector (fst (Boid.align_body this radius st other)) = true.
Proof.
  intros Hs Ho. destruct st as [sum count].
  apply finite_boid_inv in Ho. destruct Ho as (_ & Hv & _).
  unfold Boid.align_body.
  destruct (Boid.neighbour _ radius); [| exact Hs].
  simpl fst. apply add_finite; assumption.
Qed.

Lemma cohere_body_finite (this : Boid.t) (radius : JS.number)
    (st : Vector3.t * nat) (other : Boid.t) :
  Finite.vector (fst st) = true ->
  Finite.boid other = true ->
  Finite.vector (fst (Boid.cohere_body this radius st other)) = true.
Proof.
  intros Hs Ho. destruct st as [sum count].
  apply finite_boid_inv in Ho. destruct Ho as (Hq & _).
  unfold Boid.cohere_body.
  destruct (Boid.neighbour _ radius); [| exact Hs].
  simpl fst. apply add_finite; assumption.
Qed.

Lemma seek_finite (this : Boid.t) (target : Vector3.t) :
  Finite.boid this = true -> Finite.vector target = true ->
  Finite.vector (Boid.seek this target) = true.
Proof.
  intros Hb Ht. apply finite_boid_inv in Hb.
  destruct Hb as (Hp & Hv & _ & Hf & Hs). unfold Boid.seek.
  apply clampLength_finite; [| assumption].
  apply subVectors_finite; [| assumption].
  apply setLength_finite; [| assumption].
  apply subVectors_finite; assumption.
Qed.

Lemma separate_finite (this : Boid.t) (boids : list Boid.t) (radius : JS.number) :
  Finite.boid this = true -> all_finite boids ->
  Finite.vector (Boid.separate this boids radius) = true.
Proof.
  intros Hb Hl. pose proof (finite_boid_inv _ Hb) as (Hp & Hv & _ & Hf & Hs).
  unfold Boid.separate.
  pose proof (@fold_left_invariant _ _
    (fun st => Finite.vector (fst st) = true) _
    (Boid.separate_body this radius) boids (Vector3.zero, O)
    (fun s o Hs' Ho => separate_body_finite this radius s o Hp Hs' Ho)
    Hl eq_refl) as Hfold.
  destruct (fold_left _ boids _) as [steer count]. simpl in Hfold.
  assert (Hsteer : Finite.vector
    (if (0 <? count)%nat then Vector3.divideScalar steer (JS.of_nat count)
     else steer) = true).
  { destruct (Nat.ltb_spec 0 count) as [Hc | Hc]; [| exact Hfold].
    apply divideScalar_finite; [exact Hfold | apply INR_pos_nonzero, Hc]. }
  destruct (JS.gt _ _); [| exact Hsteer].
  apply clampLength_finite; [| assumption].
  apply sub_finite; [| assumption].
  apply setLength_finite; assumption.
Qed.

Lemma align_finite (this : Boid.t) (boids : list Boid.t) (radius : JS.number) :
  Finite.boid this = true -> all_finite boids ->
  Finite.vector (Boid.align this boids radius) = true.
Proof.
  intros Hb Hl. pose proof (finite_boid_inv _ Hb) as (Hp & Hv & _ & Hf & Hs).
  unfold Boid.align.
  pose proof (@fold_left_invariant _ _
    (fun st => Finite.vector (fst st) = true) _
    (Boid.align_body this radius) boids (Vector3.zero, O)
    (fun s o Hs' Ho => align_body_finite this radius s o Hs' Ho)
    Hl eq_refl) as Hfold.
  destruct (fold_left _ boids _) as [sum count]. simpl in Hfold.
  destruct (Nat.ltb_spec 0 count) as [Hc | Hc]; [| reflexivity].
  apply clampLength_finite; [| assumption].
  apply sub_finite; [| assumption].
  apply setLength_finite; [| assumption].
  apply divideScalar_finite; [exact Hfold | apply INR_pos_nonzero, Hc].
Qed.

Lemma cohere_finite (this : Boid.t) (boids : list Boid.t) (radius : JS.number) :
  Finite.boid this = true -> all_finite boids ->
  Finite.vector (Boid.cohere this boids radius) = true.
Proof.
  intros Hb Hl. unfold Boid.cohere.
  pose proof (@fold_left_invariant _ _
    (fun st => Finite.vector (fst st) = true) _
    (Boid.cohere_body this radius) boids (Vector3.zero, O)
    (fun s o Hs' Ho => cohere_body_finite this radius s o Hs' Ho)
    Hl eq_refl) as Hfold.
  destruct (fold_left _ boids _) as [sum count]. simpl in Hfold.
  destruct (Nat.ltb_spec 0 count) as [Hc | Hc]; [| reflexivity].
  apply seek_finite; [assumption |].
  apply divideScalar_finite; [exact Hfold | apply INR_pos_nonzero, Hc].
Qed.

Lemma finite_boid_shape (b : Boid.t) :
  Finite.boid b = true ->
  exists m p1 p2 p3 v1 v2 v3 a1 a2 a3 mf ms,
    b = Boid.mk (vec p1 p2 p3) (vec v1 v2 v3) (vec a1 a2 a3) m
                (JS.Fin mf) (JS.Fin ms).
Proof.
  intros H. apply finite_boid_inv in H. destruct H as (Hp & Hv & Ha & Hf & Hs).
  destruct b as [p v a m mf ms]. simpl in *.
  apply finite_vector_inv in Hp, Hv, Ha. apply isFinite_inv in Hf, Hs.
  destruct Hp as (p1 & p2 & p3 & ->), Hv as (v1 & v2 & v3 & ->),
    Ha as (a1 & a2 & a3 & ->), Hf as (f & ->), Hs as (s & ->).
  exists m, p1, p2, p3, v1, v2, v3, a1, a2, a3, f, s. reflexivity.
Qed.

Lemma finite_params_inv (p : Params.t) :
  Finite.params p = true ->
  JS.isFinite (Params.separation p) = true
  /\ JS.isFinite (Params.alignment p) = true
  /\ JS.isFinite (Params.cohesion p) = true.
Proof.
  unfold Finite.params. intros H.
  apply andb_prop in H. destruct H as [H _].
  apply andb_prop in H. destruct H as [H _].
  apply andb_prop in H. destruct H as [H _].
  apply andb_prop in H. destruct H as [H H3].
  apply andb_prop in H. destruct H as [H1 H2].
  repeat split; assumption.
Qed.

Lemma flock_finite (this : Boid.t) (boids : list Boid.t) (params : Params.t) :
  Finite.boid this = true -> all_finite boids -> Finite.params params = true ->
  Finite.boid (Boid.flock this boids params) = true.
Proof.
  intros Hb Hl Hp. pose proof (finite_boid_inv _ Hb) as (Hpos & Hv & Ha & Hf & Hs).
  apply finite_params_inv in Hp. destruct Hp as (Hws & Hwa & Hwc).
  apply finite_boid_intro; simpl; try assumption.
  repeat apply add_finite; try assumption; apply multiplyScalar_finite;
    try assumption.
  - apply separate_finite; assumption.
  - apply align_finite; assumption.
  - apply cohere_finite; assumption.
Qed.

Lemma update_finite (this : Boid.t) (delta : JS.number) :
  Finite.boid this = true -> JS.isFinite delta = true ->
  Finite.boid (Boid.update this delta) = true.
Proof.
  intros Hb Hd. apply finite_boid_shape in Hb.
  destruct Hb as (m & p1 & p2 & p3 & v1 & v2 & v3 & a1 & a2 & a3 & mf & ms & ->).
  apply isFinite_inv in Hd. destruct Hd as (d & ->).
  unfold Boid.update. cbn [Boid.position Boid.velocity Boid.acceleration
    Boid.maxSpeed Boid.maxForce Boid.mesh].
  rewrite add_fin, clampLength_fin. reflexivity.
Qed.

Lemma wrapBounds_finite (this : Boid.t) (bounds : JS.number)
    (g : JS.number -> JS.number -> JS.number) :
  Finite.boid this = true -> JS.isFinite bounds = true -> Finite.oracle g ->
  Finite.boid (Boid.wrapBounds this bounds g) = true.
Proof.
  intros Hb Hw Hg. apply finite_boid_shape in Hb.
  destruct Hb as (m & p1 & p2 & p3 & v1 & v2 & v3 & a1 & a2 & a3 & mf & ms & ->).
  apply isFinite_inv in Hw. destruct Hw as (w & ->).
  unfold Boid.wrapBounds. cbn [Boid.position Boid.velocity Boid.acceleration
    Boid.maxSpeed Boid.maxForce Boid.mesh Vector3.x Vector3.y Vector3.z].
  destruct (isFinite_inv _ (Hg p1 p3)) as (h & ->).
  cbn [JS.add JS.neg].
  repeat match goal with
  | |- context [if ?c then _ else _] => destruct c
  end; reflexivity.
Qed.

Lemma updateMesh_finite (this : Boid.t) :
  Finite.boid this = true ->
  Finite.boid (Boid.updateMesh this) = true
  /\ Finite.mesh (Boid.mesh (Boid.updateMesh this)) = true.
Proof.
  intros Hb. apply finite_boid_shape in Hb.
  destruct Hb as (m & p1 & p2 & p3 & v1 & v2 & v3 & a1 & a2 & a3 & mf & ms & ->).
  split; reflexivity.
Qed.

Lemma step_finite (boid : Boid.t) (boids : list Boid.t) (params : Params.t)
    (delta bounds : JS.number) (g : JS.number -> JS.number -> JS.number) :
  Finite.boid boid = true -> all_finite boids -> Finite.params params = true ->
  JS.isFinite delta = true -> JS.isFinite bounds = true -> Finite.oracle g ->
  Finite.boid (Main.step boid boids params delta bounds g) = true
  /\ Finite.mesh (Boid.mesh (Main.step boid boids params delta bounds g)) = true.
Proof.
  intros Hb Hl Hp Hd Hw Hg. unfold Main.step.
  apply updateMesh_finite, wrapBounds_finite; try assumption.
  apply update_finite; try assumption.
  apply flock_finite; assumption.
Qed.

Lemma animate_loop_finite (done todo : list Boid.t) (params : Params.t)
    (delta bounds : JS.number) (g : JS.number -> JS.number -> JS.number) :
  all_finite done -> all_finite todo -> Finite.params params = true ->
  JS.isFinite delta = true -> JS.isFinite bounds = true -> Finite.oracle g ->
  all_finite (Main.animate_loop done todo params delta bounds g).
Proof.
  intros Hdone Htodo Hp Hd Hw Hg. revert done Hdone.
  induction todo as [| boid rest IH]; intros done Hdone; simpl.
  - exact Hdone.
  - pose proof (Forall_inv Htodo) as Hb. pose proof (Forall_inv_tail Htodo) as Hr.
    apply IH; [exact Hr |]. apply Forall_app. split; [exact Hdone |].
    constructor; [| constructor].
    apply step_finite; try assumption.
    apply Forall_app. split; assumption.
Qed.

(** ** The length clamp *)

(** [clampLength(0, m)] leaves a vector no longer than [m], for [m >= 0]. *)
Lemma clampLength_le (v : Vector3.t) (m : R) :
  Finite.vector v = true -> 0 <= m ->
  JS.le (Vector3.length (Vector3.clampLength v (JS.Fin 0) (JS.Fin m)))
        (JS.Fin m) = true.
Proof.
  intros Hv Hm. apply finite_vector_inv in Hv. destruct Hv as (a & b & c & ->).
  rewrite clampLength_length. apply Rleb_true.
  apply Rmax_lub; [assumption | apply Rmin_l].
Qed.

(** Whatever the sign of [m], what [clampLength(0, m)] returns is the zero
    vector or no longer than [m]. *)
Lemma clampLength_zero_or_le (v : Vector3.t) (m : R) :
  Finite.vector v = true ->
  Vector3.clampLength v (JS.Fin 0) (JS.Fin m) = Vector3.zero
  \/ JS.le (Vector3.length (Vector3.clampLength v (JS.Fin 0) (JS.Fin m)))
           (JS.Fin m) = true.
Proof.
  intros Hv. destruct (Rle_dec 0 m) as [Hm | Hm].
  - right. apply clampLength_le; assumption.
  - left. apply finite_vector_inv in Hv. destruct Hv as (a & b & c & ->).
    rewrite clampLength_fin.
    replace (Rmax 0 (Rmin m (norm3 a b c))) with 0.
    + unfold Vector3.zero. f_equal; f_equal; ring.
    + symmetry. apply Rmax_left. pose proof (Rmin_l m (norm3 a b c)). lra.
Qed.

(** ** Velocity after one step of a boid *)

(** The integrator alone: after [update] the speed is at most [maxSpeed]. *)
Lemma update_speed_le (this : Boid.t) (delta : JS.number) :
  Finite.boid this = true ->
  JS.le (JS.Fin 0) (Boid.maxSpeed this) = true ->
  JS.le (Vector3.length (Boid.velocity (Boid.update this delta)))
        (Boid.maxSpeed this) = true.
Proof.
  intros Hb Hs. apply finite_boid_inv in Hb.
  destruct Hb as (_ & Hv & Ha & _ & Hms).
  apply isFinite_inv in Hms. destruct Hms as (ms & Ems).
  unfold Boid.update. cbn [Boid.velocity]. rewrite Ems in *.
  apply Rleb_true_inv in Hs.
  apply clampLength_le; [| assumption]. apply add_finite; assumption.
Qed.

(** C1.  Speed bound: a boid with finite state and a non-negative [maxSpeed]
    (the constructor sets 4.0), stepped once by the frame loop ([flock], then
    [update], then [wrapBounds], then [updateMesh]) against a flock and
    parameters holding finite numbers, leaves the step with
    [velocity.length() <= maxSpeed]. *)
Theorem speed_bound_after_step
    (boid : Boid.t) (boids : list Boid.t) (params : Params.t)
    (delta bounds : JS.number) (g : JS.number -> JS.number -> JS.number) :
  Finite.boid boid = true -> all_finite boids -> Finite.params params = true ->
  JS.le (JS.Fin 0) (Boid.maxSpeed boid) = true ->
  let boid' := Main.step boid boids params delta bounds g in
  JS.le (Vector3.length (Boid.velocity boid')) (Boid.maxSpeed boid') = true.
Proof.
  intros Hb Hl Hp Hs boid'. subst boid'.
  (* neither the boundary policy nor the mesh update writes to the velocity
     or to the limit *)
  change (Boid.velocity (Main.step boid boids params delta bounds g))
    with (Boid.velocity (Boid.update (Boid.flock boid boids params) delta)).
  change (Boid.maxSpeed (Main.step boid boids params delta bounds g))
    with (Boid.maxSpeed (Boid.flock boid boids params)).
  (* the flock leaves a finite acceleration, which the integrator clamps *)
  apply update_speed_le.
  - apply flock_finite; assumption.
  - exact Hs.
Qed.

(** *** The whole frame *)

Section Frame.

Variable params : Params.t.
Variables delta bounds : JS.number.
Variable g : JS.number -> JS.number -> JS.number.
Hypothesis params_finite : Finite.params params = true.
Hypothesis delta_finite : JS.isFinite delta = true.
Hypothesis bounds_finite : JS.isFinite bounds = true.
Hypothesis g_finite : Finite.oracle g.

(** What every single step establishes for its boid, whatever the flock looks
    like at that moment, holds of every boid when the loop is over: a boid is
    not written to after its own turn. *)
Lemma animate_loop_post (P Q : Boid.t -> Prop) :
  (forall b l, Finite.boid b = true -> Q b -> all_finite l ->
     P (Main.step b l params delta bounds g)) ->
  forall done todo, all_finite done -> all_finite todo ->
    Forall Q todo -> Forall P done ->
    Forall P (Main.animate_loop done todo params delta bounds g).
Proof.
  intros Hstep done todo. revert done.
  induction todo as [| boid rest IH]; intros done Hfd Hft HQ HP; simpl.
  - exact HP.
  - pose proof (Forall_inv Hft) as Hb. pose proof (Forall_inv_tail Hft) as Hr.
    assert (Hall : all_finite (done ++ boid :: rest))
      by (apply Forall_app; split; assumption).
    apply IH.
    + apply Forall_app. split; [exact Hfd |]. constructor; [| constructor].
      apply step_finite; assumption.
    + exact Hr.
    + exact (Forall_inv_tail HQ).
    + apply Forall_app. split; [exact HP |]. constructor; [| constructor].
      apply Hstep; [exact Hb | exact (Forall_inv HQ) | exact Hall].
Qed.

(** After a frame every boid respects its speed limit. *)
Lemma speed_bound_after_frame (boids : list Boid.t) :
  all_finite boids ->
  Forall (fun b => JS.le (JS.Fin 0) (Boid.maxSpeed b) = true) boids ->
  Forall (fun b => JS.le (Vector3.length (Boid.velocity b)) (Boid.maxSpeed b)
                   = true)
         (Main.animate boids params delta bounds g).
Proof.
  intros Hf Hs. unfold Main.animate.
  apply animate_loop_post
    with (Q := fun b => JS.le (JS.Fin 0) (Boid.maxSpeed b) = true);
    try assumption; try constructor.
  intros b l Hb Hq Hl.
  change (JS.le (Vector3.length
                   (Boid.velocity (Boid.update (Boid.flock b l params) delta)))
                (Boid.maxSpeed (Boid.flock b l params)) = true).
  apply update_speed_le; [apply flock_finite |]; assumption.
Qed.

(** A frame keeps the boids finite and their speed limits non-negative. *)
Lemma animate_well_formed (boids : list Boid.t) :
  all_finite boids ->
  Forall (fun b => JS.le (JS.Fin 0) (Boid.maxSpeed b) = true) boids ->
  all_finite (Main.animate boids params delta bounds g)
  /\ Forall (fun b => JS.le (JS.Fin 0) (Boid.maxSpeed b) = true)
            (Main.animate boids params delta bounds g).
Proof.
  intros Hf Hs. split.
  - apply animate_loop_finite; try assumption. constructor.
  - unfold Main.animate.
    apply animate_loop_post
      with (Q := fun b => JS.le (JS.Fin 0) (Boid.maxSpeed b) = true);
      try assumption; try constructor.
    intros b l _ Hq _. exact Hq.
Qed.

End Frame.

(** ** Force bound of the three rules *)

Lemma clampLength_nonzero_le (v : Vector3.t) (m : JS.number) :
  Finite.vector v = true -> JS.isFinite m = true ->
  Vector3.clampLength v (JS.Fin 0) m <> Vector3.zero ->
  JS.le (Vector3.length (Vector3.clampLength v (JS.Fin 0) m)) m = true.
Proof.
  intros Hv Hm Hnz. apply isFinite_inv in Hm. destruct Hm as (r & ->).
  destruct (clampLength_zero_or_le v r Hv) as [E | E]; [contradiction | exact E].
Qed.

(** A finite vector whose [lengthSq()] is not positive is the zero vector. *)
Lemma lengthSq_not_pos (v : Vector3.t) :
  Finite.vector v = true ->
  JS.gt (Vector3.lengthSq v) (JS.Fin 0) = false -> v = Vector3.zero.
Proof.
  intros Hv H. apply finite_vector_inv in Hv. destruct Hv as (a & b & c & ->).
  rewrite lengthSq_fin in H. apply Rltb_false_inv in H.
  apply norm3_zero_vec. unfold norm3.
  replace (a * a + b * b + c * c) with 0; [apply sqrt_0 |].
  pose proof (sumsq_nonneg a b c). lra.
Qed.

Lemma separate_force_le (this : Boid.t) (boids : list Boid.t) (radius : JS.number) :
  Finite.boid this = true -> all_finite boids ->
  Boid.separate this boids radius <> Vector3.zero ->
  JS.le (Vector3.length (Boid.separate this boids radius)) (Boid.maxForce this)
  = true.
Proof.
  intros Hb Hl. pose proof (finite_boid_inv _ Hb) as (Hp & Hv & _ & Hf & Hs).
  unfold Boid.separate.
  pose proof (@fold_left_invariant _ _
    (fun st => Finite.vector (fst st) = true) _
    (Boid.separate_body this radius) boids (Vector3.zero, O)
    (fun s o Hs' Ho => separate_body_finite this radius s o Hp Hs' Ho)
    Hl eq_refl) as Hfold.
  destruct (fold_left _ boids _) as [steer count]. simpl in Hfold.
  assert (Hsteer : Finite.vector
    (if (0 <? count)%nat then Vector3.divideScalar steer (JS.of_nat count)
     else steer) = true).
  { destruct (Nat.ltb_spec 0 count) as [Hc | Hc]; [| exact Hfold].
    apply divideScalar_finite; [exact Hfold | apply INR_pos_nonzero, Hc]. }
  destruct (JS.gt _ _) eqn:E.
  - apply clampLength_nonzero_le; [| assumption].
    apply sub_finite; [| assumption]. apply setLength_finite; assumption.
  - intros Hnz. apply lengthSq_not_pos in E; [contradiction | exact Hsteer].
Qed.

Lemma align_force_le (this : Boid.t) (boids : list Boid.t) (radius : JS.number) :
  Finite.boid this = true -> all_finite boids ->
  Boid.align this boids radius <> Vector3.zero ->
  JS.le (Vector3.length (Boid.align this boids radius)) (Boid.maxForce this)
  = true.
Proof.
  intros Hb Hl. pose proof (finite_boid_inv _ Hb) as (Hp & Hv & _ & Hf & Hs).
  unfold Boid.align.
  pose proof (@fold_left_invariant _ _
    (fun st => Finite.vector (fst st) = true) _
    (Boid.align_body this radius) boids (Vector3.zero, O)
    (fun s o Hs' Ho => align_body_finite this radius s o Hs' Ho)
    Hl eq_refl) as Hfold.
  destruct (fold_left _ boids _) as [sum count]. simpl in Hfold.
  destruct (Nat.ltb_spec 0 count) as [Hc | Hc]; [| intros H; contradiction H; reflexivity].
  apply clampLength_nonzero_le; [| assumption].
  apply sub_finite; [| assumption]. apply setLength_finite; [| assumption].
  apply divideScalar_finite; [exact Hfold | apply INR_pos_nonzero, Hc].
Qed.

Lemma seek_force_le (this : Boid.t) (target : Vector3.t) :
  Finite.boid this = true -> Finite.vector target = true ->
  Boid.seek this target <> Vector3.zero ->
  JS.le (Vector3.length (Boid.seek this target)) (Boid.maxForce this) = true.
Proof.
  intros Hb Ht. pose proof (finite_boid_inv _ Hb) as (Hp & Hv & _ & Hf & Hs).
  unfold Boid.seek. apply clampLength_nonzero_le; [| assumption].
  apply subVectors_finite; [| assumption].
  apply setLength_finite; [| assumption].
  apply subVectors_finite; assumption.
Qed.

Lemma cohere_force_le (this : Boid.t) (boids : list Boid.t) (radius : JS.number) :
  Finite.boid this = true -> all_finite boids ->
  Boid.cohere this boids radius <> Vector3.zero ->
  JS.le (Vector3.length (Boid.cohere this boids radius)) (Boid.maxForce this)
  = true.
Proof.
  intros Hb Hl. unfold Boid.cohere.
  pose proof (@fold_left_invariant _ _
    (fun st => Finite.vector (fst st) = true) _
    (Boid.cohere_body this radius) boids (Vector3.zero, O)
    (fun s o Hs' Ho => cohere_body_finite this radius s o Hs' Ho)
    Hl eq_refl) as Hfold.
  destruct (fold_left _ boids _) as [sum count]. simpl in Hfold.
  destruct (Nat.ltb_spec 0 count) as [Hc | Hc]; [| intros H; contradiction H; reflexivity].
  apply seek_force_le; [assumption |].
  apply divideScalar_finite; [exact Hfold | apply INR_pos_nonzero, Hc].
Qed.

(** C2.  Force bound: for a boid and a flock holding finite numbers and any
    radius, each of [separate], [align] and [cohere] returns a vector that,
    when it is not the zero vector, has a length of at most the boid's
    [maxForce]; so does [seek], through which [cohere] steers, for any finite
    target. *)
Theorem force_bound_of_each_rule
    (this : Boid.t) (boids : list Boid.t) (radius : JS.number) :
  Finite.boid this = true -> all_finite boids ->
  (Boid.separate this boids radius <> Vector3.zero ->
   JS.le (Vector3.length (Boid.separate this boids radius))
         (Boid.maxForce this) = true)
  /\ (Boid.align this boids radius <> Vector3.zero ->
      JS.le (Vector3.length (Boid.align this boids radius))
            (Boid.maxForce this) = true)
  /\ (Boid.cohere this boids radius <> Vector3.zero ->
      JS.le (Vector3.length (Boid.cohere this boids radius))
            (Boid.maxForce this) = true)
  /\ (forall target, Finite.vector target = true ->
      Boid.seek this target <> Vector3.zero ->
      JS.le (Vector3.length (Boid.seek this target)) (Boid.maxForce this)
      = true).
Proof.
  intros Hb Hl. repeat split.
  - apply separate_force_le; assumption.
  - apply align_force_le; assumption.
  - apply cohere_force_le; assumption.
  - intros target Ht. apply seek_force_le; assumption.
Qed.

Lemma speed_bound_after_step_witness :
  let b := agent (vec 0 50 0) (vec 3 0 0) in
  let b' := Main.step b [b] Params.initial (JS.Fin 0.1) Main.worldBounds flat in
  JS.le (Vector3.length (Boid.velocity b')) (Boid.maxSpeed b') = true.
Proof.
  apply (speed_bound_after_step (agent (vec 0 50 0) (vec 3 0 0))
           [agent (vec 0 50 0) (vec 3 0 0)] Params.initial (JS.Fin 0.1)
           Main.worldBounds flat).
  - reflexivity.
  - repeat constructor.
  - reflexivity.
  - apply Rleb_true. lra.
Defined.

(** ** The integrator *)

Lemma clamp_keeps (x n m : R) :
  0 <= n -> (n = 0 -> x = 0) -> n <= m ->
  x * (1 / guard n) * Rmax 0 (Rmin m n) = x.
Proof.
  intros Hn Hx Hm. rewrite Rmin_right by assumption.
  rewrite Rmax_right by assumption.
  destruct (Req_dec_T n 0) as [E | E].
  - rewrite (Hx E). ring.
  - rewrite guard_of_pos by lra. field. assumption.
Qed.

Lemma clamp_rescales (x n m : R) :
  0 <= m -> m < n -> x * (1 / guard n) * Rmax 0 (Rmin m n) = x * (m / n).
Proof.
  intros Hm Hn. rewrite Rmin_left by lra. rewrite Rmax_right by assumption.
  rewrite guard_of_pos by lra. field. lra.
Qed.

Lemma clampLength_refines (v : Vector3.t) (m : R) :
  Finite.vector v = true -> 0 <= m ->
  Vector3.clampLength v (JS.Fin 0) (JS.Fin m) = Spec.clampMagnitude v (JS.Fin m).
Proof.
  intros Hv Hm. apply finite_vector_inv in Hv. destruct Hv as (a & b & c & ->).
  unfold Spec.clampMagnitude. rewrite clampLength_fin, length_fin.
  pose proof (norm3_nonneg a b c) as Hn.
  cbn [JS.le]. unfold JS.Rleb.
  destruct (Rle_dec (norm3 a b c) m) as [Hle | Hgt].
  - assert (Hz : norm3 a b c = 0 -> a = 0 /\ b = 0 /\ c = 0)
      by apply norm3_zero_inv.
    rewrite !clamp_keeps; try assumption; try reflexivity;
      intros E; apply Hz in E; tauto.
  - rewrite div_fin by lra. rewrite multiplyScalar_fin.
    rewrite !clamp_rescales; try assumption; try lra. reflexivity.
Qed.

(** C3.  The integrator: on a boid holding finite numbers with a non-negative
    [maxSpeed], and a finite [delta], [update] is the integrator of the
    specification: the acceleration is added to the velocity as it is, the
    velocity is clamped to magnitude [maxSpeed], and
    [velocity * delta * 10] is added to the position.  The new velocity does
    not depend on [delta]. *)
Theorem update_is_the_integrator (this : Boid.t) (delta : JS.number) :
  Finite.boid this = true -> JS.isFinite delta = true ->
  JS.le (JS.Fin 0) (Boid.maxSpeed this) = true ->
  Boid.update this delta = Spec.integrate this delta
  /\ forall delta', Boid.velocity (Boid.update this delta')
                    = Boid.velocity (Boid.update this delta).
Proof.
  intros Hb Hd Hs. split; [| reflexivity].
  apply finite_boid_shape in Hb.
  destruct Hb as (m & p1 & p2 & p3 & v1 & v2 & v3 & a1 & a2 & a3 & mf & ms & ->).
  apply isFinite_inv in Hd. destruct Hd as (d & ->).
  apply Rleb_true_inv in Hs.
  unfold Boid.update, Spec.integrate, Vector3.clone.
  cbn [Boid.position Boid.velocity Boid.acceleration Boid.maxSpeed
       Boid.maxForce Boid.mesh].
  rewrite <- clampLength_refines by (try reflexivity; assumption).
  rewrite add_fin, clampLength_fin.
  cbn [JS.mul]. rewrite !multiplyScalar_fin, !add_fin.
  unfold Vector3.zero. f_equal; f_equal; f_equal; ring.
Qed.

Lemma update_is_the_integrator_witness :
  let b := Boid.mk (vec 0 50 0) (vec 3 0 0) (vec 0 0.8 0) blank_mesh
                   (JS.Fin 0.05) (JS.Fin 4) in
  Boid.update b (JS.Fin 0.1) = Spec.integrate b (JS.Fin 0.1)
  /\ forall delta', Boid.velocity (Boid.update b delta')
                    = Boid.velocity (Boid.update b (JS.Fin 0.1)).
Proof.
  apply (update_is_the_integrator
           (Boid.mk (vec 0 50 0) (vec 3 0 0) (vec 0 0.8 0) blank_mesh
                    (JS.Fin 0.05) (JS.Fin 4)) (JS.Fin 0.1)).
  - reflexivity.
  - reflexivity.
  - apply Rleb_true. lra.
Defined.

(** ** The boundary policy *)

Lemma lt_irrefl (a : JS.number) : JS.lt a a = false.
Proof. destruct a; try reflexivity. apply Rltb_false. lra. Qed.

Lemma below_not_above (a w : JS.number) :
  JS.le (JS.Fin 0) w = true -> JS.lt a (JS.neg w) = true -> JS.gt a w = false.
Proof.
  unfold JS.gt. destruct w as [w| | |], a as [a| | |]; simpl;
    try discriminate; try reflexivity.
  intros Hw Ha. apply Rleb_true_inv in Hw. apply Rltb_true_inv in Ha.
  apply Rltb_false. lra.
Qed.

Lemma wrapBounds_x (this : Boid.t) (bounds : JS.number)
    (g : JS.number -> JS.number -> JS.number) :
  Vector3.x (Boid.position (Boid.wrapBounds this bounds g))
  = let x := Vector3.x (Boid.position this) in
    let x := if JS.gt x bounds then JS.neg bounds else x in
    if JS.lt x (JS.neg bounds) then bounds else x.
Proof.
  unfold Boid.wrapBounds. cbn [Boid.position].
  repeat (case_if;
          cbn [Vector3.x Vector3.y Vector3.z
               Vector3.set_x Vector3.set_y Vector3.set_z]);
  reflexivity.
Qed.

Lemma wrapBounds_z (this : Boid.t) (bounds : JS.number)
    (g : JS.number -> JS.number -> JS.number) :
  Vector3.z (Boid.position (Boid.wrapBounds this bounds g))
  = let z := Vector3.z (Boid.position this) in
    let z := if JS.gt z bounds then JS.neg bounds else z in
    if JS.lt z (JS.neg bounds) then bounds else z.
Proof.
  unfold Boid.wrapBounds. cbn [Boid.position].
  repeat (case_if;
          cbn [Vector3.x Vector3.y Vector3.z
               Vector3.set_x Vector3.set_y Vector3.set_z]);
  reflexivity.
Qed.

Lemma wrapBounds_y (this : Boid.t) (bounds : JS.number)
    (g : JS.number -> JS.number -> JS.number) :
  Vector3.y (Boid.position (Boid.wrapBounds this bounds g))
  = if JS.gt (Vector3.y (Boid.position this)) (JS.add bounds (JS.Fin 50))
    then JS.add (g (Vector3.x (Boid.position this))
                   (Vector3.z (Boid.position this))) (JS.Fin 10)
    else Vector3.y (Boid.position this).
Proof.
  unfold Boid.wrapBounds. cbn [Boid.position].
  repeat (case_if;
          cbn [Vector3.x Vector3.y Vector3.z
               Vector3.set_x Vector3.set_y Vector3.set_z]);
  reflexivity.
Qed.

Lemma wrapBounds_acceleration (this : Boid.t) (bounds : JS.number)
    (g : JS.number -> JS.number -> JS.number) :
  Boid.acceleration (Boid.wrapBounds this bounds g)
  = if JS.lt (Vector3.y (Boid.position this))
             (JS.add (g (Vector3.x (Boid.position this))
                        (Vector3.z (Boid.position this))) (JS.Fin 10))
    then Vector3.set_y (Boid.acceleration this)
           (JS.add (Vector3.y (Boid.acceleration this)) (JS.Fin 0.8))
    else Boid.acceleration this.
Proof. reflexivity. Qed.

(** C6.  World-edge wrap, for a world bound that is not negative (it is the
    half-width of the world; [main.js] passes 300): an [x] above [bounds]
    becomes [-bounds] and an [x] below [-bounds] becomes [bounds], likewise
    for [z]; a [y] above [bounds + 50] becomes [minY], the ground height at
    the boid's [(x, z)] on entry plus 10, and any other [y] is kept, so there
    is no wrap at the lower edge; a boid at [x = bounds + 1] lands on
    [x = -bounds]. *)
Theorem world_edge_wrap (this : Boid.t) (bounds : JS.number)
    (g : JS.number -> JS.number -> JS.number) :
  JS.le (JS.Fin 0) bounds = true ->
  let p := Boid.position this in
  let p' := Boid.position (Boid.wrapBounds this bounds g) in
  let minY := JS.add (g (Vector3.x p) (Vector3.z p)) (JS.Fin 10) in
  (JS.gt (Vector3.x p) bounds = true -> Vector3.x p' = JS.neg bounds)
  /\ (JS.lt (Vector3.x p) (JS.neg bounds) = true -> Vector3.x p' = bounds)
  /\ (JS.gt (Vector3.z p) bounds = true -> Vector3.z p' = JS.neg bounds)
  /\ (JS.lt (Vector3.z p) (JS.neg bounds) = true -> Vector3.z p' = bounds)
  /\ (JS.gt (Vector3.y p) (JS.add bounds (JS.Fin 50)) = true ->
      Vector3.y p' = minY)
  /\ (JS.gt (Vector3.y p) (JS.add bounds (JS.Fin 50)) = false ->
      Vector3.y p' = Vector3.y p)
  /\ (JS.isFinite bounds = true ->
      Vector3.x p = JS.add bounds (JS.Fin 1) -> Vector3.x p' = JS.neg bounds).
Proof.
  intros Hw p p' minY. subst p p' minY.
  rewrite wrapBounds_x, wrapBounds_y, wrapBounds_z. cbv zeta.
  repeat split.
  - intros H. rewrite H, lt_irrefl. reflexivity.
  - intros H. rewrite (below_not_above _ _ Hw H), H. reflexivity.
  - intros H. rewrite H, lt_irrefl. reflexivity.
  - intros H. rewrite (below_not_above _ _ Hw H), H. reflexivity.
  - intros H. rewrite H. reflexivity.
  - intros H. rewrite H. reflexivity.
  - intros Hf E. apply isFinite_inv in Hf. destruct Hf as (w & ->).
    rewrite E. cbn [JS.add JS.gt JS.lt JS.neg].
    rewrite Rltb_true by lra. cbn [JS.lt]. rewrite Rltb_false by lra.
    reflexivity.
Qed.

Lemma world_edge_wrap_witness :
  let this := agent (vec 301 50 (-301)) (vec 3 0 0) in
  let p := Boid.position this in
  let p' := Boid.position (Boid.wrapBounds this Main.worldBounds flat) in
  Vector3.x p = JS.add Main.worldBounds (JS.Fin 1)
  /\ Vector3.x p' = JS.neg Main.worldBounds
  /\ Vector3.z p' = Main.worldBounds.
Proof.
  assert (Hw : JS.le (JS.Fin 0) Main.worldBounds = true)
    by (apply Rleb_true; lra).
  pose proof (world_edge_wrap (agent (vec 301 50 (-301)) (vec 3 0 0))
                Main.worldBounds flat Hw) as H.
  cbv zeta in H. destruct H as (_ & _ & _ & Hz & _ & _ & Hx).
  assert (E : Vector3.x (Boid.position (agent (vec 301 50 (-301)) (vec 3 0 0)))
              = JS.add Main.worldBounds (JS.Fin 1)).
  { unfold Main.worldBounds. cbn. f_equal. lra. }
  split; [exact E |]. split.
  - apply Hx; [reflexivity | exact E].
  - apply Hz. cbn. apply Rltb_true. lra.
Defined.

(** C7.  Terrain floor: with [minY] the ground height at the boid's [(x, z)]
    plus 10, [wrapBounds] adds exactly 0.8 to the [y] of the acceleration when
    [position.y < minY] and leaves the acceleration alone otherwise; over flat
    ground at height 0 a boid at [y = 5] gets the 0.8. *)
Theorem terrain_floor_correction (this : Boid.t) (bounds : JS.number)
    (g : JS.number -> JS.number -> JS.number) :
  let p := Boid.position this in
  let a := Boid.acceleration this in
  let minY := JS.add (g (Vector3.x p) (Vector3.z p)) (JS.Fin 10) in
  let raised := Vector3.mk (Vector3.x a) (JS.add (Vector3.y a) (JS.Fin 0.8))
                           (Vector3.z a) in
  (JS.lt (Vector3.y p) minY = true ->
   Boid.acceleration (Boid.wrapBounds this bounds g) = raised)
  /\ (JS.lt (Vector3.y p) minY = false ->
      Boid.acceleration (Boid.wrapBounds this bounds g) = a)
  /\ (Vector3.y p = JS.Fin 5 ->
      Boid.acceleration (Boid.wrapBounds this bounds flat) = raised).
Proof.
  cbv zeta. rewrite !wrapBounds_acceleration. repeat split.
  - intros H. rewrite H. reflexivity.
  - intros H. rewrite H. reflexivity.
  - intros H. rewrite H. unfold flat. cbn [JS.add JS.lt].
    rewrite Rltb_true by lra. reflexivity.
Qed.

(** ** Isolation *)

Lemma le_not_lt (a b : JS.number) : JS.le a b = true -> JS.lt b a = false.
Proof.
  destruct a as [a| | |], b as [b| | |]; simpl; try discriminate;
    try reflexivity.
  intros H. apply Rleb_true_inv in H. apply Rltb_false. exact H.
Qed.

Lemma not_neighbour (d radius : JS.number) :
  d = JS.Fin 0 \/ JS.le radius d = true -> Boid.neighbour d radius = false.
Proof.
  unfold Boid.neighbour. intros [-> | H].
  - unfold JS.gt. rewrite lt_irrefl. reflexivity.
  - rewrite (le_not_lt _ _ H). apply andb_false_r.
Qed.

(** A boid is at distance 0 from itself, or at distance [NaN] when its
    position is not finite; either way it is not its own neighbour. *)
Lemma self_not_neighbour (p : Vector3.t) (radius : JS.number) :
  Boid.neighbour (Vector3.distanceTo p p) radius = false.
Proof.
  destruct p as [[a| | |] [b| | |] [c| | |]]; try reflexivity.
  rewrite distanceTo_fin. apply not_neighbour. left. f_equal.
  replace (a - a) with 0 by ring. replace (b - b) with 0 by ring.
  replace (c - c) with 0 by ring. apply norm3_zero.
Qed.

Lemma separate_loop_apart (this : Boid.t) (radius : JS.number)
    (boids : list Boid.t) (st : Vector3.t * nat) :
  Forall (fun o => apart this radius o = true) boids ->
  fold_left (Boid.separate_body this radius) boids st = st.
Proof.
  intros H. apply fold_left_skip. eapply Forall_impl; [| exact H].
  intros o Ho [steer count]. unfold Boid.separate_body.
  apply negb_true_iff in Ho. rewrite Ho. reflexivity.
Qed.

Lemma align_loop_apart (this : Boid.t) (radius : JS.number)
    (boids : list Boid.t) (st : Vector3.t * nat) :
  Forall (fun o => apart this radius o = true) boids ->
  fold_left (Boid.align_body this radius) boids st = st.
Proof.
  intros H. apply fold_left_skip. eapply Forall_impl; [| exact H].
  intros o Ho [sum count]. unfold Boid.align_body.
  apply negb_true_iff in Ho. rewrite Ho. reflexivity.
Qed.

Lemma cohere_loop_apart (this : Boid.t) (radius : JS.number)
    (boids : list Boid.t) (st : Vector3.t * nat) :
  Forall (fun o => apart this radius o = true) boids ->
  fold_left (Boid.cohere_body this radius) boids st = st.
Proof.
  intros H. apply fold_left_skip. eapply Forall_impl; [| exact H].
  intros o Ho [sum count]. unfold Boid.cohere_body.
  apply negb_true_iff in Ho. rewrite Ho. reflexivity.
Qed.

Lemma lengthSq_zero_not_pos :
  JS.gt (Vector3.lengthSq Vector3.zero) (JS.Fin 0) = false.
Proof. cbn. apply Rltb_false. lra. Qed.

Lemma rules_apart (this : Boid.t) (boids : list Boid.t) (radius : JS.number) :
  Forall (fun o => apart this radius o = true) boids ->
  Boid.separate this boids radius = Vector3.zero
  /\ Boid.align this boids radius = Vector3.zero
  /\ Boid.cohere this boids radius = Vector3.zero.
Proof.
  intros H. unfold Boid.separate, Boid.align, Boid.cohere.
  rewrite separate_loop_apart, align_loop_apart, cohere_loop_apart
    by assumption.
  cbn [Nat.ltb Nat.leb]. rewrite lengthSq_zero_not_pos. auto.
Qed.

(** C8.  Isolation: when every boid of the flock is at distance exactly 0 or
    at distance at least [radius] from this one, [separate], [align] and
    [cohere] all return the zero vector (the rules are total functions:
    nothing is thrown); a flock that holds only the boid itself is such a
    flock. *)
Theorem isolated_boid_is_not_steered
    (this : Boid.t) (boids : list Boid.t) (radius : JS.number) :
  Forall (fun other =>
            let d :=
              Vector3.distanceTo (Boid.position this) (Boid.position other) in
            d = JS.Fin 0 \/ JS.le radius d = true) boids ->
  (Boid.separate this boids radius = Vector3.zero
   /\ Boid.align this boids radius = Vector3.zero
   /\ Boid.cohere this boids radius = Vector3.zero)
  /\ (Boid.separate this [this] radius = Vector3.zero
      /\ Boid.align this [this] radius = Vector3.zero
      /\ Boid.cohere this [this] radius = Vector3.zero).
Proof.
  intros H. split; apply rules_apart.
  - eapply Forall_impl; [| exact H]. intros o Ho. unfold apart.
    rewrite (not_neighbour _ _ Ho). reflexivity.
  - constructor; [| constructor]. unfold apart.
    rewrite self_not_neighbour. reflexivity.
Qed.

Lemma isolated_boid_is_not_steered_witness :
  let a0 := agent (vec 0 50 0) (vec 3 0 0) in
  let a2 := agent (vec 60 50 0) (vec 0 0 1) in
  (Boid.separate a0 [a0; a2] (JS.Fin 30) = Vector3.zero
   /\ Boid.align a0 [a0; a2] (JS.Fin 30) = Vector3.zero
   /\ Boid.cohere a0 [a0; a2] (JS.Fin 30) = Vector3.zero)
  /\ (Boid.separate a0 [a0] (JS.Fin 30) = Vector3.zero
      /\ Boid.align a0 [a0] (JS.Fin 30) = Vector3.zero
      /\ Boid.cohere a0 [a0] (JS.Fin 30) = Vector3.zero).
Proof.
  apply (isolated_boid_is_not_steered (agent (vec 0 50 0) (vec 3 0 0))
           [agent (vec 0 50 0) (vec 3 0 0); agent (vec 60 50 0) (vec 0 0 1)]
           (JS.Fin 30)).
  constructor; [| constructor; [| constructor]]; cbv zeta; unfold agent;
    cbn [Boid.position]; rewrite distanceTo_fin.
  - left. f_equal. replace (0 - 0) with 0 by ring.
    replace (50 - 50) with 0 by ring. apply norm3_zero.
  - right. apply Rleb_true. replace (0 - 60) with (-60) by ring.
    replace (50 - 50) with 0 by ring. replace (0 - 0) with 0 by ring.
    rewrite norm3_axis, Rabs_left by lra. lra.
Defined.

(** ** The acceleration at the end of a tick *)

Lemma update_acceleration (this : Boid.t) (delta : JS.number) :
  Finite.vector (Boid.acceleration this) = true ->
  Boid.acceleration (Boid.update this delta) = Vector3.zero.
Proof.
  intros Ha. apply finite_vector_inv in Ha. destruct Ha as (a & b & c & E).
  unfold Boid.update. cbn [Boid.acceleration]. rewrite E, multiplyScalar_fin.
  unfold Vector3.zero. f_equal; f_equal; ring.
Qed.

Lemma step_acceleration (boid : Boid.t) (boids : list Boid.t)
    (params : Params.t) (delta bounds : JS.number)
    (g : JS.number -> JS.number -> JS.number) :
  Boid.acceleration (Main.step boid boids params delta bounds g)
  = Boid.acceleration
      (Boid.wrapBounds (Boid.update (Boid.flock boid boids params) delta)
         bounds g).
Proof. reflexivity. Qed.

Lemma raised_zero :
  Vector3.set_y Vector3.zero (JS.add (Vector3.y Vector3.zero) (JS.Fin 0.8))
  = vec 0 0.8 0.
Proof.
  unfold Vector3.set_y, Vector3.zero. cbn [Vector3.x Vector3.y Vector3.z JS.add].
  f_equal. f_equal. lra.
Qed.

(** C4, as the code has it.  For a boid, flock and parameters holding finite
    numbers: the integrator leaves the acceleration at the zero vector; the
    boundary policy that runs after it leaves the zero vector when the moved
    boid is not below [minY], and [(0, 0.8, 0)] when it is. *)
Theorem acceleration_at_end_of_tick
    (boid : Boid.t) (boids : list Boid.t) (params : Params.t)
    (delta bounds : JS.number) (g : JS.number -> JS.number -> JS.number) :
  Finite.boid boid = true -> all_finite boids -> Finite.params params = true ->
  let moved := Boid.update (Boid.flock boid boids params) delta in
  let p := Boid.position moved in
  let minY := JS.add (g (Vector3.x p) (Vector3.z p)) (JS.Fin 10) in
  Boid.acceleration moved = Vector3.zero
  /\ Boid.acceleration (Main.step boid boids params delta bounds g)
     = if JS.lt (Vector3.y p) minY then vec 0 0.8 0 else Vector3.zero.
Proof.
  intros Hb Hl Hp moved p minY.
  assert (Hz : Boid.acceleration moved = Vector3.zero).
  { apply update_acceleration.
    pose proof (flock_finite boid boids params Hb Hl Hp) as Hf.
    apply finite_boid_inv in Hf. tauto. }
  split; [exact Hz |].
  rewrite step_acceleration, wrapBounds_acceleration. fold moved p minY.
  rewrite Hz, raised_zero. reflexivity.
Qed.

Lemma acceleration_at_end_of_tick_witness :
  let b := agent (vec 0 50 0) (vec 3 0 0) in
  let moved := Boid.update (Boid.flock b [b] Params.initial) (JS.Fin 0.1) in
  let p := Boid.position moved in
  let minY := JS.add (flat (Vector3.x p) (Vector3.z p)) (JS.Fin 10) in
  Boid.acceleration moved = Vector3.zero
  /\ Boid.acceleration
       (Main.step b [b] Params.initial (JS.Fin 0.1) Main.worldBounds flat)
     = if JS.lt (Vector3.y p) minY then vec 0 0.8 0 else Vector3.zero.
Proof.
  apply (acceleration_at_end_of_tick (agent (vec 0 50 0) (vec 3 0 0))
           [agent (vec 0 50 0) (vec 3 0 0)] Params.initial (JS.Fin 0.1)
           Main.worldBounds flat).
  - reflexivity.
  - repeat constructor.
  - reflexivity.
Defined.

(** The flock of a lone boid leaves its acceleration where it was. *)
Lemma flock_alone (this : Boid.t) (params : Params.t) :
  Boid.acceleration (Boid.flock this [this] params)
  = Vector3.add
      (Vector3.add
         (Vector3.add (Boid.acceleration this)
            (Vector3.multiplyScalar Vector3.zero (Params.separation params)))
         (Vector3.multiplyScalar Vector3.zero (Params.alignment params)))
      (Vector3.multiplyScalar Vector3.zero (Params.cohesion params)).
Proof.
  unfold Boid.flock. cbn [Boid.acceleration Boid.set_acceleration].
  assert (H : Forall (fun o => apart this (Params.separationRadius params) o
                               = true) [this]
          /\ Forall (fun o => apart this (Params.alignmentRadius params) o
                              = true) [this]
          /\ Forall (fun o => apart this (Params.cohesionRadius params) o
                              = true) [this]).
  { repeat split; (constructor; [| constructor]); unfold apart;
      rewrite self_not_neighbour; reflexivity. }
  destruct H as (H1 & H2 & H3).
  destruct (rules_apart this [this] _ H1) as (-> & _ & _).
  destruct (rules_apart this [this] _ H2) as (_ & -> & _).
  destruct (rules_apart this [this] _ H3) as (_ & _ & ->).
  reflexivity.
Qed.

(** C4, the counterexample: a lone boid at rest at height 5 over flat ground
    at height 0 ends its tick with the acceleration [(0, 0.8, 0)]. *)
Lemma acceleration_not_zero_below_floor :
  let b := agent (vec 0 5 0) Vector3.zero in
  let b' := Main.step b [b] Params.initial (JS.Fin 0.1) Main.worldBounds flat in
  Boid.acceleration b' = vec 0 0.8 0 /\ Boid.acceleration b' <> Vector3.zero.
Proof.
  cbv zeta.
  assert (E : Boid.acceleration
                (Main.step (agent (vec 0 5 0) Vector3.zero)
                   [agent (vec 0 5 0) Vector3.zero] Params.initial
                   (JS.Fin 0.1) Main.worldBounds flat) = vec 0 0.8 0).
  { rewrite step_acceleration, wrapBounds_acceleration.
    rewrite update_acceleration
      by (rewrite flock_alone; apply finite_vec).
    rewrite raised_zero.
    unfold Boid.update. rewrite flock_alone.
    unfold Boid.flock, agent, flat, Params.initial, Vector3.zero, Vector3.clone.
    cbn [Boid.position Boid.velocity Boid.acceleration Boid.maxSpeed
         Boid.set_acceleration Params.separation Params.alignment
         Params.cohesion].
    rewrite !multiplyScalar_fin, !add_fin, clampLength_fin.
    cbn [JS.mul]. rewrite multiplyScalar_fin, add_fin.
    cbn [Vector3.x Vector3.y Vector3.z JS.add JS.lt].
    rewrite Rltb_true; [reflexivity |].
    match goal with
    | |- 5 + ?v * ?k < _ => replace v with 0 by ring
    end.
    lra. }
  split; [exact E |]. rewrite E. intros H. injection H. lra.
Qed.

(** ** Separation of two boids on a line parallel to the X axis *)

Section Pair.

Variables x0 x1 y0 z0 : R.
Variable r : R.
Variables this other : Boid.t.
Hypothesis this_position : Boid.position this = vec x0 y0 z0.
Hypothesis other_position : Boid.position other = vec x1 y0 z0.
Hypothesis lower : x0 < x1.
Hypothesis within : x1 - x0 < r.

Lemma pair_distance :
  Vector3.distanceTo (Boid.position this) (Boid.position other)
  = JS.Fin (x1 - x0).
Proof.
  rewrite this_position, other_position, distanceTo_fin. f_equal.
  replace (y0 - y0) with 0 by ring. replace (z0 - z0) with 0 by ring.
  rewrite norm3_axis, Rabs_left by lra. ring.
Qed.

Lemma pair_push (steer : Vector3.t) (count : nat) :
  Finite.vector steer = true ->
  Boid.separate_body this (JS.Fin r) (steer, count) other
  = (Vector3.add steer (vec (- (1 / (x1 - x0))) 0 0), S count).
Proof.
  intros Hs. unfold Boid.separate_body. rewrite pair_distance.
  assert (Hn : Boid.neighbour (JS.Fin (x1 - x0)) (JS.Fin r) = true).
  { unfold Boid.neighbour, JS.gt. cbn [JS.lt].
    rewrite !Rltb_true by lra. reflexivity. }
  rewrite Hn, this_position, other_position.
  rewrite subVectors_fin, normalize_fin.
  rewrite divideScalar_fin by lra.
  replace (y0 - y0) with 0 by ring. replace (z0 - z0) with 0 by ring.
  rewrite norm3_axis, Rabs_left by lra. rewrite guard_of_pos by lra.
  f_equal. f_equal. f_equal; f_equal; field; lra.
Qed.

Lemma pair_skip_self (st : Vector3.t * nat) :
  Boid.separate_body this (JS.Fin r) st this = st.
Proof.
  destruct st as [steer count]. unfold Boid.separate_body.
  rewrite self_not_neighbour. reflexivity.
Qed.

(** Whichever of the two comes first in the array, the loop of [separate]
    ends with one neighbour and the sum [(-1/d, 0, 0)]. *)
Lemma pair_loop (boids : list Boid.t) :
  boids = [this; other] \/ boids = [other; this] ->
  fold_left (Boid.separate_body this (JS.Fin r)) boids (Vector3.zero, O)
  = (vec (- (1 / (x1 - x0))) 0 0, 1%nat).
Proof.
  intros [-> | ->]; cbn [fold_left];
    rewrite ?pair_skip_self, pair_push, ?pair_skip_self by reflexivity;
    unfold Vector3.zero; rewrite add_fin; f_equal; f_equal; f_equal; ring.
Qed.

Variables v1 v2 v3 ms mf : R.
Hypothesis this_velocity : Boid.velocity this = vec v1 v2 v3.
Hypothesis this_maxSpeed : Boid.maxSpeed this = JS.Fin ms.
Hypothesis this_maxForce : Boid.maxForce this = JS.Fin mf.

(** The steering of [separate] for the boid at the lower [x]: the direction
    [(-1, 0, 0)] at length [maxSpeed], minus the velocity, clamped to
    [maxForce]. *)
Lemma pair_separate (boids : list Boid.t) :
  boids = [this; other] \/ boids = [other; this] ->
  Boid.separate this boids (JS.Fin r)
  = Vector3.clampLength (vec (- ms - v1) (- v2) (- v3)) (JS.Fin 0) (JS.Fin mf).
Proof.
  intros Hb. unfold Boid.separate. rewrite (pair_loop boids Hb).
  cbn [Nat.ltb Nat.leb]. unfold JS.of_nat.
  rewrite divideScalar_fin by (simpl; lra).
  assert (Hd : 0 < 1 / (x1 - x0))
    by (apply Rdiv_lt_0_compat; lra).
  rewrite lengthSq_fin. unfold JS.gt. cbn [JS.lt].
  rewrite Rltb_true by (simpl INR; nra).
  rewrite this_maxSpeed, this_velocity, this_maxForce.
  rewrite setLength_fin, sub_fin.
  replace (- (1 / (x1 - x0)) * (1 / INR 1)) with (- (1 / (x1 - x0)))
    by (simpl; field; lra).
  replace (0 * (1 / INR 1)) with 0 by ring.
  rewrite norm3_axis, Rabs_left by lra. rewrite guard_of_pos by lra.
  f_equal. f_equal; f_equal; field; lra.
Qed.

End Pair.

(** The sign of the first component survives the clamp. *)
Lemma clampLength_x_negative (a b c m : R) :
  a < 0 -> 0 < m ->
  JS.lt (Vector3.x (Vector3.clampLength (vec a b c) (JS.Fin 0) (JS.Fin m)))
        (JS.Fin 0) = true.
Proof.
  intros Ha Hm. rewrite clampLength_fin. cbn [Vector3.x JS.lt].
  apply Rltb_true.
  pose proof (norm3_nonneg a b c) as Hn.
  assert (Hpos : 0 < norm3 a b c).
  { destruct (Req_dec_T (norm3 a b c) 0) as [E | E]; [| lra].
    apply norm3_zero_inv in E. lra. }
  rewrite guard_of_pos by assumption.
  assert (Hf : 0 < Rmax 0 (Rmin m (norm3 a b c))).
  { rewrite Rmax_right; [apply Rmin_glb_lt; assumption |].
    apply Rmin_glb; lra. }
  assert (Hi : 0 < 1 / norm3 a b c) by (apply Rdiv_lt_0_compat; lra).
  assert (Hai : a * (1 / norm3 a b c) < 0) by nra.
  nra.
Qed.

(** C9, as the code has it.  Two boids on a line parallel to the X axis, at
    distance [d] with [0 < d < radius]: for the boid at the lower [x], with a
    positive [maxForce] (the constructor sets 0.05) and a velocity whose [x]
    is greater than [-maxSpeed], [separate] returns a vector with a negative
    [x], whichever of the two comes first in the array. *)
Theorem separation_pushes_away
    (x0 x1 y0 z0 r v1 v2 v3 ms mf : R) (this other : Boid.t) :
  Boid.position this = vec x0 y0 z0 ->
  Boid.position other = vec x1 y0 z0 ->
  Boid.velocity this = vec v1 v2 v3 ->
  Boid.maxSpeed this = JS.Fin ms ->
  Boid.maxForce this = JS.Fin mf ->
  x0 < x1 -> x1 - x0 < r -> 0 < mf -> - ms < v1 ->
  JS.lt (Vector3.x (Boid.separate this [this; other] (JS.Fin r))) (JS.Fin 0)
  = true
  /\ JS.lt (Vector3.x (Boid.separate this [other; this] (JS.Fin r))) (JS.Fin 0)
     = true.
Proof.
  intros Hp Hq Hv Hs Hf Hlow Hin Hmf Hv1.
  rewrite (pair_separate x0 x1 y0 z0 r this other Hp Hq Hlow Hin
             v1 v2 v3 ms mf Hv Hs Hf [this; other]) by (left; reflexivity).
  rewrite (pair_separate x0 x1 y0 z0 r this other Hp Hq Hlow Hin
             v1 v2 v3 ms mf Hv Hs Hf [other; this]) by (right; reflexivity).
  split; apply clampLength_x_negative; lra.
Qed.

Lemma separation_pushes_away_witness :
  let a0 := agent (vec 0 50 0) Vector3.zero in
  let a1 := agent (vec 5 50 0) Vector3.zero in
  JS.lt (Vector3.x (Boid.separate a0 [a0; a1] (JS.Fin 30))) (JS.Fin 0) = true
  /\ JS.lt (Vector3.x (Boid.separate a0 [a1; a0] (JS.Fin 30))) (JS.Fin 0)
     = true.
Proof.
  apply (separation_pushes_away 0 5 50 0 30 0 0 0 4 0.05
           (agent (vec 0 50 0) Vector3.zero) (agent (vec 5 50 0) Vector3.zero));
    try reflexivity; lra.
Defined.

Lemma force_bound_of_each_rule_witness :
  let b := agent (vec 0 50 0) (vec 3 0 0) in
  let o := agent (vec 5 50 0) (vec 0 0 1) in
  Boid.separate b [b; o] (JS.Fin 30) <> Vector3.zero
  /\ JS.le (Vector3.length (Boid.separate b [b; o] (JS.Fin 30)))
           (Boid.maxForce b) = true.
Proof.
  cbv zeta.
  assert (Hnz : Boid.separate (agent (vec 0 50 0) (vec 3 0 0))
                  [agent (vec 0 50 0) (vec 3 0 0);
                   agent (vec 5 50 0) (vec 0 0 1)] (JS.Fin 30)
                <> Vector3.zero).
  { rewrite (pair_separate 0 5 50 0 30 (agent (vec 0 50 0) (vec 3 0 0))
               (agent (vec 5 50 0) (vec 0 0 1)) eq_refl eq_refl
               ltac:(lra) ltac:(lra) 3 0 0 4 0.05 eq_refl eq_refl eq_refl
               _ (or_introl eq_refl)).
    intros E.
    pose proof (clampLength_x_negative (Ropp 4 - 3) (Ropp 0) (Ropp 0) 0.05
                  ltac:(lra) ltac:(lra)) as Hx.
    rewrite E in Hx. cbn [Vector3.x Vector3.zero] in Hx.
    rewrite lt_irrefl in Hx. discriminate. }
  split; [exact Hnz |].
  apply (force_bound_of_each_rule (agent (vec 0 50 0) (vec 3 0 0))
           [agent (vec 0 50 0) (vec 3 0 0); agent (vec 5 50 0) (vec 0 0 1)]
           (JS.Fin 30)).
  - reflexivity.
  - repeat constructor.
  - exact Hnz.
Defined.

(** C9, the counterexample: the boid at [x = 0] flies at full speed away from
    its neighbour at [x = 5]; [separate] returns the zero vector, whose [x] is
    not negative. *)
Lemma separation_zero_at_full_speed_away :
  let a0 := agent (vec 0 50 0) (vec (-4) 0 0) in
  let a1 := agent (vec 5 50 0) Vector3.zero in
  Boid.separate a0 [a0; a1] (JS.Fin 30) = Vector3.zero
  /\ JS.lt (Vector3.x (Boid.separate a0 [a0; a1] (JS.Fin 30))) (JS.Fin 0)
     = false.
Proof.
  cbv zeta.
  assert (E : Boid.separate (agent (vec 0 50 0) (vec (-4) 0 0))
                [agent (vec 0 50 0) (vec (-4) 0 0);
                 agent (vec 5 50 0) Vector3.zero] (JS.Fin 30)
              = Vector3.zero).
  { rewrite (pair_separate 0 5 50 0 30 (agent (vec 0 50 0) (vec (-4) 0 0))
               (agent (vec 5 50 0) Vector3.zero) eq_refl eq_refl
               ltac:(lra) ltac:(lra) (-4) 0 0 4 0.05 eq_refl eq_refl eq_refl
               _ (or_introl eq_refl)).
    rewrite clampLength_fin. unfold Vector3.zero. f_equal; f_equal; ring. }
  rewrite E. split; [reflexivity |]. apply lt_irrefl.
Qed.

(** ** The constructor *)

Lemma unit_interval_inv (a : JS.number) :
  unit_interval a = true -> exists r, a = JS.Fin r /\ 0 <= r < 1.
Proof.
  unfold unit_interval. intros H. apply andb_prop in H. destruct H as [H0 H1].
  destruct a as [r| | |]; try discriminate.
  exists r. split; [reflexivity |]. simpl in H0, H1.
  apply Rleb_true_inv in H0. apply Rltb_true_inv in H1. lra.
Qed.

Lemma random_inv (r : Boid.draws) :
  random r = true ->
  exists p1 p2 p3 d1 d2 d3 s,
    r = Boid.mkDraws (JS.Fin p1) (JS.Fin p2) (JS.Fin p3)
                     (JS.Fin d1) (JS.Fin d2) (JS.Fin d3) (JS.Fin s)
    /\ 0 <= s < 1.
Proof.
  unfold random. intros H.
  apply andb_prop in H. destruct H as [H H7].
  apply andb_prop in H. destruct H as [H H6].
  apply andb_prop in H. destruct H as [H H5].
  apply andb_prop in H. destruct H as [H H4].
  apply andb_prop in H. destruct H as [H H3].
  apply andb_prop in H. destruct H as [H1 H2].
  destruct r as [a1 a2 a3 a4 a5 a6 a7]. simpl in *.
  apply unit_interval_inv in H1, H2, H3, H4, H5, H6, H7.
  destruct H1 as (p1 & -> & _), H2 as (p2 & -> & _), H3 as (p3 & -> & _),
    H4 as (d1 & -> & _), H5 as (d2 & -> & _), H6 as (d3 & -> & _),
    H7 as (s & -> & Hs).
  exists p1, p2, p3, d1, d2, d3, s. split; [reflexivity | exact Hs].
Qed.

Lemma constructor_velocity (mesh0 : Object3D.t) (r : Boid.draws) :
  Boid.velocity (Boid.constructor mesh0 r)
  = Vector3.setLength (direction r) (drawn_speed r).
Proof. reflexivity. Qed.

Lemma constructor_finite (mesh0 : Object3D.t) (r : Boid.draws) :
  random r = true -> Finite.boid (Boid.constructor mesh0 r) = true.
Proof.
  intros H. apply random_inv in H.
  destruct H as (p1 & p2 & p3 & d1 & d2 & d3 & s & -> & _).
  apply finite_boid_intro; try reflexivity.
  rewrite constructor_velocity. apply setLength_finite; reflexivity.
Qed.

Lemma constructor_speed_le_after_update
    (mesh0 : Object3D.t) (r : Boid.draws) (delta : JS.number) :
  random r = true ->
  JS.le (Vector3.length
           (Boid.velocity (Boid.update (Boid.constructor mesh0 r) delta)))
        (Boid.maxSpeed (Boid.constructor mesh0 r)) = true.
Proof.
  intros H. pose proof (constructor_finite mesh0 r H) as Hf.
  apply finite_boid_inv in Hf. destruct Hf as (_ & Hv & Ha & _ & _).
  unfold Boid.update. cbn [Boid.velocity].
  change (Boid.maxSpeed (Boid.constructor mesh0 r)) with (JS.Fin 4).
  apply clampLength_le; [| lra]. apply add_finite; assumption.
Qed.

Lemma draws_fast_speed (mesh0 : Object3D.t) :
  Vector3.length (Boid.velocity (Boid.constructor mesh0 draws_fast))
  = JS.Fin (0.75 * 4 + 2).
Proof.
  rewrite constructor_velocity. unfold direction, drawn_speed, draws_fast.
  cbn [Boid.vx Boid.vy Boid.vz Boid.speed JS.mul JS.sub JS.add JS.neg].
  rewrite setLength_length by lra.
  destruct (Req_dec_T _ 0) as [E | E]; [| reflexivity].
  apply norm3_zero_inv in E. lra.
Qed.

(** C10, as the code has it.  For draws of [Math.random()] in [0, 1): the
    length the constructor asks for lies in [2, 6) and [maxSpeed] is 4; the
    initial velocity has that length when the drawn direction is not the zero
    vector, and is the zero vector when it is; some draws give a speed above
    [maxSpeed]; after the first [update] the speed is at most [maxSpeed]. *)
Theorem initial_speed_may_exceed_maxSpeed
    (mesh0 : Object3D.t) (r : Boid.draws) (delta : JS.number) :
  random r = true ->
  let b := Boid.constructor mesh0 r in
  Boid.maxSpeed b = JS.Fin 4
  /\ JS.le (JS.Fin 2) (drawn_speed r) = true
  /\ JS.lt (drawn_speed r) (JS.Fin 6) = true
  /\ (direction r <> Vector3.zero ->
      Vector3.length (Boid.velocity b) = drawn_speed r)
  /\ (direction r = Vector3.zero -> Boid.velocity b = Vector3.zero)
  /\ (exists r', random r' = true
        /\ JS.gt (Vector3.length (Boid.velocity (Boid.constructor mesh0 r')))
                 (Boid.maxSpeed (Boid.constructor mesh0 r')) = true)
  /\ JS.le (Vector3.length (Boid.velocity (Boid.update b delta)))
           (Boid.maxSpeed b) = true.
Proof.
  intros H b. subst b.
  pose proof (constructor_speed_le_after_update mesh0 r delta H) as Hafter.
  apply random_inv in H.
  destruct H as (p1 & p2 & p3 & d1 & d2 & d3 & s & -> & Hs).
  split; [reflexivity |].
  split; [apply Rleb_true; lra |].
  split; [apply Rltb_true; lra |].
  split; [| split; [| split]].
  - intros Hd. rewrite constructor_velocity.
    unfold direction, drawn_speed in *.
    cbn [Boid.vx Boid.vy Boid.vz Boid.speed JS.mul JS.sub JS.add JS.neg] in *.
    rewrite setLength_length by lra.
    destruct (Req_dec_T _ 0) as [E | E]; [| reflexivity].
    contradiction Hd. apply norm3_zero_vec. exact E.
  - intros Hd. rewrite constructor_velocity, Hd.
    unfold drawn_speed, Vector3.zero. cbn [Boid.speed JS.mul JS.add].
    rewrite setLength_fin. f_equal; f_equal; ring.
  - exists draws_fast. split.
    + unfold random, unit_interval, draws_fast.
      cbn [Boid.px Boid.py Boid.pz Boid.vx Boid.vy Boid.vz Boid.speed
           JS.le JS.lt].
      rewrite !Rleb_true, !Rltb_true by lra. reflexivity.
    + rewrite draws_fast_speed. apply Rltb_true. lra.
  - exact Hafter.
Qed.

Lemma draws_centre_random : random draws_centre = true.
Proof.
  unfold random, unit_interval, draws_centre.
  cbn [Boid.px Boid.py Boid.pz Boid.vx Boid.vy Boid.vz Boid.speed JS.le JS.lt].
  rewrite !Rleb_true, !Rltb_true by lra. reflexivity.
Qed.

Lemma initial_speed_may_exceed_maxSpeed_witness :
  let b := Boid.constructor blank_mesh draws_centre in
  Boid.maxSpeed b = JS.Fin 4
  /\ JS.le (JS.Fin 2) (drawn_speed draws_centre) = true
  /\ JS.lt (drawn_speed draws_centre) (JS.Fin 6) = true
  /\ (direction draws_centre <> Vector3.zero ->
      Vector3.length (Boid.velocity b) = drawn_speed draws_centre)
  /\ (direction draws_centre = Vector3.zero -> Boid.velocity b = Vector3.zero)
  /\ (exists r', random r' = true
        /\ JS.gt (Vector3.length (Boid.velocity (Boid.constructor blank_mesh r')))
                 (Boid.maxSpeed (Boid.constructor blank_mesh r')) = true)
  /\ JS.le (Vector3.length (Boid.velocity (Boid.update b (JS.Fin 0.1))))
           (Boid.maxSpeed b) = true.
Proof.
  apply (initial_speed_may_exceed_maxSpeed blank_mesh draws_centre (JS.Fin 0.1)).
  unfold random, unit_interval, draws_centre.
  cbn [Boid.px Boid.py Boid.pz Boid.vx Boid.vy Boid.vz Boid.speed JS.le JS.lt].
  rewrite !Rleb_true, !Rltb_true by lra. reflexivity.
Defined.

(** C10, the counterexample: seven draws of 0.5 are draws of [0, 1), and the
    boid they construct has the zero vector for velocity, whose length 0 is
    not in [2, 6). *)
Lemma initial_speed_zero_at_centre :
  let b := Boid.constructor blank_mesh draws_centre in
  random draws_centre = true
  /\ Boid.velocity b = Vector3.zero
  /\ Vector3.length (Boid.velocity b) = JS.Fin 0
  /\ JS.le (JS.Fin 2) (Vector3.length (Boid.velocity b)) = false.
Proof.
  cbv zeta.
  assert (E : Boid.velocity (Boid.constructor blank_mesh draws_centre)
              = Vector3.zero).
  { rewrite constructor_velocity. unfold direction, drawn_speed, draws_centre.
    cbn [Boid.vx Boid.vy Boid.vz Boid.speed JS.mul JS.sub JS.add JS.neg].
    rewrite setLength_fin. unfold Vector3.zero. f_equal; f_equal; lra. }
  split; [exact draws_centre_random |]. split; [exact E |]. rewrite E.
  unfold Vector3.zero. rewrite length_fin, norm3_zero.
  split; [reflexivity |]. cbn [JS.le]. unfold JS.Rleb.
  destruct (Rle_dec 2 0); [lra | reflexivity].
Qed.

(** ** Frame after frame *)

Lemma run_well_formed (frames : list (Params.t * JS.number))
    (bounds : JS.number) (g : JS.number -> JS.number -> JS.number)
    (boids : list Boid.t) :
  JS.isFinite bounds = true -> Finite.oracle g -> Forall frame_finite frames ->
  all_finite boids ->
  Forall (fun b => JS.le (JS.Fin 0) (Boid.maxSpeed b) = true) boids ->
  all_finite (Main.run frames bounds g boids)
  /\ Forall (fun b => JS.le (JS.Fin 0) (Boid.maxSpeed b) = true)
            (Main.run frames bounds g boids).
Proof.
  intros Hw Hg Hfr. revert boids.
  induction Hfr as [| [params delta] frames [Hp Hd] Hfr IH];
    intros boids Hf Hs.
  - split; assumption.
  - cbn [Main.run fold_left fst snd].
    destruct (animate_well_formed params delta bounds g Hp Hd Hw Hg boids Hf Hs)
      as [Hf' Hs'].
    apply IH; assumption.
Qed.

(** The speed bound as an invariant of the running simulation: boids built by
    the constructor from draws of [Math.random()] respect their speed limit
    after every frame, from the first frame on. *)
Lemma speed_bound_invariant (frames : list (Params.t * JS.number))
    (last : Params.t * JS.number) (bounds : JS.number)
    (g : JS.number -> JS.number -> JS.number) (boids : list Boid.t) :
  JS.isFinite bounds = true -> Finite.oracle g ->
  Forall frame_finite frames -> frame_finite last ->
  Forall (fun b => exists mesh0 r,
            random r = true /\ b = Boid.constructor mesh0 r) boids ->
  Forall (fun b => JS.le (Vector3.length (Boid.velocity b)) (Boid.maxSpeed b)
                   = true)
         (Main.run (frames ++ [last]) bounds g boids).
Proof.
  intros Hw Hg Hfr [Hp Hd] Hc.
  assert (Hf : all_finite boids).
  { eapply Forall_impl; [| exact Hc].
    intros b (mesh0 & r & Hr & ->). apply constructor_finite, Hr. }
  assert (Hs : Forall (fun b => JS.le (JS.Fin 0) (Boid.maxSpeed b) = true)
                      boids).
  { eapply Forall_impl; [| exact Hc].
    intros b (mesh0 & r & _ & ->). apply Rleb_true. lra. }
  destruct (run_well_formed frames bounds g boids Hw Hg Hfr Hf Hs) as [Hf' Hs'].
  unfold Main.run in *. rewrite fold_left_app. cbn [fold_left].
  apply speed_bound_after_frame; assumption.
Qed.

(** ** Normalising a vector of length zero *)

Lemma finite_no_NaN (v : Vector3.t) :
  Finite.vector v = true -> no_NaN v = true.
Proof.
  intros H. apply finite_vector_inv in H. destruct H as (a & b & c & ->).
  reflexivity.
Qed.

Lemma normalize_zero : Vector3.normalize Vector3.zero = Vector3.zero.
Proof.
  unfold Vector3.zero. rewrite normalize_fin. f_equal; f_equal; ring.
Qed.

Lemma setLength_zero (l : JS.number) :
  JS.isFinite l = true -> Vector3.setLength Vector3.zero l = Vector3.zero.
Proof.
  intros H. apply isFinite_inv in H. destruct H as (r & ->).
  unfold Vector3.zero. rewrite setLength_fin. f_equal; f_equal; ring.
Qed.

Lemma divideScalar_zero (count : nat) :
  (0 < count)%nat ->
  Vector3.divideScalar Vector3.zero (JS.of_nat count) = Vector3.zero.
Proof.
  intros H. unfold Vector3.zero, JS.of_nat.
  rewrite divideScalar_fin by (apply INR_pos_nonzero, H).
  f_equal; f_equal; ring.
Qed.

Lemma seek_own_position (this : Boid.t) :
  Finite.boid this = true ->
  Boid.seek this (Boid.position this)
  = Vector3.clampLength (Vector3.subVectors Vector3.zero (Boid.velocity this))
      (JS.Fin 0) (Boid.maxForce this).
Proof.
  intros Hb. apply finite_boid_shape in Hb.
  destruct Hb as (m & p1 & p2 & p3 & v1 & v2 & v3 & a1 & a2 & a3 & mf & ms & ->).
  unfold Boid.seek. cbn [Boid.position Boid.velocity Boid.maxSpeed Boid.maxForce].
  rewrite subVectors_fin, setLength_fin. f_equal.
  unfold Vector3.zero. rewrite !subVectors_fin. f_equal; f_equal; ring.
Qed.

Lemma updateMesh_at_rest (this : Boid.t) :
  Finite.vector (Boid.position this) = true ->
  Boid.velocity this = Vector3.zero ->
  Object3D.target (Boid.mesh (Boid.updateMesh this)) = Boid.position this.
Proof.
  intros Hp Hv. apply finite_vector_inv in Hp. destruct Hp as (a & b & c & E).
  unfold Boid.updateMesh, Vector3.clone.
  cbn [Boid.mesh Boid.set_mesh Object3D.lookAt Object3D.target].
  rewrite Hv, E. unfold Vector3.zero. rewrite add_fin. f_equal; f_equal; ring.
Qed.

(** *** The orientation [lookAt] computes *)

Lemma Reqb_eq (a b : R) : a = b -> JS.Reqb a b = true.
Proof.
  intros ->. unfold JS.Reqb. destruct (Req_dec_T b b); [reflexivity | lra].
Qed.

Lemma norm3_of_sumsq (a b c s : R) :
  0 <= s -> a * a + b * b + c * c = s * s -> norm3 a b c = s.
Proof.
  intros Hs E. unfold norm3. rewrite E. apply sqrt_square. exact Hs.
Qed.

Lemma vec_ext (a b c a' b' c' : R) :
  a = a' -> b = b' -> c = c' -> vec a b c = vec a' b' c'.
Proof. intros -> -> ->. reflexivity. Qed.

Lemma crossVectors_fin (a b c a' b' c' : R) :
  Vector3.crossVectors (vec a b c) (vec a' b' c')
  = vec (b * c' - c * b') (c * a' - a * c') (a * b' - b * a').
Proof. reflexivity. Qed.

(** What [normalize] returns has a squared length of at most 1. *)
Lemma normalized_sumsq (a b c : R) :
  a * (1 / guard (norm3 a b c)) * (a * (1 / guard (norm3 a b c)))
  + b * (1 / guard (norm3 a b c)) * (b * (1 / guard (norm3 a b c)))
  + c * (1 / guard (norm3 a b c)) * (c * (1 / guard (norm3 a b c)))
  <= 1.
Proof.
  pose proof (norm3_nonneg a b c) as Hn.
  pose proof (norm3_sq a b c) as Hs.
  destruct (Req_dec_T (norm3 a b c) 0) as [E | E].
  - apply norm3_zero_inv in E. destruct E as (-> & -> & ->). lra.
  - rewrite guard_of_pos by lra.
    replace (a * (1 / norm3 a b c) * (a * (1 / norm3 a b c))
             + b * (1 / norm3 a b c) * (b * (1 / norm3 a b c))
             + c * (1 / norm3 a b c) * (c * (1 / norm3 a b c)))
      with ((a * a + b * b + c * c) / (norm3 a b c * norm3 a b c))
      by (field; assumption).
    rewrite Hs. right. field. rewrite <- Hs. nra.
Qed.

(** The basis [Matrix4.lookAt] assembles from a finite [x] and a [z] of
    squared length at most 1 is finite, with diagonal entries at most 1. *)
Lemma basis_bounded (t1 t2 t3 : JS.number) (a b c z1 z2 z3 : R) :
  z1 * z1 + z2 * z2 + z3 * z3 <= 1 ->
  exists x1 y1 x2 y2 x3 y3,
    (let _x := Vector3.normalize (vec a b c) in
     let _z := vec z1 z2 z3 in
     let _y := Vector3.crossVectors _z _x in
     Matrix4.mk (Vector3.x _x) (Vector3.x _y) (Vector3.x _z) t1
                (Vector3.y _x) (Vector3.y _y) (Vector3.y _z) t2
                (Vector3.z _x) (Vector3.z _y) (Vector3.z _z) t3)
    = Matrix4.mk (JS.Fin x1) (JS.Fin y1) (JS.Fin z1) t1
                 (JS.Fin x2) (JS.Fin y2) (JS.Fin z2) t2
                 (JS.Fin x3) (JS.Fin y3) (JS.Fin z3) t3
    /\ x1 <= 1 /\ y2 <= 1 /\ z3 <= 1.
Proof.
  intros Hz. cbv zeta. rewrite normalize_fin, crossVectors_fin.
  pose proof (normalized_sumsq a b c) as Hx.
  set (g := guard (norm3 a b c)) in *.
  set (x1 := a * (1 / g)) in *. set (x2 := b * (1 / g)) in *.
  set (x3 := c * (1 / g)) in *.
  exists x1, (z2 * x3 - z3 * x2), x2, (z3 * x1 - z1 * x3), x3,
    (z1 * x2 - z2 * x1).
  split; [reflexivity |].
  pose proof (Rle_0_sqr (x1 - 1)) as S1. pose proof (Rle_0_sqr (z3 - 1)) as S2.
  pose proof (Rle_0_sqr (z3 - x1)) as S3. pose proof (Rle_0_sqr (z1 + x3)) as S4.
  pose proof (Rle_0_sqr x2). pose proof (Rle_0_sqr x3).
  pose proof (Rle_0_sqr z1). pose proof (Rle_0_sqr z2).
  pose proof (Rle_0_sqr x1). pose proof (Rle_0_sqr z3).
  unfold Rsqr in *. clearbody x1 x2 x3. repeat split; lra.
Qed.

Lemma lookAt_bounded (this : Matrix4.t) (eye target up : Vector3.t) :
  Finite.vector eye = true -> Finite.vector target = true ->
  Finite.vector up = true ->
  exists x1 y1 z1 x2 y2 z2 x3 y3 z3,
    Matrix4.lookAt this eye target up
    = Matrix4.mk (JS.Fin x1) (JS.Fin y1) (JS.Fin z1) (Matrix4.n14 this)
                 (JS.Fin x2) (JS.Fin y2) (JS.Fin z2) (Matrix4.n24 this)
                 (JS.Fin x3) (JS.Fin y3) (JS.Fin z3) (Matrix4.n34 this)
    /\ x1 <= 1 /\ y2 <= 1 /\ z3 <= 1.
Proof.
  intros He Ht Hu. apply finite_vector_inv in He, Ht, Hu.
  destruct He as (e1 & e2 & e3 & ->), Ht as (t1 & t2 & t3 & ->),
    Hu as (u1 & u2 & u3 & ->).
  unfold Matrix4.lookAt. rewrite subVectors_fin.
  assert (HZ0 : exists a b c,
            (if JS.eq (Vector3.lengthSq (vec (e1 - t1) (e2 - t2) (e3 - t3)))
                      (JS.Fin 0)
             then Vector3.set_z (vec (e1 - t1) (e2 - t2) (e3 - t3)) (JS.Fin 1)
             else vec (e1 - t1) (e2 - t2) (e3 - t3)) = vec a b c).
  { destruct (JS.eq _ _); do 3 eexists; reflexivity. }
  destruct HZ0 as (a & b & c & ->). rewrite normalize_fin.
  pose proof (normalized_sumsq a b c) as Hz.
  set (g := guard (norm3 a b c)) in *.
  set (z1 := a * (1 / g)) in *. set (z2 := b * (1 / g)) in *.
  set (z3 := c * (1 / g)) in *.
  rewrite crossVectors_fin.
  destruct (JS.eq (Vector3.lengthSq _) (JS.Fin 0)).
  - assert (HZ1 : exists a' b' c',
              (if JS.eq (JS.abs (Vector3.z (vec u1 u2 u3))) (JS.Fin 1)
               then Vector3.set_x (vec z1 z2 z3)
                      (JS.add (Vector3.x (vec z1 z2 z3)) (JS.Fin 0.0001))
               else Vector3.set_z (vec z1 z2 z3)
                      (JS.add (Vector3.z (vec z1 z2 z3)) (JS.Fin 0.0001)))
              = vec a' b' c').
    { destruct (JS.eq _ _); do 3 eexists; reflexivity. }
    destruct HZ1 as (a' & b' & c' & ->). rewrite normalize_fin.
    pose proof (normalized_sumsq a' b' c') as Hz'.
    rewrite crossVectors_fin. cbn [fst snd].
    destruct (basis_bounded (Matrix4.n14 this) (Matrix4.n24 this)
                (Matrix4.n34 this)
                (u2 * (c' * (1 / guard (norm3 a' b' c')))
                 - u3 * (b' * (1 / guard (norm3 a' b' c'))))
                (u3 * (a' * (1 / guard (norm3 a' b' c')))
                 - u1 * (c' * (1 / guard (norm3 a' b' c'))))
                (u1 * (b' * (1 / guard (norm3 a' b' c')))
                 - u2 * (a' * (1 / guard (norm3 a' b' c'))))
                _ _ _ Hz')
      as (x1 & y1 & x2 & y2 & x3 & y3 & E & B).
    exists x1, y1, (a' * (1 / guard (norm3 a' b' c'))), x2, y2,
      (b' * (1 / guard (norm3 a' b' c'))), x3, y3,
      (c' * (1 / guard (norm3 a' b' c'))).
    split; [exact E | exact B].
  - cbn [fst snd].
    destruct (basis_bounded (Matrix4.n14 this) (Matrix4.n24 this)
                (Matrix4.n34 this)
                (u2 * z3 - u3 * z2) (u3 * z1 - u1 * z3) (u1 * z2 - u2 * z1)
                _ _ _ Hz)
      as (x1 & y1 & x2 & y2 & x3 & y3 & E & B).
    exists x1, y1, z1, x2, y2, z2, x3, y3, z3.
    split; [exact E | exact B].
Qed.

(** [setFromRotationMatrix] on finite entries with a diagonal bounded by 1:
    the square root is of a positive number in each of the four branches, so
    no division is by zero. *)
Lemma setFromRotationMatrix_finite
    (x1 y1 z1 x2 y2 z2 x3 y3 z3 : R) (t1 t2 t3 : JS.number) :
  x1 <= 1 -> y2 <= 1 -> z3 <= 1 ->
  finite_quaternion
    (Quaternion.setFromRotationMatrix
       (Matrix4.mk (JS.Fin x1) (JS.Fin y1) (JS.Fin z1) t1
                   (JS.Fin x2) (JS.Fin y2) (JS.Fin z2) t2
                   (JS.Fin x3) (JS.Fin y3) (JS.Fin z3) t3)) = true.
Proof.
  intros B1 B2 B3. unfold Quaternion.setFromRotationMatrix.
  cbn [Matrix4.n11 Matrix4.n12 Matrix4.n13 Matrix4.n21 Matrix4.n22 Matrix4.n23
       Matrix4.n31 Matrix4.n32 Matrix4.n33].
  cbn [JS.add JS.sub JS.neg JS.gt JS.lt JS.mul]. unfold JS.Rltb.
  destruct (Rlt_dec 0 (x1 + y2 + z3)) as [T | T].
  - assert (Hs : 0 < sqrt (x1 + y2 + z3 + 1)) by (apply sqrt_lt_R0; lra).
    rewrite sqrt_fin by lra. rewrite div_fin by lra.
    assert (Hd : 0 < 0.5 / sqrt (x1 + y2 + z3 + 1))
      by (apply Rdiv_lt_0_compat; lra).
    rewrite div_fin by lra. reflexivity.
  - destruct (Rlt_dec y2 x1) as [C1 | C1];
      [destruct (Rlt_dec z3 x1) as [C2 | C2] |]; cbn [andb].
    + assert (Hs : 0 < sqrt (1 + x1 + - y2 + - z3))
        by (apply sqrt_lt_R0; lra).
      rewrite sqrt_fin by lra. cbn [JS.mul]. rewrite !div_fin by lra.
      reflexivity.
    + destruct (Rlt_dec z3 y2) as [C3 | C3].
      * assert (Hs : 0 < sqrt (1 + y2 + - x1 + - z3))
          by (apply sqrt_lt_R0; lra).
        rewrite sqrt_fin by lra. cbn [JS.mul]. rewrite !div_fin by lra.
        reflexivity.
      * assert (Hs : 0 < sqrt (1 + z3 + - x1 + - y2))
          by (apply sqrt_lt_R0; lra).
        rewrite sqrt_fin by lra. cbn [JS.mul]. rewrite !div_fin by lra.
        reflexivity.
    + destruct (Rlt_dec z3 y2) as [C3 | C3].
      * assert (Hs : 0 < sqrt (1 + y2 + - x1 + - z3))
          by (apply sqrt_lt_R0; lra).
        rewrite sqrt_fin by lra. cbn [JS.mul]. rewrite !div_fin by lra.
        reflexivity.
      * assert (Hs : 0 < sqrt (1 + z3 + - x1 + - y2))
          by (apply sqrt_lt_R0; lra).
        rewrite sqrt_fin by lra. cbn [JS.mul]. rewrite !div_fin by lra.
        reflexivity.
Qed.

Lemma norm3_e1 : norm3 1 0 0 = 1.
Proof. apply norm3_of_sumsq; lra. Qed.

Lemma norm3_e2 : norm3 0 1 0 = 1.
Proof. apply norm3_of_sumsq; lra. Qed.

Lemma norm3_e3 : norm3 0 0 1 = 1.
Proof. apply norm3_of_sumsq; lra. Qed.

Lemma extractRotation_identity :
  Matrix4.extractRotation Matrix4.identity = Matrix4.identity.
Proof.
  unfold Matrix4.extractRotation, Matrix4.identity.
  cbn [Matrix4.n11 Matrix4.n12 Matrix4.n13 Matrix4.n21 Matrix4.n22 Matrix4.n23
       Matrix4.n31 Matrix4.n32 Matrix4.n33].
  rewrite !length_fin, norm3_e1, norm3_e2, norm3_e3.
  rewrite div_fin by lra. cbn [JS.mul]. f_equal; f_equal; field.
Qed.

Lemma setFromRotationMatrix_identity :
  Quaternion.setFromRotationMatrix Matrix4.identity = Quaternion.identity.
Proof.
  unfold Quaternion.setFromRotationMatrix, Matrix4.identity.
  cbn [Matrix4.n11 Matrix4.n12 Matrix4.n13 Matrix4.n21 Matrix4.n22 Matrix4.n23
       Matrix4.n31 Matrix4.n32 Matrix4.n33].
  cbn [JS.add JS.sub JS.neg JS.gt JS.lt JS.mul].
  rewrite Rltb_true by lra.
  assert (Hs : sqrt (1 + 1 + 1 + 1) = 2).
  { replace (1 + 1 + 1 + 1) with (2 * 2) by ring. apply sqrt_square. lra. }
  rewrite sqrt_fin by lra. rewrite Hs. rewrite div_fin by lra.
  rewrite div_fin by lra. cbn [JS.mul].
  unfold Quaternion.identity. f_equal; f_equal; lra.
Qed.

(** The rotation of the scene is the identity; taking it off changes no
    finite quaternion. *)
Lemma premultiply_scene (q : Quaternion.t) :
  finite_quaternion q = true ->
  Quaternion.premultiply q
    (Quaternion.invert
       (Quaternion.setFromRotationMatrix
          (Matrix4.extractRotation Matrix4.identity)))
  = q.
Proof.
  intros Hq. rewrite extractRotation_identity, setFromRotationMatrix_identity.
  destruct q as [[a| | |] [b| | |] [c| | |] [d| | |]]; try discriminate.
  unfold Quaternion.premultiply, Quaternion.multiplyQuaternions,
    Quaternion.invert, Quaternion.conjugate, Quaternion.identity.
  cbn [Quaternion.x Quaternion.y Quaternion.z Quaternion.w
       JS.mul JS.add JS.sub JS.neg].
  f_equal; f_equal; ring.
Qed.

Lemma lookAt_finite (m : Object3D.t) (p : Vector3.t) :
  in_scene m -> Finite.vector (Object3D.position m) = true ->
  Finite.vector p = true ->
  finite_quaternion (Object3D.quaternion (Object3D.lookAt m p)) = true.
Proof.
  intros [Hup Hpar] Hpos Hp. unfold Object3D.lookAt, Object3D.worldPosition.
  cbn [Object3D.quaternion]. rewrite Hpar, Hup.
  apply finite_vector_inv in Hpos. destruct Hpos as (a & b & c & ->).
  destruct (lookAt_bounded Matrix4.identity p
              (Vector3.mk
                 (JS.add
                    (JS.add
                       (JS.add
                          (JS.mul (Matrix4.n11 Matrix4.identity)
                             (Vector3.x (vec a b c)))
                          (JS.mul (Matrix4.n12 Matrix4.identity)
                             (Vector3.y (vec a b c))))
                       (JS.mul (Matrix4.n13 Matrix4.identity)
                          (Vector3.z (vec a b c))))
                    (JS.mul (Matrix4.n14 Matrix4.identity) (JS.Fin 1)))
                 (JS.add
                    (JS.add
                       (JS.add
                          (JS.mul (Matrix4.n21 Matrix4.identity)
                             (Vector3.x (vec a b c)))
                          (JS.mul (Matrix4.n22 Matrix4.identity)
                             (Vector3.y (vec a b c))))
                       (JS.mul (Matrix4.n23 Matrix4.identity)
                          (Vector3.z (vec a b c))))
                    (JS.mul (Matrix4.n24 Matrix4.identity) (JS.Fin 1)))
                 (JS.add
                    (JS.add
                       (JS.add
                          (JS.mul (Matrix4.n31 Matrix4.identity)
                             (Vector3.x (vec a b c)))
                          (JS.mul (Matrix4.n32 Matrix4.identity)
                             (Vector3.y (vec a b c))))
                       (JS.mul (Matrix4.n33 Matrix4.identity)
                          (Vector3.z (vec a b c))))
                    (JS.mul (Matrix4.n34 Matrix4.identity) (JS.Fin 1))))
              Object3D.DEFAULT_UP Hp eq_refl eq_refl)
    as (x1 & y1 & z1 & x2 & y2 & z2 & x3 & y3 & z3 & E & B1 & B2 & B3).
  cbv zeta. rewrite E.
  pose proof (setFromRotationMatrix_finite x1 y1 z1 x2 y2 z2 x3 y3 z3
                (Matrix4.n14 Matrix4.identity) (Matrix4.n24 Matrix4.identity)
                (Matrix4.n34 Matrix4.identity) B1 B2 B3) as F.
  rewrite premultiply_scene by exact F. exact F.
Qed.

(** [Matrix4.lookAt] from a point to the same point, with the default up
    vector: the first guard sets the zero [_z] to the z axis, and the basis is
    the identity rotation. *)
Lemma lookAt_same (a b c a' b' c' : R) :
  a = a' -> b = b' -> c = c' ->
  Matrix4.lookAt Matrix4.identity (vec a b c) (vec a' b' c')
    Object3D.DEFAULT_UP
  = Matrix4.identity.
Proof.
  intros <- <- <-. unfold Matrix4.lookAt. rewrite subVectors_fin.
  replace (a - a) with 0 by ring. replace (b - b) with 0 by ring.
  replace (c - c) with 0 by ring.
  rewrite lengthSq_fin. cbn [JS.eq]. rewrite Reqb_eq by ring.
  unfold Vector3.set_z. cbn [Vector3.x Vector3.y].
  rewrite normalize_fin, norm3_e3, guard_of_pos by lra.
  replace (0 * (1 / 1)) with 0 by field. replace (1 * (1 / 1)) with 1 by field.
  unfold Object3D.DEFAULT_UP. rewrite crossVectors_fin, lengthSq_fin.
  cbn [JS.eq]. rewrite Reqb_false by lra. cbn [fst snd].
  replace (1 * 1 - 0 * 0) with 1 by ring.
  replace (0 * 0 - 0 * 1) with 0 by ring.
  replace (0 * 0 - 1 * 0) with 0 by ring.
  rewrite normalize_fin, norm3_e1, guard_of_pos by lra.
  replace (0 * (1 / 1)) with 0 by field. replace (1 * (1 / 1)) with 1 by field.
  rewrite crossVectors_fin. cbn [Vector3.x Vector3.y Vector3.z].
  unfold Matrix4.identity. cbn [Matrix4.n14 Matrix4.n24 Matrix4.n34].
  f_equal; f_equal; ring.
Qed.

(** A mesh in the scene that looks at the point it stands on is given the
    identity quaternion. *)
Lemma lookAt_own_position (m : Object3D.t) (a b c a' b' c' : R) :
  in_scene m -> Object3D.position m = vec a b c ->
  a' = a -> b' = b -> c' = c ->
  Object3D.quaternion (Object3D.lookAt m (vec a' b' c'))
  = Quaternion.identity.
Proof.
  intros [Hup Hpar] Hpos -> -> ->.
  unfold Object3D.lookAt, Object3D.worldPosition.
  cbn [Object3D.quaternion]. rewrite Hpar, Hup, Hpos. cbv zeta.
  unfold Matrix4.identity at 2 3 4 5 6 7 8 9 10 11 12 13.
  cbn [Matrix4.n11 Matrix4.n12 Matrix4.n13 Matrix4.n14 Matrix4.n21 Matrix4.n22
       Matrix4.n23 Matrix4.n24 Matrix4.n31 Matrix4.n32 Matrix4.n33 Matrix4.n34
       Vector3.x Vector3.y Vector3.z JS.mul JS.add].
  rewrite lookAt_same by ring.
  rewrite setFromRotationMatrix_identity.
  apply premultiply_scene. reflexivity.
Qed.

(** At zero velocity [updateMesh] has the mesh look at its own position, and
    the orientation it is left with is the identity quaternion. *)
Lemma updateMesh_orientation_at_rest (this : Boid.t) :
  in_scene (Boid.mesh this) ->
  Finite.vector (Boid.position this) = true ->
  Boid.velocity this = Vector3.zero ->
  Object3D.quaternion (Boid.mesh (Boid.updateMesh this))
  = Quaternion.identity.
Proof.
  intros Hs Hp Hv. apply finite_vector_inv in Hp. destruct Hp as (a & b & c & E).
  unfold Boid.updateMesh, Vector3.clone. cbn [Boid.mesh Boid.set_mesh].
  rewrite Hv, E. unfold Vector3.zero. rewrite add_fin.
  apply lookAt_own_position with (a := a) (b := b) (c := c);
    [exact Hs | reflexivity | ring | ring | ring].
Qed.

(** Whatever the velocity, the orientation [updateMesh] leaves is finite. *)
Lemma updateMesh_orientation_finite (this : Boid.t) :
  in_scene (Boid.mesh this) -> Finite.boid this = true ->
  finite_quaternion (Object3D.quaternion (Boid.mesh (Boid.updateMesh this)))
  = true.
Proof.
  intros Hs Hb. apply finite_boid_inv in Hb. destruct Hb as (Hp & Hv & _).
  unfold Boid.updateMesh, Vector3.clone. cbn [Boid.mesh Boid.set_mesh].
  apply lookAt_finite; [exact Hs | exact Hp | apply add_finite; assumption].
Qed.

(** [flock], [update] and [wrapBounds] leave the mesh alone. *)
Lemma mesh_before_updateMesh (boid : Boid.t) (boids : list Boid.t)
    (params : Params.t) (delta bounds : JS.number)
    (g : JS.number -> JS.number -> JS.number) :
  Boid.mesh
    (Boid.wrapBounds (Boid.update (Boid.flock boid boids params) delta)
       bounds g)
  = Boid.mesh boid.
Proof. reflexivity. Qed.

Lemma step_orientation_finite (boid : Boid.t) (boids : list Boid.t)
    (params : Params.t) (delta bounds : JS.number)
    (g : JS.number -> JS.number -> JS.number) :
  in_scene (Boid.mesh boid) ->
  Finite.boid boid = true -> all_finite boids -> Finite.params params = true ->
  JS.isFinite delta = true -> JS.isFinite bounds = true -> Finite.oracle g ->
  finite_quaternion
    (Object3D.quaternion (Boid.mesh (Main.step boid boids params delta bounds g)))
  = true.
Proof.
  intros Hs Hb Hl Hp Hd Hw Hg. unfold Main.step.
  apply updateMesh_orientation_finite.
  - rewrite mesh_before_updateMesh. exact Hs.
  - apply wrapBounds_finite; try assumption.
    apply update_finite; try assumption.
    apply flock_finite; assumption.
Qed.

(** C5.  Zero-length vectors and [NaN], for a boid, a flock, parameters, a
    frame time, a world bound and a height oracle that hold finite numbers.
    Normalising the zero vector gives the zero vector: [normalize] and
    [setLength] divide by [length || 1], so [seek] towards the boid's own
    position (desired vector exactly zero) steers by the clamped opposite of
    the velocity, the average of a velocity sum that is exactly zero is set to
    length [maxSpeed] as the zero vector, and a boid at rest has its mesh look
    at its own position.  Every vector a rule returns and every number of the
    boid's state after a step is finite, hence not [NaN].  The facing
    direction: [lookAt] from a point to the same point replaces the zero
    direction by the z axis before it normalises, so the basis it builds is
    the identity; for a mesh that is a child of the scene, [updateMesh] at
    zero velocity leaves the identity quaternion, and at any velocity the
    quaternion after [updateMesh], and after a step, holds finite numbers. *)
Theorem zero_length_vectors_yield_no_NaN
    (this : Boid.t) (boids : list Boid.t) (params : Params.t)
    (delta bounds radius l : JS.number)
    (g : JS.number -> JS.number -> JS.number) (target : Vector3.t)
    (count : nat) :
  Finite.boid this = true -> all_finite boids -> Finite.params params = true ->
  JS.isFinite delta = true -> JS.isFinite bounds = true -> Finite.oracle g ->
  Finite.vector target = true -> JS.isFinite l = true -> (0 < count)%nat ->
  let this' := Main.step this boids params delta bounds g in
  (Vector3.normalize Vector3.zero = Vector3.zero
   /\ Vector3.setLength Vector3.zero l = Vector3.zero
   /\ Vector3.setLength (Vector3.divideScalar Vector3.zero (JS.of_nat count)) l
      = Vector3.zero
   /\ Boid.seek this (Boid.position this)
      = Vector3.clampLength
          (Vector3.subVectors Vector3.zero (Boid.velocity this))
          (JS.Fin 0) (Boid.maxForce this)
   /\ (Boid.velocity this = Vector3.zero ->
       Object3D.target (Boid.mesh (Boid.updateMesh this))
       = Boid.position this))
  /\ (Finite.vector (Boid.seek this target) = true
      /\ Finite.vector (Boid.separate this boids radius) = true
      /\ Finite.vector (Boid.align this boids radius) = true
      /\ Finite.vector (Boid.cohere this boids radius) = true
      /\ Finite.boid this' = true
      /\ Finite.mesh (Boid.mesh this') = true)
  /\ (no_NaN (Boid.seek this target) = true
      /\ no_NaN (Boid.separate this boids radius) = true
      /\ no_NaN (Boid.align this boids radius) = true
      /\ no_NaN (Boid.cohere this boids radius) = true
      /\ no_NaN (Boid.position this') = true
      /\ no_NaN (Boid.velocity this') = true
      /\ no_NaN (Boid.acceleration this') = true)
  /\ (Matrix4.lookAt Matrix4.identity (Boid.position this)
        (Boid.position this) Object3D.DEFAULT_UP
      = Matrix4.identity
      /\ (in_scene (Boid.mesh this) ->
          (Boid.velocity this = Vector3.zero ->
           Object3D.quaternion (Boid.mesh (Boid.updateMesh this))
           = Quaternion.identity)
          /\ finite_quaternion
               (Object3D.quaternion (Boid.mesh (Boid.updateMesh this)))
             = true
          /\ finite_quaternion (Object3D.quaternion (Boid.mesh this'))
             = true)).
Proof.
  intros Hb Hl Hp Hd Hw Hg Ht Hlen Hc this'.
  pose proof (seek_finite this target Hb Ht) as F1.
  pose proof (separate_finite this boids radius Hb Hl) as F2.
  pose proof (align_finite this boids radius Hb Hl) as F3.
  pose proof (cohere_finite this boids radius Hb Hl) as F4.
  destruct (step_finite this boids params delta bounds g Hb Hl Hp Hd Hw Hg)
    as [F5 F6]. fold this' in F5, F6.
  pose proof (finite_boid_inv _ F5) as (G1 & G2 & G3 & _).
  pose proof (finite_boid_inv _ Hb) as (P1 & _).
  split; [| split; [| split]].
  - split; [apply normalize_zero |].
    split; [apply setLength_zero, Hlen |].
    split; [rewrite divideScalar_zero by exact Hc; apply setLength_zero, Hlen |].
    split; [apply seek_own_position, Hb |].
    apply updateMesh_at_rest. exact P1.
  - repeat split; assumption.
  - repeat split; apply finite_no_NaN; assumption.
  - split.
    + destruct (finite_vector_inv _ P1) as (a & b & c & ->).
      apply lookAt_same; reflexivity.
    + intros Hs. split; [| split].
      * apply updateMesh_orientation_at_rest; assumption.
      * apply updateMesh_orientation_finite; assumption.
      * apply step_orientation_finite; assumption.
Qed.

Lemma zero_length_vectors_yield_no_NaN_witness :
  let this := agent (vec 0 50 0) Vector3.zero in
  let other := agent (vec 5 50 0) Vector3.zero in
  let this' :=
    Main.step this [this; other] Params.initial (JS.Fin 0.1)
      Main.worldBounds flat in
  Boid.seek this (Boid.position this) = Vector3.zero
  /\ Object3D.target (Boid.mesh (Boid.updateMesh this)) = Boid.position this
  /\ no_NaN (Boid.align this [this; other] (JS.Fin 50)) = true
  /\ no_NaN (Boid.velocity this') = true
  /\ Object3D.quaternion (Boid.mesh (Boid.updateMesh this))
     = Quaternion.identity
  /\ finite_quaternion (Object3D.quaternion (Boid.mesh this')) = true.
Proof.
  pose proof (zero_length_vectors_yield_no_NaN
                (agent (vec 0 50 0) Vector3.zero)
                [agent (vec 0 50 0) Vector3.zero;
                 agent (vec 5 50 0) Vector3.zero]
                Params.initial (JS.Fin 0.1) Main.worldBounds (JS.Fin 50)
                (JS.Fin 4) flat (vec 0 50 0) 1
                eq_refl ltac:(repeat constructor) eq_refl eq_refl eq_refl
                (fun _ _ => eq_refl) eq_refl eq_refl (le_n 1)) as H.
  cbv zeta in H.
  destruct H as ((_ & _ & _ & Hseek & Hmesh) & _
                 & (_ & _ & Hal & _ & _ & Hv & _) & _ & Hq).
  destruct (Hq (conj eq_refl eq_refl)) as (Hrest & _ & Hstep).
  split; [| split; [| split; [| split; [| split]]]].
  - rewrite Hseek. unfold agent. cbn [Boid.velocity Boid.maxForce].
    unfold Vector3.zero. rewrite subVectors_fin, clampLength_fin.
    f_equal; f_equal; ring.
  - apply Hmesh. reflexivity.
  - exact Hal.
  - exact Hv.
  - apply Hrest. reflexivity.
  - exact Hstep.
Defined.

(** * Further properties of the code *)

(** ** The rules are local *)

(** A loop whose body leaves the state alone on the elements that fail a test
    may as well run over the elements that pass it. *)
Lemma fold_left_filter (A B : Type) (f : A -> B -> A) (keep : B -> bool)
    (l : list B) (a : A) :
  (forall s o, keep o = false -> f s o = s) ->
  fold_left f (filter keep l) a = fold_left f l a.
Proof.
  intros Hskip. revert a. induction l as [| o l IH]; intros a; simpl.
  - reflexivity.
  - destruct (keep o) eqn:E; simpl.
    + apply IH.
    + rewrite (Hskip a o E). apply IH.
Qed.

(** X1.  Each rule only reads the neighbours: evaluated over the whole flock
    it returns what it returns over the boids that pass [d > 0 && d < radius],
    so the boid itself and every boid at distance [radius] or more have no
    influence, whatever numbers they hold. *)
Theorem rules_read_neighbours_only
    (this : Boid.t) (boids : list Boid.t) (radius : JS.number) :
  let near other :=
    Boid.neighbour
      (Vector3.distanceTo (Boid.position this) (Boid.position other)) radius in
  Boid.separate this boids radius = Boid.separate this (filter near boids) radius
  /\ Boid.align this boids radius = Boid.align this (filter near boids) radius
  /\ Boid.cohere this boids radius
     = Boid.cohere this (filter near boids) radius.
Proof.
  intros near. unfold Boid.separate, Boid.align, Boid.cohere.
  rewrite (fold_left_filter _ _ (Boid.separate_body this radius) near)
    by (intros [steer count] o E; unfold Boid.separate_body; fold (near o);
        rewrite E; reflexivity).
  rewrite (fold_left_filter _ _ (Boid.align_body this radius) near)
    by (intros [sum count] o E; unfold Boid.align_body; fold (near o);
        rewrite E; reflexivity).
  rewrite (fold_left_filter _ _ (Boid.cohere_body this radius) near)
    by (intros [sum count] o E; unfold Boid.cohere_body; fold (near o);
        rewrite E; reflexivity).
  repeat split; reflexivity.
Qed.

(** ** The frame loop *)

(** What the loop has already written stays as it is. *)
Lemma animate_loop_prefix (done todo : list Boid.t) (params : Params.t)
    (delta bounds : JS.number) (g : JS.number -> JS.number -> JS.number) :
  exists moved,
    Main.animate_loop done todo params delta bounds g = done ++ moved
    /\ length moved = length todo.
Proof.
  revert done. induction todo as [| b rest IH]; intros done; simpl.
  - exists []. split; [symmetry; apply app_nil_r | reflexivity].
  - destruct (IH (done ++ [Main.step b (done ++ b :: rest) params delta
                             bounds g])) as (moved & E & Hlen).
    exists (Main.step b (done ++ b :: rest) params delta bounds g :: moved).
    split.
    + rewrite E, <- app_assoc. reflexivity.
    + simpl. rewrite Hlen. reflexivity.
Qed.

Lemma animate_loop_turn (done before after : list Boid.t) (boid : Boid.t)
    (params : Params.t) (delta bounds : JS.number)
    (g : JS.number -> JS.number -> JS.number) :
  exists before' after',
    Main.animate_loop done (before ++ boid :: after) params delta bounds g
    = done ++ before'
      ++ Main.step boid (done ++ before' ++ boid :: after) params delta
           bounds g
      :: after'
    /\ length before' = length before /\ length after' = length after.
Proof.
  revert done. induction before as [| b before IH]; intros done.
  - cbn [app Main.animate_loop].
    destruct (animate_loop_prefix
                (done ++ [Main.step boid (done ++ boid :: after) params delta
                            bounds g]) after params delta bounds g)
      as (moved & E & Hlen).
    exists [], moved. rewrite E, <- app_assoc. repeat split; assumption.
  - cbn [app Main.animate_loop].
    destruct (IH (done ++ [Main.step b (done ++ b :: before ++ boid :: after)
                             params delta bounds g]))
      as (before' & after' & E & Hb & Ha).
    exists (Main.step b (done ++ b :: before ++ boid :: after) params delta
              bounds g :: before'), after'.
    rewrite E, <- !app_assoc. cbn [app length]. rewrite Hb.
    repeat split; assumption.
Qed.

(** X2.  The frame loop does not double-buffer.  When a boid's turn comes,
    its rules read the boids that precede it in the array as this frame has
    already moved them, and itself and the boids that follow it as the
    previous frame left them; the array keeps its length and its order. *)
Theorem animate_reads_moved_predecessors
    (before after : list Boid.t) (boid : Boid.t) (params : Params.t)
    (delta bounds : JS.number) (g : JS.number -> JS.number -> JS.number) :
  exists before' after',
    Main.animate (before ++ boid :: after) params delta bounds g
    = before'
      ++ Main.step boid (before' ++ boid :: after) params delta bounds g
      :: after'
    /\ length before' = length before /\ length after' = length after
    /\ before'
       = firstn (length before)
           (Main.animate (before ++ boid :: after) params delta bounds g).
Proof.
  unfold Main.animate.
  destruct (animate_loop_turn [] before after boid params delta bounds g)
    as (before' & after' & E & Hb & Ha).
  cbn [app] in E. exists before', after'.
  split; [exact E |]. split; [exact Hb |]. split; [exact Ha |].
  rewrite E, <- Hb. rewrite firstn_app, firstn_all, Nat.sub_diag.
  cbn [firstn]. symmetry. apply app_nil_r.
Qed.

(** What a step leaves unchanged on its boid, the loop leaves unchanged on
    the whole array. *)
Lemma animate_loop_map (A : Type) (f : Boid.t -> A) (params : Params.t)
    (delta bounds : JS.number) (g : JS.number -> JS.number -> JS.number) :
  (forall b l, f (Main.step b l params delta bounds g) = f b) ->
  forall done todo,
    map f (Main.animate_loop done todo params delta bounds g)
    = map f (done ++ todo).
Proof.
  intros Hf done todo. revert done.
  induction todo as [| b rest IH]; intros done; simpl.
  - rewrite app_nil_r. reflexivity.
  - rewrite IH, !map_app. cbn [map]. rewrite Hf, <- app_assoc. reflexivity.
Qed.

(** X3.  The population is fixed: however many frames run, with whatever
    parameters, frame times, world bound and height oracle, the array holds
    the same number of boids, and each boid keeps its [maxForce] and its
    [maxSpeed]. *)
Theorem run_keeps_population_and_limits
    (frames : list (Params.t * JS.number)) (bounds : JS.number)
    (g : JS.number -> JS.number -> JS.number) (boids : list Boid.t) :
  length (Main.run frames bounds g boids) = length boids
  /\ map Boid.maxForce (Main.run frames bounds g boids)
     = map Boid.maxForce boids
  /\ map Boid.maxSpeed (Main.run frames bounds g boids)
     = map Boid.maxSpeed boids.
Proof.
  assert (H : map (fun b => (Boid.maxForce b, Boid.maxSpeed b))
                  (Main.run frames bounds g boids)
              = map (fun b => (Boid.maxForce b, Boid.maxSpeed b)) boids).
  { revert boids. induction frames as [| [params delta] frames IH];
      intros boids; cbn [Main.run fold_left fst snd].
    - reflexivity.
    - fold (Main.run frames bounds g
              (Main.animate boids params delta bounds g)).
      rewrite IH. unfold Main.animate. rewrite animate_loop_map; reflexivity. }
  split; [| split].
  - rewrite <- (length_map (fun b => (Boid.maxForce b, Boid.maxSpeed b))), H.
    apply length_map.
  - rewrite <- (map_map (fun b => (Boid.maxForce b, Boid.maxSpeed b)) fst), H.
    apply map_map.
  - rewrite <- (map_map (fun b => (Boid.maxForce b, Boid.maxSpeed b)) snd), H.
    apply map_map.
Qed.

(** What every step establishes holds of every boid after the frame. *)
Lemma animate_loop_forall (P : Boid.t -> Prop) (params : Params.t)
    (delta bounds : JS.number) (g : JS.number -> JS.number -> JS.number) :
  (forall b l, P (Main.step b l params delta bounds g)) ->
  forall done todo, Forall P done ->
    Forall P (Main.animate_loop done todo params delta bounds g).
Proof.
  intros Hstep done todo. revert done.
  induction todo as [| b rest IH]; intros done Hd; simpl.
  - exact Hd.
  - apply IH, Forall_app. split; [exact Hd |].
    constructor; [apply Hstep | constructor].
Qed.

(** X4.  After a frame every mesh is in sync with its boid: it sits at the
    boid's position and looks at the point [position + velocity]. *)
Theorem meshes_follow_their_boids
    (boids : list Boid.t) (params : Params.t) (delta bounds : JS.number)
    (g : JS.number -> JS.number -> JS.number) :
  Forall (fun b =>
            Object3D.position (Boid.mesh b) = Boid.position b
            /\ Object3D.target (Boid.mesh b)
               = Vector3.add (Boid.position b) (Boid.velocity b))
         (Main.animate boids params delta bounds g).
Proof.
  unfold Main.animate. apply animate_loop_forall; [| constructor].
  intros b l. split; reflexivity.
Qed.

(** ** Where boids are *)

Lemma random_inv_all (r : Boid.draws) :
  random r = true ->
  exists p1 p2 p3 d1 d2 d3 s,
    r = Boid.mkDraws (JS.Fin p1) (JS.Fin p2) (JS.Fin p3)
                     (JS.Fin d1) (JS.Fin d2) (JS.Fin d3) (JS.Fin s)
    /\ 0 <= p1 < 1 /\ 0 <= p2 < 1 /\ 0 <= p3 < 1
    /\ 0 <= d1 < 1 /\ 0 <= d2 < 1 /\ 0 <= d3 < 1 /\ 0 <= s < 1.
Proof.
  unfold random. intros H.
  apply andb_prop in H. destruct H as [H H7].
  apply andb_prop in H. destruct H as [H H6].
  apply andb_prop in H. destruct H as [H H5].
  apply andb_prop in H. destruct H as [H H4].
  apply andb_prop in H. destruct H as [H H3].
  apply andb_prop in H. destruct H as [H1 H2].
  destruct r as [a1 a2 a3 a4 a5 a6 a7]. simpl in *.
  apply unit_interval_inv in H1, H2, H3, H4, H5, H6, H7.
  destruct H1 as (p1 & -> & B1), H2 as (p2 & -> & B2), H3 as (p3 & -> & B3),
    H4 as (d1 & -> & B4), H5 as (d2 & -> & B5), H6 as (d3 & -> & B6),
    H7 as (s & -> & B7).
  exists p1, p2, p3, d1, d2, d3, s. repeat split; try reflexivity; lra.
Qed.

(** X5.  The spawn volume: for draws of [Math.random()] in [0, 1) the
    constructor places the boid at [x] and [z] in [-200, 200) and [y] in
    [50, 100), with the zero vector for acceleration and its mesh at the same
    position. *)
Theorem constructor_spawn_volume (mesh0 : Object3D.t) (r : Boid.draws) :
  random r = true ->
  let b := Boid.constructor mesh0 r in
  (exists x y z,
     Boid.position b = vec x y z
     /\ -200 <= x < 200 /\ 50 <= y < 100 /\ -200 <= z < 200)
  /\ Boid.acceleration b = Vector3.zero
  /\ Object3D.position (Boid.mesh b) = Boid.position b.
Proof.
  intros H b. subst b. apply random_inv_all in H.
  destruct H as (p1 & p2 & p3 & d1 & d2 & d3 & s & -> & B1 & B2 & B3 & _).
  split; [| split; reflexivity].
  exists (p1 * 400 - 200), (p2 * 50 + 50), (p3 * 400 - 200).
  split; [reflexivity |]. lra.
Qed.

Lemma constructor_spawn_volume_witness :
  let b := Boid.constructor blank_mesh draws_fast in
  (exists x y z,
     Boid.position b = vec x y z
     /\ -200 <= x < 200 /\ 50 <= y < 100 /\ -200 <= z < 200)
  /\ Boid.acceleration b = Vector3.zero
  /\ Object3D.position (Boid.mesh b) = Boid.position b.
Proof.
  apply (constructor_spawn_volume blank_mesh draws_fast).
  unfold random, unit_interval, draws_fast.
  cbn [Boid.px Boid.py Boid.pz Boid.vx Boid.vy Boid.vz Boid.speed JS.le JS.lt].
  rewrite !Rleb_true, !Rltb_true by lra. reflexivity.
Defined.

(** X6.  A boid is born inside the world: for draws in [0, 1), the boundary
    policy of [main.js] (world bound 300), with any height oracle, leaves the
    position of a freshly constructed boid where it is. *)
Theorem fresh_boid_is_inside_the_world
    (mesh0 : Object3D.t) (r : Boid.draws)
    (g : JS.number -> JS.number -> JS.number) :
  random r = true ->
  Boid.position (Boid.wrapBounds (Boid.constructor mesh0 r) Main.worldBounds g)
  = Boid.position (Boid.constructor mesh0 r).
Proof.
  intros H. apply random_inv_all in H.
  destruct H as (p1 & p2 & p3 & d1 & d2 & d3 & s & -> & B1 & B2 & B3 & _).
  unfold Boid.wrapBounds, Boid.constructor, Main.worldBounds.
  cbn [Boid.position Boid.px Boid.py Boid.pz JS.mul JS.add JS.sub JS.neg
       Vector3.x Vector3.y Vector3.z JS.gt JS.lt].
  rewrite (Rltb_false 300) by lra. cbn [Vector3.x JS.lt].
  rewrite (Rltb_false _ (-300)) by lra. cbn [Vector3.y JS.lt].
  rewrite (Rltb_false (300 + 50)) by lra. cbn [Vector3.z JS.lt].
  rewrite (Rltb_false 300) by lra. cbn [Vector3.z JS.lt].
  rewrite (Rltb_false _ (-300)) by lra. reflexivity.
Qed.

Lemma fresh_boid_is_inside_the_world_witness :
  Boid.position
    (Boid.wrapBounds (Boid.constructor blank_mesh draws_fast)
       Main.worldBounds flat)
  = Boid.position (Boid.constructor blank_mesh draws_fast).
Proof.
  apply (fresh_boid_is_inside_the_world blank_mesh draws_fast flat).
  unfold random, unit_interval, draws_fast.
  cbn [Boid.px Boid.py Boid.pz Boid.vx Boid.vy Boid.vz Boid.speed JS.le JS.lt].
  rewrite !Rleb_true, !Rltb_true by lra. reflexivity.
Defined.

Lemma wrapped_in_range (a w : JS.number) :
  JS.isNaN a = false -> JS.le (JS.Fin 0) w = true ->
  let a' := if JS.gt a w then JS.neg w else a in
  let a'' := if JS.lt a' (JS.neg w) then w else a' in
  JS.le (JS.neg w) a'' = true /\ JS.le a'' w = true.
Proof.
  intros Ha Hw. cbv zeta.
  destruct w as [w| | |]; try discriminate;
    destruct a as [a| | |]; try discriminate;
    try (cbn; auto; fail).
  all: apply Rleb_true_inv in Hw.
  all: cbn [JS.gt JS.lt JS.le JS.neg]; unfold JS.Rltb, JS.Rleb.
  all: repeat (match goal with
               | |- context [Rlt_dec ?u ?v] => destruct (Rlt_dec u v)
               | |- context [Rle_dec ?u ?v] => destruct (Rle_dec u v)
               end;
               cbn [JS.gt JS.lt JS.le JS.neg]; unfold JS.Rltb, JS.Rleb).
  all: split; try reflexivity; lra.
Qed.

Lemma wrapBounds_xz_in_range (this : Boid.t) (bounds : JS.number)
    (g : JS.number -> JS.number -> JS.number) :
  JS.le (JS.Fin 0) bounds = true -> no_NaN (Boid.position this) = true ->
  let p' := Boid.position (Boid.wrapBounds this bounds g) in
  JS.le (JS.neg bounds) (Vector3.x p') = true
  /\ JS.le (Vector3.x p') bounds = true
  /\ JS.le (JS.neg bounds) (Vector3.z p') = true
  /\ JS.le (Vector3.z p') bounds = true.
Proof.
  intros Hw Hn p'. subst p'. rewrite wrapBounds_x, wrapBounds_z.
  unfold no_NaN in Hn.
  apply andb_prop in Hn. destruct Hn as [Hn Hz].
  apply andb_prop in Hn. destruct Hn as [Hx _].
  apply negb_true_iff in Hx, Hz.
  destruct (wrapped_in_range _ _ Hx Hw) as [X1 X2].
  destruct (wrapped_in_range _ _ Hz Hw) as [Z1 Z2].
  repeat split; assumption.
Qed.

(** X7.  The boundary policy puts the boid back into the world: for a world
    bound that is not negative and a position without [NaN], after
    [wrapBounds] both [x] and [z] lie between [-bounds] and [bounds], and [y]
    is at most [bounds + 50] unless it is the [minY] the boid was dropped
    to. *)
Theorem wrapBounds_puts_the_boid_in_the_world
    (this : Boid.t) (bounds : JS.number)
    (g : JS.number -> JS.number -> JS.number) :
  JS.le (JS.Fin 0) bounds = true -> no_NaN (Boid.position this) = true ->
  let p := Boid.position this in
  let p' := Boid.position (Boid.wrapBounds this bounds g) in
  let minY := JS.add (g (Vector3.x p) (Vector3.z p)) (JS.Fin 10) in
  JS.le (JS.neg bounds) (Vector3.x p') = true
  /\ JS.le (Vector3.x p') bounds = true
  /\ JS.le (JS.neg bounds) (Vector3.z p') = true
  /\ JS.le (Vector3.z p') bounds = true
  /\ (JS.gt (Vector3.y p') (JS.add bounds (JS.Fin 50)) = false
      \/ Vector3.y p' = minY).
Proof.
  intros Hw Hn p p' minY. subst p p' minY.
  destruct (wrapBounds_xz_in_range this bounds g Hw Hn) as (X1 & X2 & Z1 & Z2).
  repeat split; try assumption.
  rewrite wrapBounds_y.
  destruct (JS.gt (Vector3.y (Boid.position this)) _) eqn:E;
    [right; reflexivity | left; exact E].
Qed.

Lemma wrapBounds_puts_the_boid_in_the_world_witness :
  let this := agent (vec 301 400 (-301)) (vec 3 0 0) in
  let p' := Boid.position (Boid.wrapBounds this Main.worldBounds flat) in
  JS.le (JS.neg Main.worldBounds) (Vector3.x p') = true
  /\ JS.le (Vector3.x p') Main.worldBounds = true
  /\ JS.le (JS.neg Main.worldBounds) (Vector3.z p') = true
  /\ JS.le (Vector3.z p') Main.worldBounds = true
  /\ (JS.gt (Vector3.y p') (JS.add Main.worldBounds (JS.Fin 50)) = false
      \/ Vector3.y p' = JS.add (flat (JS.Fin 301) (JS.Fin (-301))) (JS.Fin 10)).
Proof.
  apply (wrapBounds_puts_the_boid_in_the_world
           (agent (vec 301 400 (-301)) (vec 3 0 0)) Main.worldBounds flat).
  - apply Rleb_true. lra.
  - reflexivity.
Defined.

(** X8.  No teleport inside the world: a boid whose [x] and [z] lie between
    [-bounds] and [bounds] and whose [y] is at most [bounds + 50] keeps its
    position through [wrapBounds], whatever the terrain. *)
Theorem wrapBounds_keeps_a_boid_inside
    (this : Boid.t) (bounds : JS.number)
    (g : JS.number -> JS.number -> JS.number) :
  let p := Boid.position this in
  JS.le (JS.neg bounds) (Vector3.x p) = true ->
  JS.le (Vector3.x p) bounds = true ->
  JS.le (JS.neg bounds) (Vector3.z p) = true ->
  JS.le (Vector3.z p) bounds = true ->
  JS.le (Vector3.y p) (JS.add bounds (JS.Fin 50)) = true ->
  Boid.position (Boid.wrapBounds this bounds g) = p.
Proof.
  intros p X1 X2 Z1 Z2 Y. subst p.
  apply le_not_lt in X1, X2, Z1, Z2, Y.
  unfold Boid.wrapBounds. cbn [Boid.position]. unfold JS.gt.
  rewrite X2, X1, Y, Z2, Z1. reflexivity.
Qed.

Lemma wrapBounds_keeps_a_boid_inside_witness :
  Boid.position
    (Boid.wrapBounds (agent (vec 300 350 (-300)) (vec 3 0 0))
       Main.worldBounds flat)
  = vec 300 350 (-300).
Proof.
  apply (wrapBounds_keeps_a_boid_inside
           (agent (vec 300 350 (-300)) (vec 3 0 0)) Main.worldBounds flat);
    apply Rleb_true; lra.
Defined.

(** ** What the integrator does to a boid *)

Lemma norm3_clamped (a b c m : R) :
  norm3 (a * (1 / guard (norm3 a b c)) * Rmax 0 (Rmin m (norm3 a b c)))
        (b * (1 / guard (norm3 a b c)) * Rmax 0 (Rmin m (norm3 a b c)))
        (c * (1 / guard (norm3 a b c)) * Rmax 0 (Rmin m (norm3 a b c)))
  = Rmax 0 (Rmin m (norm3 a b c)).
Proof.
  pose proof (clampLength_length a b c m) as H.
  rewrite clampLength_fin, length_fin in H. injection H. trivial.
Qed.

Lemma clamp_factor_range (n m : R) :
  0 <= n -> 0 <= 1 / guard n * Rmax 0 (Rmin m n) <= 1.
Proof.
  intros Hn. pose proof (Rmax_l 0 (Rmin m n)) as Hf.
  assert (Hle : Rmax 0 (Rmin m n) <= n).
  { apply Rmax_lub; [assumption | apply Rmin_r]. }
  destruct (Req_dec_T n 0) as [E | E].
  - rewrite E in *. assert (Rmax 0 (Rmin m 0) = 0) as -> by lra. lra.
  - rewrite guard_of_pos by lra.
    assert (Hi : 0 < 1 / n) by (apply Rdiv_lt_0_compat; lra).
    split; [nra |].
    replace 1 with (1 / n * n) at 2 by (field; assumption). nra.
Qed.

(** X9.  A frame moves a boid by at most [10 * |delta| * maxSpeed]: for a
    boid holding finite numbers with a non-negative [maxSpeed] and a finite
    frame time, the distance between the position before and the position
    after [update] is at most that. *)
Theorem update_moves_at_most (this : Boid.t) (delta : JS.number) :
  Finite.boid this = true -> JS.isFinite delta = true ->
  JS.le (JS.Fin 0) (Boid.maxSpeed this) = true ->
  exists d ms dist,
    delta = JS.Fin d /\ Boid.maxSpeed this = JS.Fin ms
    /\ Vector3.distanceTo (Boid.position this)
         (Boid.position (Boid.update this delta)) = JS.Fin dist
    /\ dist <= 10 * Rabs d * ms.
Proof.
  intros Hb Hd Hs. apply finite_boid_shape in Hb.
  destruct Hb as (m & p1 & p2 & p3 & v1 & v2 & v3 & a1 & a2 & a3 & mf & ms & ->).
  apply isFinite_inv in Hd. destruct Hd as (d & ->).
  apply Rleb_true_inv in Hs. cbn [Boid.maxSpeed] in *.
  exists d, ms. eexists. split; [reflexivity |]. split; [reflexivity |].
  unfold Boid.update, Vector3.clone.
  cbn [Boid.position Boid.velocity Boid.acceleration Boid.maxSpeed].
  rewrite add_fin, clampLength_fin. cbn [JS.mul].
  rewrite multiplyScalar_fin, add_fin, distanceTo_fin.
  split; [reflexivity |].
  set (n := norm3 (v1 + a1) (v2 + a2) (v3 + a3)).
  set (c1 := (v1 + a1) * (1 / guard n) * Rmax 0 (Rmin ms n)).
  set (c2 := (v2 + a2) * (1 / guard n) * Rmax 0 (Rmin ms n)).
  set (c3 := (v3 + a3) * (1 / guard n) * Rmax 0 (Rmin ms n)).
  replace (p1 - (p1 + c1 * (d * 10))) with (c1 * (- (d * 10))) by ring.
  replace (p2 - (p2 + c2 * (d * 10))) with (c2 * (- (d * 10))) by ring.
  replace (p3 - (p3 + c3 * (d * 10))) with (c3 * (- (d * 10))) by ring.
  rewrite norm3_scale. unfold c1, c2, c3, n. rewrite norm3_clamped.
  rewrite Rabs_Ropp, Rabs_mult, (Rabs_pos_eq 10) by lra.
  assert (Hf : Rmax 0 (Rmin ms (norm3 (v1 + a1) (v2 + a2) (v3 + a3))) <= ms).
  { apply Rmax_lub; [assumption | apply Rmin_l]. }
  pose proof (Rmax_l 0 (Rmin ms (norm3 (v1 + a1) (v2 + a2) (v3 + a3)))).
  pose proof (Rabs_pos d). nra.
Qed.

Lemma update_moves_at_most_witness :
  exists d ms dist,
    JS.Fin 0.1 = JS.Fin d
    /\ Boid.maxSpeed (agent (vec 0 50 0) (vec 6 0 0)) = JS.Fin ms
    /\ Vector3.distanceTo (Boid.position (agent (vec 0 50 0) (vec 6 0 0)))
         (Boid.position
            (Boid.update (agent (vec 0 50 0) (vec 6 0 0)) (JS.Fin 0.1)))
       = JS.Fin dist
    /\ dist <= 10 * Rabs d * ms.
Proof.
  apply (update_moves_at_most (agent (vec 0 50 0) (vec 6 0 0)) (JS.Fin 0.1)).
  - reflexivity.
  - reflexivity.
  - apply Rleb_true. lra.
Defined.

(** X10.  The integrator shortens, it never turns: for a boid holding finite
    numbers with a non-negative [maxSpeed], the velocity after [update] is
    [velocity + acceleration] scaled by a factor between 0 and 1, and its
    length is the smaller of [maxSpeed] and the length of
    [velocity + acceleration]. *)
Theorem update_shortens_the_velocity (this : Boid.t) (delta : JS.number) :
  Finite.boid this = true ->
  JS.le (JS.Fin 0) (Boid.maxSpeed this) = true ->
  let w := Vector3.add (Boid.velocity this) (Boid.acceleration this) in
  let v' := Boid.velocity (Boid.update this delta) in
  Vector3.length v' = JS.min (Boid.maxSpeed this) (Vector3.length w)
  /\ exists k, 0 <= k <= 1 /\ v' = Vector3.multiplyScalar w (JS.Fin k).
Proof.
  intros Hb Hs w v'. subst w v'. apply finite_boid_shape in Hb.
  destruct Hb as (m & p1 & p2 & p3 & v1 & v2 & v3 & a1 & a2 & a3 & mf & ms & ->).
  apply Rleb_true_inv in Hs. cbn [Boid.maxSpeed] in *.
  unfold Boid.update. cbn [Boid.velocity Boid.acceleration Boid.maxSpeed].
  rewrite add_fin. pose proof (norm3_nonneg (v1 + a1) (v2 + a2) (v3 + a3)) as Hn.
  split.
  - rewrite clampLength_length, length_fin, min_fin. f_equal.
    apply Rmax_right. apply Rmin_glb; assumption.
  - rewrite clampLength_fin.
    exists (1 / guard (norm3 (v1 + a1) (v2 + a2) (v3 + a3))
            * Rmax 0 (Rmin ms (norm3 (v1 + a1) (v2 + a2) (v3 + a3)))).
    split; [apply clamp_factor_range, Hn |].
    rewrite multiplyScalar_fin. f_equal; f_equal; ring.
Qed.

Lemma update_shortens_the_velocity_witness :
  let this := agent (vec 0 50 0) (vec 6 0 0) in
  let w := Vector3.add (Boid.velocity this) (Boid.acceleration this) in
  let v' := Boid.velocity (Boid.update this (JS.Fin 0.1)) in
  Vector3.length v' = JS.min (Boid.maxSpeed this) (Vector3.length w)
  /\ exists k, 0 <= k <= 1 /\ v' = Vector3.multiplyScalar w (JS.Fin k).
Proof.
  apply (update_shortens_the_velocity (agent (vec 0 50 0) (vec 6 0 0))
           (JS.Fin 0.1)).
  - reflexivity.
  - apply Rleb_true. lra.
Defined.

Lemma lone_velocity_kept (this : Boid.t) (params : Params.t)
    (delta : JS.number) :
  Finite.boid this = true -> Finite.params params = true ->
  Boid.acceleration this = Vector3.zero ->
  JS.le (Vector3.length (Boid.velocity this)) (Boid.maxSpeed this) = true ->
  Boid.velocity (Boid.update (Boid.flock this [this] params) delta)
  = Boid.velocity this.
Proof.
  intros Hb Hp Ha Hs. unfold Boid.update. cbn [Boid.velocity].
  rewrite flock_alone, Ha.
  apply finite_boid_shape in Hb.
  destruct Hb as (m & p1 & p2 & p3 & v1 & v2 & v3 & a1 & a2 & a3 & mf & ms
                  & ->).
  apply finite_params_inv in Hp. destruct Hp as (H1 & H2 & H3).
  apply isFinite_inv in H1, H2, H3.
  destruct H1 as (ws & ->), H2 as (wa & ->), H3 as (wc & ->).
  unfold Boid.flock.
  cbn [Boid.velocity Boid.maxSpeed Boid.set_acceleration] in *.
  unfold Vector3.zero. rewrite !multiplyScalar_fin, !add_fin.
  replace (v1 + (0 + 0 * ws + 0 * wa + 0 * wc)) with v1 by ring.
  replace (v2 + (0 + 0 * ws + 0 * wa + 0 * wc)) with v2 by ring.
  replace (v3 + (0 + 0 * ws + 0 * wa + 0 * wc)) with v3 by ring.
  rewrite length_fin in Hs. apply Rleb_true_inv in Hs.
  rewrite clampLength_fin.
  pose proof (norm3_nonneg v1 v2 v3) as Hn.
  assert (Hz : norm3 v1 v2 v3 = 0 -> v1 = 0 /\ v2 = 0 /\ v3 = 0)
    by apply norm3_zero_inv.
  rewrite !clamp_keeps; try assumption; try reflexivity;
    intros E; apply Hz in E; tauto.
Qed.

(** X11.  A lone boid flies straight: with finite state, no pending
    acceleration and a speed within [maxSpeed], alone in its flock, a step
    keeps its velocity and [update] advances it by [velocity * (delta * 10)],
    for any finite weights and frame time. *)
Theorem lone_boid_flies_straight
    (this : Boid.t) (params : Params.t) (delta bounds : JS.number)
    (g : JS.number -> JS.number -> JS.number) :
  Finite.boid this = true -> Finite.params params = true ->
  JS.isFinite delta = true ->
  Boid.acceleration this = Vector3.zero ->
  JS.le (Vector3.length (Boid.velocity this)) (Boid.maxSpeed this) = true ->
  let moved := Boid.update (Boid.flock this [this] params) delta in
  Boid.velocity moved = Boid.velocity this
  /\ Boid.position moved
     = Vector3.add (Boid.position this)
         (Vector3.multiplyScalar (Boid.velocity this)
            (JS.mul delta (JS.Fin 10)))
  /\ Boid.velocity (Main.step this [this] params delta bounds g)
     = Boid.velocity this.
Proof.
  intros Hb Hp Hd Ha Hs moved.
  pose proof (lone_velocity_kept this params delta Hb Hp Ha Hs) as Hv.
  fold moved in Hv. split; [exact Hv |]. split; [| exact Hv].
  subst moved. unfold Boid.update in *. cbn [Boid.position Boid.velocity] in *.
  rewrite Hv. reflexivity.
Qed.

Lemma lone_boid_flies_straight_witness :
  let this := agent (vec 0 50 0) (vec 3 0 0) in
  let moved :=
    Boid.update (Boid.flock this [this] Params.initial) (JS.Fin 0.1) in
  Boid.velocity moved = Boid.velocity this
  /\ Boid.position moved
     = Vector3.add (Boid.position this)
         (Vector3.multiplyScalar (Boid.velocity this)
            (JS.mul (JS.Fin 0.1) (JS.Fin 10)))
  /\ Boid.velocity
       (Main.step this [this] Params.initial (JS.Fin 0.1) Main.worldBounds flat)
     = Boid.velocity this.
Proof.
  apply (lone_boid_flies_straight (agent (vec 0 50 0) (vec 3 0 0))
           Params.initial (JS.Fin 0.1) Main.worldBounds flat);
    try reflexivity.
  unfold agent. cbn [Boid.velocity Boid.maxSpeed].
  rewrite length_fin. apply Rleb_true.
  replace (norm3 3 0 0) with 3; [lra |].
  rewrite norm3_axis, Rabs_pos_eq; lra.
Defined.

(** ** What one neighbour contributes *)

(** X12.  Closer is stronger: a neighbour at distance [d] adds to the sum of
    [separate] the vector from the neighbour to the boid divided by [d * d],
    a push of length [1 / d] straight away from the neighbour, and counts for
    one. *)
Theorem separation_weighs_by_inverse_distance
    (this other : Boid.t) (radius : JS.number) (steer : Vector3.t)
    (count : nat) :
  Finite.vector (Boid.position this) = true ->
  Finite.vector (Boid.position other) = true ->
  Boid.neighbour
    (Vector3.distanceTo (Boid.position this) (Boid.position other)) radius
  = true ->
  exists d,
    Vector3.distanceTo (Boid.position this) (Boid.position other) = JS.Fin d
    /\ 0 < d
    /\ let push :=
         Vector3.multiplyScalar
           (Vector3.subVectors (Boid.position this) (Boid.position other))
           (JS.Fin (1 / (d * d))) in
       Boid.separate_body this radius (steer, count) other
       = (Vector3.add steer push, S count)
       /\ Vector3.length push = JS.Fin (1 / d).
Proof.
  intros Hp Hq Hn. unfold Boid.separate_body. rewrite Hn.
  apply finite_vector_inv in Hp, Hq.
  destruct Hp as (a & b & c & Ep), Hq as (a' & b' & c' & Eq).
  rewrite Ep, Eq in *. rewrite distanceTo_fin in *.
  pose proof (neighbour_pos _ _ Hn) as Hd.
  set (d := norm3 (a - a') (b - b') (c - c')) in *.
  exists d. split; [reflexivity |]. split; [exact Hd |]. cbv zeta.
  rewrite subVectors_fin, normalize_fin. fold d.
  rewrite guard_of_pos by exact Hd. rewrite divideScalar_fin by lra.
  rewrite multiplyScalar_fin. split.
  - f_equal. f_equal. f_equal; f_equal; field; lra.
  - rewrite length_fin, norm3_scale. fold d. f_equal.
    assert (Hi : 0 < 1 / (d * d)) by (apply Rdiv_lt_0_compat; nra).
    rewrite Rabs_pos_eq by lra. field. lra.
Qed.

Lemma separation_weighs_by_inverse_distance_witness :
  let this := agent (vec 0 50 0) Vector3.zero in
  let other := agent (vec 5 50 0) Vector3.zero in
  exists d,
    Vector3.distanceTo (Boid.position this) (Boid.position other) = JS.Fin d
    /\ 0 < d
    /\ let push :=
         Vector3.multiplyScalar
           (Vector3.subVectors (Boid.position this) (Boid.position other))
           (JS.Fin (1 / (d * d))) in
       Boid.separate_body this (JS.Fin 30) (Vector3.zero, O) other
       = (Vector3.add Vector3.zero push, 1%nat)
       /\ Vector3.length push = JS.Fin (1 / d).
Proof.
  apply (separation_weighs_by_inverse_distance
           (agent (vec 0 50 0) Vector3.zero) (agent (vec 5 50 0) Vector3.zero)
           (JS.Fin 30) Vector3.zero O); try reflexivity.
  rewrite (pair_distance 0 5 50 0 (agent (vec 0 50 0) Vector3.zero)
             (agent (vec 5 50 0) Vector3.zero) eq_refl eq_refl ltac:(lra)).
  unfold Boid.neighbour, JS.gt. cbn [JS.lt].
  rewrite !Rltb_true by lra. reflexivity.
Defined.

Lemma align_skip_self (this : Boid.t) (radius : JS.number)
    (st : Vector3.t * nat) :
  Boid.align_body this radius st this = st.
Proof.
  destruct st as [sum count]. unfold Boid.align_body.
  rewrite self_not_neighbour. reflexivity.
Qed.

Lemma cohere_skip_self (this : Boid.t) (radius : JS.number)
    (st : Vector3.t * nat) :
  Boid.cohere_body this radius st this = st.
Proof.
  destruct st as [sum count]. unfold Boid.cohere_body.
  rewrite self_not_neighbour. reflexivity.
Qed.

Lemma align_one_neighbour (this other : Boid.t) (radius : JS.number)
    (boids : list Boid.t) (w1 w2 w3 : R) :
  boids = [this; other] \/ boids = [other; this] ->
  Boid.velocity other = vec w1 w2 w3 ->
  Boid.neighbour
    (Vector3.distanceTo (Boid.position this) (Boid.position other)) radius
  = true ->
  fold_left (Boid.align_body this radius) boids (Vector3.zero, O)
  = (vec w1 w2 w3, 1%nat).
Proof.
  intros Hb Hw Hn.
  assert (E : Boid.align_body this radius (Vector3.zero, O) other
              = (vec w1 w2 w3, 1%nat)).
  { unfold Boid.align_body. rewrite Hn, Hw. unfold Vector3.zero.
    rewrite add_fin. f_equal. f_equal; f_equal; ring. }
  destruct Hb as [-> | ->]; cbn [fold_left];
    rewrite ?align_skip_self, E, ?align_skip_self; reflexivity.
Qed.

Lemma divideScalar_one (a b c : R) :
  Vector3.divideScalar (vec a b c) (JS.of_nat 1) = vec a b c.
Proof.
  unfold JS.of_nat. rewrite divideScalar_fin by (simpl; lra).
  f_equal; f_equal; simpl; field.
Qed.

(** X13.  With a single neighbour, [align] steers towards the neighbour's
    heading at full speed: it returns the neighbour's velocity set to length
    [maxSpeed], minus the boid's own velocity, clamped to [maxForce]; a boid
    that already flies that velocity gets the zero vector. *)
Theorem align_follows_the_neighbour
    (this other : Boid.t) (radius : JS.number) :
  Finite.boid this = true -> Finite.vector (Boid.velocity other) = true ->
  Boid.neighbour
    (Vector3.distanceTo (Boid.position this) (Boid.position other)) radius
  = true ->
  let heading := Vector3.setLength (Boid.velocity other) (Boid.maxSpeed this) in
  Boid.align this [this; other] radius
  = Vector3.clampLength (Vector3.sub heading (Boid.velocity this)) (JS.Fin 0)
      (Boid.maxForce this)
  /\ Boid.align this [other; this] radius = Boid.align this [this; other] radius
  /\ (Boid.velocity this = heading ->
      Boid.align this [this; other] radius = Vector3.zero).
Proof.
  intros Hb Hw Hn heading. subst heading.
  apply finite_vector_inv in Hw. destruct Hw as (w1 & w2 & w3 & Ew).
  assert (F : forall boids,
             boids = [this; other] \/ boids = [other; this] ->
             Boid.align this boids radius
             = Vector3.clampLength
                 (Vector3.sub
                    (Vector3.setLength (vec w1 w2 w3) (Boid.maxSpeed this))
                    (Boid.velocity this))
                 (JS.Fin 0) (Boid.maxForce this)).
  { intros boids Hboids. unfold Boid.align.
    rewrite (align_one_neighbour this other radius boids w1 w2 w3 Hboids Ew Hn).
    cbn [Nat.ltb Nat.leb]. rewrite divideScalar_one. reflexivity. }
  rewrite Ew. rewrite !F by auto. split; [reflexivity |].
  split; [reflexivity |]. intros Ev.
  apply finite_boid_shape in Hb.
  destruct Hb as (m & p1 & p2 & p3 & v1 & v2 & v3 & a1 & a2 & a3 & mf & ms & ->).
  cbn [Boid.velocity Boid.maxSpeed Boid.maxForce] in *.
  rewrite <- Ev, sub_fin, clampLength_fin.
  unfold Vector3.zero. f_equal; f_equal; ring.
Qed.

Lemma align_follows_the_neighbour_witness :
  let this := agent (vec 0 50 0) (vec 4 0 0) in
  let other := agent (vec 5 50 0) (vec 2 0 0) in
  Boid.align this [this; other] (JS.Fin 50) = Vector3.zero.
Proof.
  assert (Hn : Boid.neighbour
                 (Vector3.distanceTo
                    (Boid.position (agent (vec 0 50 0) (vec 4 0 0)))
                    (Boid.position (agent (vec 5 50 0) (vec 2 0 0))))
                 (JS.Fin 50) = true).
  { rewrite (pair_distance 0 5 50 0 (agent (vec 0 50 0) (vec 4 0 0))
               (agent (vec 5 50 0) (vec 2 0 0)) eq_refl eq_refl ltac:(lra)).
    unfold Boid.neighbour, JS.gt. cbn [JS.lt].
    rewrite !Rltb_true by lra. reflexivity. }
  destruct (align_follows_the_neighbour (agent (vec 0 50 0) (vec 4 0 0))
              (agent (vec 5 50 0) (vec 2 0 0)) (JS.Fin 50) eq_refl eq_refl Hn)
    as (_ & _ & H).
  apply H. unfold agent. cbn [Boid.velocity Boid.maxSpeed].
  rewrite setLength_fin. rewrite norm3_axis, Rabs_pos_eq by lra.
  rewrite guard_of_pos by lra. f_equal; f_equal; field.
Defined.

(** ** Cohesion of two boids on a line parallel to the X axis *)

Section PairCohesion.

Variables x0 x1 y0 z0 r : R.
Variables this other : Boid.t.
Hypothesis this_position : Boid.position this = vec x0 y0 z0.
Hypothesis other_position : Boid.position other = vec x1 y0 z0.
Hypothesis lower : x0 < x1.
Hypothesis within : x1 - x0 < r.

Lemma pair_neighbour :
  Boid.neighbour
    (Vector3.distanceTo (Boid.position this) (Boid.position other)) (JS.Fin r)
  = true.
Proof.
  rewrite (pair_distance x0 x1 y0 z0 this other this_position other_position
             lower).
  unfold Boid.neighbour, JS.gt. cbn [JS.lt].
  rewrite !Rltb_true by lra. reflexivity.
Qed.

Lemma pair_cohere_loop (boids : list Boid.t) :
  boids = [this; other] \/ boids = [other; this] ->
  fold_left (Boid.cohere_body this (JS.Fin r)) boids (Vector3.zero, O)
  = (vec x1 y0 z0, 1%nat).
Proof.
  intros Hb.
  assert (E : Boid.cohere_body this (JS.Fin r) (Vector3.zero, O) other
              = (vec x1 y0 z0, 1%nat)).
  { unfold Boid.cohere_body. rewrite pair_neighbour, other_position.
    unfold Vector3.zero. rewrite add_fin. f_equal. f_equal; f_equal; ring. }
  destruct Hb as [-> | ->]; cbn [fold_left];
    rewrite ?cohere_skip_self, E, ?cohere_skip_self; reflexivity.
Qed.

Variables v1 v2 v3 ms mf : R.
Hypothesis this_velocity : Boid.velocity this = vec v1 v2 v3.
Hypothesis this_maxSpeed : Boid.maxSpeed this = JS.Fin ms.
Hypothesis this_maxForce : Boid.maxForce this = JS.Fin mf.

(** The steering of [cohere] for the boid at the lower [x]: the direction
    [(1, 0, 0)] at length [maxSpeed], minus the velocity, clamped to
    [maxForce]. *)
Lemma pair_cohere (boids : list Boid.t) :
  boids = [this; other] \/ boids = [other; this] ->
  Boid.cohere this boids (JS.Fin r)
  = Vector3.clampLength (vec (ms - v1) (- v2) (- v3)) (JS.Fin 0) (JS.Fin mf).
Proof.
  intros Hb. unfold Boid.cohere. rewrite (pair_cohere_loop boids Hb).
  cbn [Nat.ltb Nat.leb]. rewrite divideScalar_one.
  unfold Boid.seek.
  rewrite this_position, this_maxSpeed, this_velocity, this_maxForce.
  rewrite subVectors_fin, setLength_fin, subVectors_fin.
  replace (y0 - y0) with 0 by ring. replace (z0 - z0) with 0 by ring.
  rewrite norm3_axis, Rabs_pos_eq by lra. rewrite guard_of_pos by lra.
  f_equal. f_equal; f_equal; field; lra.
Qed.

End PairCohesion.

Lemma clampLength_x_positive (a b c m : R) :
  0 < a -> 0 < m ->
  JS.gt (Vector3.x (Vector3.clampLength (vec a b c) (JS.Fin 0) (JS.Fin m)))
        (JS.Fin 0) = true.
Proof.
  intros Ha Hm. rewrite clampLength_fin. unfold JS.gt. cbn [Vector3.x JS.lt].
  apply Rltb_true.
  pose proof (norm3_nonneg a b c) as Hn.
  assert (Hpos : 0 < norm3 a b c).
  { destruct (Req_dec_T (norm3 a b c) 0) as [E | E]; [| lra].
    apply norm3_zero_inv in E. lra. }
  rewrite guard_of_pos by assumption.
  assert (Hf : 0 < Rmax 0 (Rmin m (norm3 a b c))).
  { rewrite Rmax_right; [apply Rmin_glb_lt; assumption |].
    apply Rmin_glb; lra. }
  assert (Hi : 0 < 1 / norm3 a b c) by (apply Rdiv_lt_0_compat; lra).
  assert (Hai : 0 < a * (1 / norm3 a b c)) by nra.
  nra.
Qed.

(** X14.  Cohesion pulls towards the neighbour: two boids on a line parallel
    to the X axis, closer than [radius]; for the boid at the lower [x], with
    a positive [maxForce] and a velocity whose [x] is less than [maxSpeed],
    [cohere] returns a vector with a positive [x], whichever of the two
    comes first in the array. *)
Theorem cohesion_pulls_together
    (x0 x1 y0 z0 r v1 v2 v3 ms mf : R) (this other : Boid.t) :
  Boid.position this = vec x0 y0 z0 ->
  Boid.position other = vec x1 y0 z0 ->
  Boid.velocity this = vec v1 v2 v3 ->
  Boid.maxSpeed this = JS.Fin ms ->
  Boid.maxForce this = JS.Fin mf ->
  x0 < x1 -> x1 - x0 < r -> 0 < mf -> v1 < ms ->
  JS.gt (Vector3.x (Boid.cohere this [this; other] (JS.Fin r))) (JS.Fin 0)
  = true
  /\ JS.gt (Vector3.x (Boid.cohere this [other; this] (JS.Fin r))) (JS.Fin 0)
     = true.
Proof.
  intros Hp Hq Hv Hs Hf Hlow Hin Hmf Hv1.
  rewrite (pair_cohere x0 x1 y0 z0 r this other Hp Hq Hlow Hin
             v1 v2 v3 ms mf Hv Hs Hf [this; other]) by (left; reflexivity).
  rewrite (pair_cohere x0 x1 y0 z0 r this other Hp Hq Hlow Hin
             v1 v2 v3 ms mf Hv Hs Hf [other; this]) by (right; reflexivity).
  split; apply clampLength_x_positive; lra.
Qed.

Lemma cohesion_pulls_together_witness :
  let a0 := agent (vec 0 50 0) Vector3.zero in
  let a1 := agent (vec 5 50 0) Vector3.zero in
  JS.gt (Vector3.x (Boid.cohere a0 [a0; a1] (JS.Fin 50))) (JS.Fin 0) = true
  /\ JS.gt (Vector3.x (Boid.cohere a0 [a1; a0] (JS.Fin 50))) (JS.Fin 0) = true.
Proof.
  apply (cohesion_pulls_together 0 5 50 0 50 0 0 0 4 0.05
           (agent (vec 0 50 0) Vector3.zero) (agent (vec 5 50 0) Vector3.zero));
    try reflexivity; lra.
Defined.

(** The clamp of a vector along the X axis. *)
Lemma clampLength_axis (a m : R) :
  0 < a -> 0 < m ->
  Vector3.clampLength (vec a 0 0) (JS.Fin 0) (JS.Fin m) = vec (Rmin m a) 0 0
  /\ Vector3.clampLength (vec (- a) 0 0) (JS.Fin 0) (JS.Fin m)
     = vec (- Rmin m a) 0 0.
Proof.
  intros Ha Hm.
  assert (Hmin : 0 < Rmin m a) by (apply Rmin_glb_lt; assumption).
  rewrite !clampLength_fin, !norm3_axis.
  rewrite Rabs_Ropp, Rabs_pos_eq by lra. rewrite guard_of_pos by lra.
  rewrite Rmax_right by lra.
  split; f_equal; f_equal; field; lra.
Qed.

(** X15.  Two boids at rest, closer than all three radii, on a line parallel
    to the X axis: separation and cohesion are opposite vectors of length
    [min(maxForce, maxSpeed)] and alignment is zero, so [flock] leaves the
    boid at the lower [x], if it had no pending acceleration, with the
    acceleration [((cohesion - separation) * min(maxForce, maxSpeed), 0, 0)]:
    the two repel exactly when the separation weight exceeds the cohesion
    weight. *)
Theorem flock_of_two_at_rest
    (x0 x1 y0 z0 ws wa wc rs ra rc ms mf : R) (this other : Boid.t) :
  Boid.position this = vec x0 y0 z0 ->
  Boid.position other = vec x1 y0 z0 ->
  Boid.velocity this = Vector3.zero -> Boid.velocity other = Vector3.zero ->
  Boid.acceleration this = Vector3.zero ->
  Boid.maxSpeed this = JS.Fin ms -> Boid.maxForce this = JS.Fin mf ->
  x0 < x1 -> x1 - x0 < rs -> x1 - x0 < ra -> x1 - x0 < rc ->
  0 < ms -> 0 < mf ->
  let params :=
    Params.mk (JS.Fin ws) (JS.Fin wa) (JS.Fin wc)
              (JS.Fin rs) (JS.Fin ra) (JS.Fin rc) in
  Boid.separate this [this; other] (JS.Fin rs) = vec (- Rmin mf ms) 0 0
  /\ Boid.align this [this; other] (JS.Fin ra) = Vector3.zero
  /\ Boid.cohere this [this; other] (JS.Fin rc) = vec (Rmin mf ms) 0 0
  /\ Boid.acceleration (Boid.flock this [this; other] params)
     = vec ((wc - ws) * Rmin mf ms) 0 0.
Proof.
  intros Hp Hq Hv Hw Ha Hs Hf Hlow Hrs Hra Hrc Hms Hmf params.
  destruct (clampLength_axis ms mf Hms Hmf) as [Cpos Cneg].
  assert (Esep : Boid.separate this [this; other] (JS.Fin rs)
                 = vec (- Rmin mf ms) 0 0).
  { rewrite (pair_separate x0 x1 y0 z0 rs this other Hp Hq Hlow Hrs
               0 0 0 ms mf Hv Hs Hf _ (or_introl eq_refl)).
    replace (- ms - 0) with (- ms) by ring. replace (- 0) with 0 by ring.
    exact Cneg. }
  assert (Ecoh : Boid.cohere this [this; other] (JS.Fin rc)
                 = vec (Rmin mf ms) 0 0).
  { rewrite (pair_cohere x0 x1 y0 z0 rc this other Hp Hq Hlow Hrc
               0 0 0 ms mf Hv Hs Hf _ (or_introl eq_refl)).
    replace (ms - 0) with ms by ring. replace (- 0) with 0 by ring.
    exact Cpos. }
  assert (Eali : Boid.align this [this; other] (JS.Fin ra) = Vector3.zero).
  { unfold Boid.align.
    rewrite (align_one_neighbour this other (JS.Fin ra) _ 0 0 0
               (or_introl eq_refl) Hw
               (pair_neighbour x0 x1 y0 z0 ra this other Hp Hq Hlow Hra)).
    cbn [Nat.ltb Nat.leb]. rewrite divideScalar_one, Hs, Hv, Hf.
    unfold Vector3.zero. rewrite setLength_fin, sub_fin, clampLength_fin.
    f_equal; f_equal; ring. }
  split; [exact Esep |]. split; [exact Eali |]. split; [exact Ecoh |].
  unfold Boid.flock. subst params.
  cbn [Boid.acceleration Boid.set_acceleration Params.separation
       Params.alignment Params.cohesion Params.separationRadius
       Params.alignmentRadius Params.cohesionRadius].
  rewrite Esep, Eali, Ecoh, Ha. unfold Vector3.zero.
  rewrite !multiplyScalar_fin, !add_fin. f_equal; f_equal; ring.
Qed.

Lemma flock_of_two_at_rest_witness :
  let a0 := agent (vec 0 50 0) Vector3.zero in
  let a1 := agent (vec 5 50 0) Vector3.zero in
  Boid.acceleration (Boid.flock a0 [a0; a1] Params.initial)
  = vec ((1 - 2) * Rmin 0.05 4) 0 0.
Proof.
  apply (flock_of_two_at_rest 0 5 50 0 2 1 1 30 50 50 4 0.05
           (agent (vec 0 50 0) Vector3.zero) (agent (vec 5 50 0) Vector3.zero));
    try reflexivity; lra.
Defined.

(** ** The force budget of [flock] *)

Lemma dot3_le (a b c a' b' c' : R) :
  a * a' + b * b' + c * c' <= norm3 a b c * norm3 a' b' c'.
Proof.
  pose proof (norm3_nonneg a b c) as Hn.
  pose proof (norm3_nonneg a' b' c') as Hn'.
  pose proof (norm3_sq a b c) as Hs.
  pose proof (norm3_sq a' b' c') as Hs'.
  destruct (Rle_dec (a * a' + b * b' + c * c') 0) as [Hneg | Hpos].
  - nra.
  - apply Rsqr_incr_0_var; [| nra]. unfold Rsqr.
    replace (norm3 a b c * norm3 a' b' c' * (norm3 a b c * norm3 a' b' c'))
      with ((norm3 a b c * norm3 a b c) * (norm3 a' b' c' * norm3 a' b' c'))
      by ring.
    rewrite Hs, Hs'.
    pose proof (Rle_0_sqr (a * b' - a' * b)).
    pose proof (Rle_0_sqr (a * c' - a' * c)).
    pose proof (Rle_0_sqr (b * c' - b' * c)).
    unfold Rsqr in *. nra.
Qed.

Lemma norm3_triangle (a b c a' b' c' : R) :
  norm3 (a + a') (b + b') (c + c') <= norm3 a b c + norm3 a' b' c'.
Proof.
  pose proof (norm3_nonneg a b c) as Hn.
  pose proof (norm3_nonneg a' b' c') as Hn'.
  apply Rsqr_incr_0_var; [| lra]. unfold Rsqr.
  rewrite norm3_sq.
  pose proof (norm3_sq a b c) as Hs.
  pose proof (norm3_sq a' b' c') as Hs'.
  pose proof (dot3_le a b c a' b' c'). nra.
Qed.

(** A finite vector that is zero or no longer than [m >= 0] has a norm of at
    most [m]. *)
Lemma bounded_steering (v : Vector3.t) (m : R) :
  Finite.vector v = true -> 0 <= m ->
  (v <> Vector3.zero -> JS.le (Vector3.length v) (JS.Fin m) = true) ->
  exists a b c, v = vec a b c /\ norm3 a b c <= m.
Proof.
  intros Hv Hm H. apply finite_vector_inv in Hv.
  destruct Hv as (a & b & c & ->). exists a, b, c. split; [reflexivity |].
  destruct (Req_dec_T (norm3 a b c) 0) as [E | E]; [lra |].
  rewrite length_fin in H. apply Rleb_true_inv, H.
  intros Z. apply E. injection Z as -> -> ->. apply norm3_zero.
Qed.

(** X16.  The force budget of [flock]: for a boid, a flock and weights
    holding finite numbers and a non-negative [maxForce], [flock] lengthens
    the acceleration by at most
    [(|separation| + |alignment| + |cohesion|) * maxForce]. *)
Theorem flock_force_budget
    (this : Boid.t) (boids : list Boid.t) (params : Params.t) :
  Finite.boid this = true -> all_finite boids -> Finite.params params = true ->
  JS.le (JS.Fin 0) (Boid.maxForce this) = true ->
  exists ws wa wc mf n n',
    Params.separation params = JS.Fin ws
    /\ Params.alignment params = JS.Fin wa
    /\ Params.cohesion params = JS.Fin wc
    /\ Boid.maxForce this = JS.Fin mf
    /\ Vector3.length (Boid.acceleration this) = JS.Fin n
    /\ Vector3.length (Boid.acceleration (Boid.flock this boids params))
       = JS.Fin n'
    /\ n' <= n + (Rabs ws + Rabs wa + Rabs wc) * mf.
Proof.
  intros Hb Hl Hp Hf.
  pose proof (finite_boid_inv _ Hb) as (_ & _ & Ha & Hmf & _).
  apply isFinite_inv in Hmf. destruct Hmf as (mf & Emf).
  rewrite Emf in Hf. apply Rleb_true_inv in Hf.
  apply finite_params_inv in Hp. destruct Hp as (H1 & H2 & H3).
  apply isFinite_inv in H1, H2, H3.
  destruct H1 as (ws & E1), H2 as (wa & E2), H3 as (wc & E3).
  apply finite_vector_inv in Ha. destruct Ha as (a1 & a2 & a3 & Ea).
  destruct (bounded_steering
              (Boid.separate this boids (Params.separationRadius params)) mf
              (separate_finite this boids _ Hb Hl) Hf)
    as (s1 & s2 & s3 & Es & Ns).
  { rewrite <- Emf. apply separate_force_le; assumption. }
  destruct (bounded_steering
              (Boid.align this boids (Params.alignmentRadius params)) mf
              (align_finite this boids _ Hb Hl) Hf)
    as (l1 & l2 & l3 & El & Nl).
  { rewrite <- Emf. apply align_force_le; assumption. }
  destruct (bounded_steering
              (Boid.cohere this boids (Params.cohesionRadius params)) mf
              (cohere_finite this boids _ Hb Hl) Hf)
    as (c1 & c2 & c3 & Ec & Nc).
  { rewrite <- Emf. apply cohere_force_le; assumption. }
  exists ws, wa, wc, mf. eexists. eexists.
  split; [exact E1 |]. split; [exact E2 |]. split; [exact E3 |].
  split; [exact Emf |].
  unfold Boid.flock. cbn [Boid.acceleration Boid.set_acceleration].
  rewrite Es, El, Ec, E1, E2, E3, Ea.
  rewrite !multiplyScalar_fin, !add_fin, !length_fin.
  split; [reflexivity |]. split; [reflexivity |].
  pose proof (norm3_triangle (a1 + s1 * ws + l1 * wa) (a2 + s2 * ws + l2 * wa)
                (a3 + s3 * ws + l3 * wa) (c1 * wc) (c2 * wc) (c3 * wc)) as T3.
  pose proof (norm3_triangle (a1 + s1 * ws) (a2 + s2 * ws) (a3 + s3 * ws)
                (l1 * wa) (l2 * wa) (l3 * wa)) as T2.
  pose proof (norm3_triangle a1 a2 a3 (s1 * ws) (s2 * ws) (s3 * ws)) as T1.
  rewrite norm3_scale in T1, T2, T3.
  pose proof (Rabs_pos ws). pose proof (Rabs_pos wa). pose proof (Rabs_pos wc).
  pose proof (norm3_nonneg s1 s2 s3). pose proof (norm3_nonneg l1 l2 l3).
  pose proof (norm3_nonneg c1 c2 c3).
  nra.
Qed.

Lemma flock_force_budget_witness :
  let this := agent (vec 0 50 0) (vec 3 0 0) in
  let other := agent (vec 5 50 0) (vec 0 0 1) in
  exists ws wa wc mf n n',
    Params.separation Params.initial = JS.Fin ws
    /\ Params.alignment Params.initial = JS.Fin wa
    /\ Params.cohesion Params.initial = JS.Fin wc
    /\ Boid.maxForce this = JS.Fin mf
    /\ Vector3.length (Boid.acceleration this) = JS.Fin n
    /\ Vector3.length
         (Boid.acceleration (Boid.flock this [this; other] Params.initial))
       = JS.Fin n'
    /\ n' <= n + (Rabs ws + Rabs wa + Rabs wc) * mf.
Proof.
  apply (flock_force_budget (agent (vec 0 50 0) (vec 3 0 0))
           [agent (vec 0 50 0) (vec 3 0 0); agent (vec 5 50 0) (vec 0 0 1)]
           Params.initial).
  - reflexivity.
  - repeat constructor.
  - reflexivity.
  - apply Rleb_true. lra.
Defined.

(** ** The terrain of [main.js] *)

(** X17.  [getGroundHeight] is a total height oracle: it answers 0 as long
    as there is no terrain and where the ray hits nothing, the height of the
    nearest hit otherwise; provided the raycaster reports finite points, it
    answers every query with a finite number, which is what the boundary
    policy needs of its oracle. *)
Theorem getGroundHeight_is_a_finite_oracle
    (T : Type) (terrainMesh : option T)
    (intersectObject : Vector3.t -> Vector3.t -> T -> list Vector3.t) :
  (forall origin direction terrain point,
     In point (intersectObject origin direction terrain) ->
     Finite.vector point = true) ->
  Finite.oracle (Main.getGroundHeight T terrainMesh intersectObject)
  /\ (forall x z, Main.getGroundHeight T None intersectObject x z = JS.Fin 0)
  /\ (forall terrain x z,
        intersectObject (Vector3.mk x (JS.Fin 500) z) Main.downVector terrain
        = [] ->
        Main.getGroundHeight T (Some terrain) intersectObject x z = JS.Fin 0)
  /\ (forall terrain x z point rest,
        intersectObject (Vector3.mk x (JS.Fin 500) z) Main.downVector terrain
        = point :: rest ->
        Main.getGroundHeight T (Some terrain) intersectObject x z
        = Vector3.y point).
Proof.
  intros Hfin. split; [| split; [| split]].
  - intros a b. unfold Main.getGroundHeight.
    destruct terrainMesh as [terrain |]; [| reflexivity].
    destruct (intersectObject _ _ terrain) as [| point rest] eqn:E;
      [reflexivity |].
    assert (Hp : Finite.vector point = true).
    { apply (Hfin (Vector3.mk (JS.Fin a) (JS.Fin 500) (JS.Fin b))
               Main.downVector terrain). rewrite E. left. reflexivity. }
    apply finite_vector_inv in Hp. destruct Hp as (p1 & p2 & p3 & ->).
    reflexivity.
  - reflexivity.
  - intros terrain x z E. unfold Main.getGroundHeight. rewrite E. reflexivity.
  - intros terrain x z point rest E. unfold Main.getGroundHeight.
    rewrite E. reflexivity.
Qed.

Lemma getGroundHeight_is_a_finite_oracle_witness :
  Finite.oracle
    (Main.getGroundHeight unit (Some tt) (fun _ _ _ => [vec 0 12 0])).
Proof.
  apply (getGroundHeight_is_a_finite_oracle unit (Some tt)
           (fun _ _ _ => [vec 0 12 0])).
  intros origin direction terrain point [<- | []]. reflexivity.
Defined.

(** X18.  The terrain stays within 53 units of height 0: with a noise
    function that returns numbers of [-1, 1], the three layers of
    [createTerrain] (amplitudes 40, 10 and 3) give every vertex a height
    between -53 and 53. *)
Theorem terrain_height_is_bounded
    (noise3D : JS.number -> JS.number -> JS.number -> JS.number) (x z : R) :
  (forall a b c : R,
     exists n, noise3D (JS.Fin a) (JS.Fin b) (JS.Fin c) = JS.Fin n
               /\ -1 <= n <= 1) ->
  exists h, Main.terrainHeight noise3D (JS.Fin x) (JS.Fin z) = JS.Fin h
            /\ -53 <= h <= 53.
Proof.
  intros Hn. unfold Main.terrainHeight. cbn [JS.mul].
  destruct (Hn (x * 0.005) (z * 0.005) 0) as (n1 & -> & B1).
  destruct (Hn (x * 0.015) (z * 0.015) 0) as (n2 & -> & B2).
  destruct (Hn (x * 0.03) (z * 0.03) 0) as (n3 & -> & B3).
  cbn [JS.mul JS.add]. eexists. split; [reflexivity |]. lra.
Qed.

Lemma terrain_height_is_bounded_witness :
  exists h, Main.terrainHeight (fun _ _ _ => JS.Fin 1) (JS.Fin 0) (JS.Fin 0)
            = JS.Fin h
            /\ -53 <= h <= 53.
Proof.
  apply (terrain_height_is_bounded (fun _ _ _ => JS.Fin 1) 0 0).
  intros a b c. exists 1. split; [reflexivity | lra].
Defined.

(** ** The bird camera of [main.js] *)

Lemma lerp_fin (a b c a' b' c' t : R) :
  Vector3.lerp (vec a b c) (vec a' b' c') (JS.Fin t)
  = vec (a + (a' - a) * t) (b + (b' - b) * t) (c + (c' - c) * t).
Proof. reflexivity. Qed.



(** X20.  The first look: while [userData.lookAtTarget] is undefined,
    [updateBirdCamera] on a bird holding finite numbers, with a finite frame
    time, makes the camera look exactly at the look-ahead point and stores
    it; that point lies 10 units from the bird along its velocity (it is the
    bird's position plus a positive multiple of the velocity, at distance
    10), and is the bird's own position when the bird is at rest. *)
Theorem camera_first_look
    (applyQuaternion : Vector3.t -> Vector3.t) (targetBoid : Boid.t)
    (birdCamera : Main.camera) (delta : JS.number) :
  Finite.boid targetBoid = true -> JS.isFinite delta = true ->
  Main.lookAtTarget birdCamera = None ->
  let camera' :=
    Main.updateBirdCamera applyQuaternion targetBoid birdCamera delta in
  Main.camera_target camera' = Main.lookAtPos targetBoid
  /\ Main.lookAtTarget camera' = Some (Main.lookAtPos targetBoid)
  /\ (Boid.velocity targetBoid <> Vector3.zero ->
      Vector3.distanceTo (Boid.position targetBoid) (Main.lookAtPos targetBoid)
      = JS.Fin 10
      /\ exists k : R,
          0 < k
          /\ Main.lookAtPos targetBoid
             = Vector3.add (Boid.position targetBoid)
                 (Vector3.multiplyScalar (Boid.velocity targetBoid) (JS.Fin k)))
  /\ (Boid.velocity targetBoid = Vector3.zero ->
      Main.lookAtPos targetBoid = Boid.position targetBoid).
Proof.
  intros Hb Hd Hnone camera'. subst camera'.
  apply finite_boid_shape in Hb.
  destruct Hb as (m & p1 & p2 & p3 & v1 & v2 & v3 & a1 & a2 & a3 & mf & ms & ->).
  apply isFinite_inv in Hd. destruct Hd as (d & ->).
  unfold Main.updateBirdCamera. rewrite Hnone.
  cbn [Main.camera_target Main.lookAtTarget].
  unfold Main.lookAtPos, Vector3.clone. cbn [Boid.position Boid.velocity].
  rewrite normalize_fin, multiplyScalar_fin, add_fin. cbn [JS.mul].
  rewrite lerp_fin.
  set (n := norm3 v1 v2 v3).
  assert (E : vec (p1 + v1 * (1 / guard n) * 10
                   + (p1 + v1 * (1 / guard n) * 10
                      - (p1 + v1 * (1 / guard n) * 10)) * (d * 2))
                  (p2 + v2 * (1 / guard n) * 10
                   + (p2 + v2 * (1 / guard n) * 10
                      - (p2 + v2 * (1 / guard n) * 10)) * (d * 2))
                  (p3 + v3 * (1 / guard n) * 10
                   + (p3 + v3 * (1 / guard n) * 10
                      - (p3 + v3 * (1 / guard n) * 10)) * (d * 2))
              = vec (p1 + v1 * (1 / guard n) * 10)
                    (p2 + v2 * (1 / guard n) * 10)
                    (p3 + v3 * (1 / guard n) * 10))
    by (f_equal; f_equal; ring).
  rewrite E. split; [reflexivity |]. split; [reflexivity |].
  pose proof (norm3_nonneg v1 v2 v3) as Hn. fold n in Hn. split.
  - intros Hv.
    assert (Hpos : 0 < n).
    { destruct (Req_dec_T n 0) as [Z | Z]; [| lra].
      contradiction Hv. apply norm3_zero_vec. exact Z. }
    assert (Hi : 0 < 10 / n) by (apply Rdiv_lt_0_compat; lra).
    rewrite guard_of_pos by exact Hpos. split.
    + rewrite distanceTo_fin. f_equal.
      replace (p1 - (p1 + v1 * (1 / n) * 10)) with (v1 * (- (10 / n)))
        by (field; lra).
      replace (p2 - (p2 + v2 * (1 / n) * 10)) with (v2 * (- (10 / n)))
        by (field; lra).
      replace (p3 - (p3 + v3 * (1 / n) * 10)) with (v3 * (- (10 / n)))
        by (field; lra).
      rewrite norm3_scale. fold n. rewrite Rabs_Ropp.
      rewrite Rabs_pos_eq by lra. field. lra.
    + exists (10 / n). split; [exact Hi |].
      rewrite multiplyScalar_fin, add_fin. f_equal; f_equal; field; lra.
  - intros Hv. injection Hv as -> -> ->. f_equal; f_equal; ring.
Qed.

Lemma camera_first_look_witness :
  let boid := agent (vec 0 50 0) (vec 3 0 0) in
  let cam := Main.mkCamera (vec 0 150 200) None Vector3.zero in
  let camera' := Main.updateBirdCamera (fun v => v) boid cam (JS.Fin 0.1) in
  Main.camera_target camera' = Main.lookAtPos boid
  /\ Vector3.distanceTo (Boid.position boid) (Main.lookAtPos boid) = JS.Fin 10
  /\ exists k : R,
       0 < k
       /\ Main.lookAtPos boid
          = Vector3.add (Boid.position boid)
              (Vector3.multiplyScalar (Boid.velocity boid) (JS.Fin k)).
Proof.
  destruct (camera_first_look (fun v => v) (agent (vec 0 50 0) (vec 3 0 0))
              (Main.mkCamera (vec 0 150 200) None Vector3.zero) (JS.Fin 0.1)
              eq_refl eq_refl eq_refl) as (H1 & _ & H3 & _).
  split; [exact H1 |]. apply H3.
  unfold agent, Vector3.zero. cbn [Boid.velocity]. intros E.
  injection E. lra.
Defined.

(** ** The floor bias, one tick later *)

(** X21.  The floor bias acts with a lag of one tick.  A lone boid with
    finite state, no pending acceleration and a speed within [maxSpeed],
    that its first step moves to below [minY]: the first step keeps its
    velocity and leaves it the acceleration [(0, 0.8, 0)]; the second step
    gives it the velocity [velocity + (0, 0.8, 0)] clamped to [maxSpeed]. *)
Theorem floor_bias_acts_one_tick_later
    (this : Boid.t) (params1 params2 : Params.t)
    (delta1 delta2 bounds : JS.number)
    (g : JS.number -> JS.number -> JS.number) :
  Finite.boid this = true ->
  Finite.params params1 = true -> Finite.params params2 = true ->
  Boid.acceleration this = Vector3.zero ->
  JS.le (Vector3.length (Boid.velocity this)) (Boid.maxSpeed this) = true ->
  let moved := Boid.update (Boid.flock this [this] params1) delta1 in
  let first := Main.step this [this] params1 delta1 bounds g in
  let second := Main.step first [first] params2 delta2 bounds g in
  JS.lt (Vector3.y (Boid.position moved))
        (JS.add (g (Vector3.x (Boid.position moved))
                   (Vector3.z (Boid.position moved))) (JS.Fin 10)) = true ->
  Boid.velocity first = Boid.velocity this
  /\ Boid.acceleration first = vec 0 0.8 0
  /\ Boid.velocity second
     = Vector3.clampLength
         (Vector3.add (Boid.velocity this) (vec 0 0.8 0)) (JS.Fin 0)
         (Boid.maxSpeed this).
Proof.
  intros Hb Hp1 Hp2 Ha Hs moved first second Hbelow.
  assert (Hv : Boid.velocity first = Boid.velocity this)
    by exact (lone_velocity_kept this params1 delta1 Hb Hp1 Ha Hs).
  assert (Hacc : Boid.acceleration first = vec 0 0.8 0).
  { subst first. rewrite step_acceleration, wrapBounds_acceleration.
    fold moved. rewrite Hbelow. subst moved.
    rewrite update_acceleration; [apply raised_zero |].
    pose proof (flock_finite this [this] params1 Hb
                  ltac:(repeat constructor; exact Hb) Hp1) as Hf.
    apply finite_boid_inv in Hf. tauto. }
  split; [exact Hv |]. split; [exact Hacc |].
  change (Boid.velocity second)
    with (Vector3.clampLength
            (Vector3.add (Boid.velocity first)
               (Boid.acceleration (Boid.flock first [first] params2)))
            (JS.Fin 0) (Boid.maxSpeed this)).
  rewrite flock_alone, Hacc, Hv.
  apply finite_boid_inv in Hb. destruct Hb as (_ & Hvel & _).
  apply finite_vector_inv in Hvel. destruct Hvel as (v1 & v2 & v3 & ->).
  apply finite_params_inv in Hp2. destruct Hp2 as (H1 & H2 & H3).
  apply isFinite_inv in H1, H2, H3.
  destruct H1 as (ws & ->), H2 as (wa & ->), H3 as (wc & ->).
  unfold Vector3.zero. rewrite !multiplyScalar_fin, !add_fin.
  f_equal. f_equal; f_equal; ring.
Qed.

Lemma floor_bias_acts_one_tick_later_witness :
  let this := agent (vec 0 5 0) Vector3.zero in
  let first :=
    Main.step this [this] Params.initial (JS.Fin 0.1) Main.worldBounds flat in
  let second :=
    Main.step first [first] Params.initial (JS.Fin 0.1) Main.worldBounds flat in
  Boid.velocity first = Vector3.zero
  /\ Boid.acceleration first = vec 0 0.8 0
  /\ Boid.velocity second
     = Vector3.clampLength (Vector3.add Vector3.zero (vec 0 0.8 0)) (JS.Fin 0)
         (JS.Fin 4).
Proof.
  apply (floor_bias_acts_one_tick_later (agent (vec 0 5 0) Vector3.zero)
           Params.initial Params.initial (JS.Fin 0.1) (JS.Fin 0.1)
           Main.worldBounds flat); try reflexivity.
  - unfold agent, Vector3.zero. cbn [Boid.velocity Boid.maxSpeed].
    rewrite length_fin, norm3_zero. apply Rleb_true. lra.
  - unfold Boid.update. rewrite flock_alone.
    unfold Boid.flock, agent, flat, Params.initial, Vector3.zero, Vector3.clone.
    cbn [Boid.position Boid.velocity Boid.acceleration Boid.maxSpeed
         Boid.set_acceleration Params.separation Params.alignment
         Params.cohesion].
    rewrite !multiplyScalar_fin, !add_fin, clampLength_fin.
    cbn [JS.mul]. rewrite multiplyScalar_fin, add_fin.
    cbn [Vector3.x Vector3.y Vector3.z JS.add JS.lt].
    apply Rltb_true.
    match goal with
    | |- 5 + ?v * ?k < _ => replace v with 0 by ring
    end.
    lra.
Defined.

(** ** The trees of [main.js] *)

(** X22.  Every tree stands inside the world, on the ground: for draws of
    [Math.random()] in [0, 1) and a finite height oracle, [createVegetation]
    plants a tree at [x] and [z] in [-300, 300), with a scale in
    [0.75, 1.25), its trunk [4 * scale] and its leaves [12 * scale] above the
    ground height at [(x, z)]. *)
Theorem trees_stand_inside_the_world
    (g : JS.number -> JS.number -> JS.number) (r1 r2 r3 : JS.number) :
  Finite.oracle g ->
  unit_interval r1 = true -> unit_interval r2 = true ->
  unit_interval r3 = true ->
  exists x z s h,
    g (JS.Fin x) (JS.Fin z) = JS.Fin h
    /\ Main.plantTree g r1 r2 r3
       = Main.mkTree (vec x (h + 4 * s) z) (vec x (h + 12 * s) z) (JS.Fin s)
    /\ -300 <= x < 300 /\ -300 <= z < 300 /\ 0.75 <= s < 1.25.
Proof.
  intros Hg H1 H2 H3. apply unit_interval_inv in H1, H2, H3.
  destruct H1 as (a & -> & Ba), H2 as (b & -> & Bb), H3 as (c & -> & Bc).
  unfold Main.plantTree, Main.worldBounds.
  cbn [JS.mul JS.sub JS.add JS.neg].
  destruct (isFinite_inv _ (Hg (a * 300 * 2 + - (300)) (b * 300 * 2 + - (300))))
    as (h & Eh).
  exists (a * 300 * 2 + - (300)), (b * 300 * 2 + - (300)), (c * 0.5 + 0.75), h.
  rewrite Eh. cbn [JS.mul JS.add].
  split; [reflexivity |]. split; [reflexivity |]. lra.
Qed.

Lemma trees_stand_inside_the_world_witness :
  exists x z s h,
    flat (JS.Fin x) (JS.Fin z) = JS.Fin h
    /\ Main.plantTree flat (JS.Fin 0.5) (JS.Fin 0.5) (JS.Fin 0.5)
       = Main.mkTree (vec x (h + 4 * s) z) (vec x (h + 12 * s) z) (JS.Fin s)
    /\ -300 <= x < 300 /\ -300 <= z < 300 /\ 0.75 <= s < 1.25.
Proof.
  apply (trees_stand_inside_the_world flat (JS.Fin 0.5) (JS.Fin 0.5)
           (JS.Fin 0.5)).
  - intros a b. reflexivity.
  - unfold unit_interval. cbn [JS.le JS.lt].
    rewrite Rleb_true, Rltb_true by lra. reflexivity.
  - unfold unit_interval. cbn [JS.le JS.lt].
    rewrite Rleb_true, Rltb_true by lra. reflexivity.
  - unfold unit_interval. cbn [JS.le JS.lt].
    rewrite Rleb_true, Rltb_true by lra. reflexivity.
Defined.

(** ** The running simulation *)

Lemma run_length (frames : list (Params.t * JS.number)) (bounds : JS.number)
    (g : JS.number -> JS.number -> JS.number) (boids : list Boid.t) :
  length (Main.run frames bounds g boids) = length boids.
Proof.
  revert boids. induction frames as [| [params delta] frames IH];
    intros boids; cbn [Main.run fold_left fst snd].
  - reflexivity.
  - fold (Main.run frames bounds g (Main.animate boids params delta bounds g)).
    rewrite IH. unfold Main.animate.
    rewrite <- (length_map (fun _ => tt)), animate_loop_map by reflexivity.
    apply length_map.
Qed.

(** What a step keeps, for finite parameters and frame times, frames keep,
    along with the finiteness of the boids. *)
Lemma run_keeps (Q : Boid.t -> Prop) (bounds : JS.number)
    (g : JS.number -> JS.number -> JS.number) :
  JS.isFinite bounds = true -> Finite.oracle g ->
  (forall b l params delta,
     Q b -> Q (Main.step b l params delta bounds g)) ->
  forall frames boids,
    Forall frame_finite frames -> all_finite boids -> Forall Q boids ->
    all_finite (Main.run frames bounds g boids)
    /\ Forall Q (Main.run frames bounds g boids).
Proof.
  intros Hw Hg Hstep frames boids Hfr. revert boids.
  induction Hfr as [| [params delta] frames [Hp Hd] Hfr IH];
    intros boids Hf HQ.
  - split; assumption.
  - cbn [Main.run fold_left fst snd]. cbn [fst snd] in Hp, Hd. apply IH.
    + apply animate_loop_finite; try assumption. constructor.
    + unfold Main.animate.
      apply animate_loop_post with (Q := Q); try assumption;
        try constructor.
      intros b l _ Hq _. apply Hstep, Hq.
Qed.

(** X23.  The invariant of the running simulation.  Boids built by the
    constructor from draws of [Math.random()] in [0, 1), run for one frame
    or more with finite weights, radii and frame times, a finite world bound
    that is not negative and a finite height oracle: the array keeps its
    length, and every boid holds finite numbers, keeps [maxSpeed = 4] and
    [maxForce = 0.05], flies at a speed of at most 4 and has its [x] and [z]
    between [-bounds] and [bounds]. *)
Theorem simulation_invariant
    (frames : list (Params.t * JS.number)) (last : Params.t * JS.number)
    (w : R) (g : JS.number -> JS.number -> JS.number) (boids : list Boid.t) :
  0 <= w -> Finite.oracle g ->
  Forall frame_finite frames -> frame_finite last ->
  Forall (fun b => exists mesh0 r,
            random r = true /\ b = Boid.constructor mesh0 r) boids ->
  let after := Main.run (frames ++ [last]) (JS.Fin w) g boids in
  length after = length boids
  /\ Forall (fun b =>
               Finite.boid b = true
               /\ Boid.maxSpeed b = JS.Fin 4 /\ Boid.maxForce b = JS.Fin 0.05
               /\ JS.le (Vector3.length (Boid.velocity b)) (JS.Fin 4) = true
               /\ JS.le (JS.Fin (- w)) (Vector3.x (Boid.position b)) = true
               /\ JS.le (Vector3.x (Boid.position b)) (JS.Fin w) = true
               /\ JS.le (JS.Fin (- w)) (Vector3.z (Boid.position b)) = true
               /\ JS.le (Vector3.z (Boid.position b)) (JS.Fin w) = true)
            after.
Proof.
  intros Hw Hg Hfr [Hp Hd] Hc after. subst after.
  split; [apply run_length |].
  assert (Hf : all_finite boids).
  { eapply Forall_impl; [| exact Hc].
    intros b (mesh0 & r & Hr & ->). apply constructor_finite, Hr. }
  assert (HQ : Forall (fun b => Boid.maxSpeed b = JS.Fin 4
                                /\ Boid.maxForce b = JS.Fin 0.05) boids).
  { eapply Forall_impl; [| exact Hc].
    intros b (mesh0 & r & _ & ->). split; reflexivity. }
  destruct (run_keeps
              (fun b => Boid.maxSpeed b = JS.Fin 4
                        /\ Boid.maxForce b = JS.Fin 0.05)
              (JS.Fin w) g eq_refl Hg (fun b l params delta H => H)
              frames boids Hfr Hf HQ) as [Hf' HQ'].
  unfold Main.run in *. rewrite fold_left_app. cbn [fold_left].
  destruct last as [params delta]. cbn [fst snd] in *.
  unfold Main.animate.
  apply animate_loop_post
    with (Q := fun b => Boid.maxSpeed b = JS.Fin 4
                        /\ Boid.maxForce b = JS.Fin 0.05);
    try assumption; try reflexivity; try apply Forall_nil.
  intros b l Hb [Hms Hmf] Hl.
  pose proof (flock_finite b l params Hb Hl Hp) as Hflock.
  pose proof (update_finite _ delta Hflock Hd) as Hupd.
  destruct (step_finite b l params delta (JS.Fin w) g Hb Hl Hp Hd eq_refl Hg)
    as [Hstep _].
  split; [exact Hstep |]. split; [exact Hms |]. split; [exact Hmf |].
  split.
  - change (JS.le (Vector3.length
                     (Boid.velocity
                        (Boid.update (Boid.flock b l params) delta)))
                  (JS.Fin 4) = true).
    rewrite <- Hms.
    change (Boid.maxSpeed b) with (Boid.maxSpeed (Boid.flock b l params)).
    apply update_speed_le; [exact Hflock |].
    cbn [Boid.flock Boid.maxSpeed Boid.set_acceleration]. rewrite Hms.
    apply Rleb_true. lra.
  - change (Boid.position (Main.step b l params delta (JS.Fin w) g))
      with (Boid.position
              (Boid.wrapBounds (Boid.update (Boid.flock b l params) delta)
                 (JS.Fin w) g)).
    apply (wrapBounds_xz_in_range
             (Boid.update (Boid.flock b l params) delta) (JS.Fin w) g).
    + apply Rleb_true. exact Hw.
    + apply finite_no_NaN. apply finite_boid_inv in Hupd. tauto.
Qed.

Lemma simulation_invariant_witness :
  let after :=
    Main.run ([] ++ [(Params.initial, JS.Fin 0.1)]) (JS.Fin 300) flat
      [Boid.constructor blank_mesh draws_fast] in
  length after = 1%nat
  /\ Forall (fun b =>
               Finite.boid b = true
               /\ Boid.maxSpeed b = JS.Fin 4 /\ Boid.maxForce b = JS.Fin 0.05
               /\ JS.le (Vector3.length (Boid.velocity b)) (JS.Fin 4) = true
               /\ JS.le (JS.Fin (- 300)) (Vector3.x (Boid.position b)) = true
               /\ JS.le (Vector3.x (Boid.position b)) (JS.Fin 300) = true
               /\ JS.le (JS.Fin (- 300)) (Vector3.z (Boid.position b)) = true
               /\ JS.le (Vector3.z (Boid.position b)) (JS.Fin 300) = true)
            after.
Proof.
  apply (simulation_invariant [] (Params.initial, JS.Fin 0.1) 300 flat
           [Boid.constructor blank_mesh draws_fast]).
  - lra.
  - intros a b. reflexivity.
  - constructor.
  - split; reflexivity.
  - constructor; [| constructor]. exists blank_mesh, draws_fast.
    split; [| reflexivity].
    unfold random, unit_interval, draws_fast.
    cbn [Boid.px Boid.py Boid.pz Boid.vx Boid.vy Boid.vz Boid.speed JS.le
         JS.lt].
    rewrite !Rleb_true, !Rltb_true by lra. reflexivity.
Defined.
